(** * botok-js: a shallow embedding of the tokenization core

    The TypeScript sources are embedded class by class, one Rocq module per
    class, with the member names of the source.  JavaScript numbers that the
    code uses as indices, offsets and lengths are integers ([Z]); strings are
    sequences of UTF-16 code units; an optional property is an [option],
    and where the code asks whether an object has a key ([in],
    [Object.keys], [Object.entries]) the property is a [Js.property], which
    tells an absent key from a key that holds [undefined];
    a loop that the source bounds by a counter or by an array is a
    structural recursion on it, and the two [while] loops of
    [Tokenize.tokenize], which the source does not bound, run on an explicit
    budget: a call that does not return within the budget is [Diverge]. *)

From Stdlib Require Import ZArith List Bool String Ascii Lia.
Import ListNotations.
Open Scope Z_scope.

(** ** JavaScript strings, arrays and completions *)

(** A string is its sequence of UTF-16 code units. *)
Definition jstring : Type := list Z.

Module Js.

(** An ASCII literal of the source, as code units. *)
Definition lit (s : string) : jstring :=
  map (fun a => Z.of_nat (nat_of_ascii a)) (list_ascii_of_string s).

Fixpoint eqb (a b : jstring) : bool :=
  match a, b with
  | [], [] => true
  | x :: a', y :: b' => (x =? y) && eqb a' b'
  | _, _ => false
  end.

Definition len {A : Type} (l : list A) : Z := Z.of_nat (List.length l).

(** [a[i]]: [None] stands for [undefined]. *)
Definition idx {A : Type} (l : list A) (i : Z) : option A :=
  if i <? 0 then None else nth_error l (Z.to_nat i).

(** [s[i]] as it appears under [join('')] or [|| '']: a missing code unit
    contributes the empty string. *)
Definition at_or_empty (s : jstring) (i : Z) : jstring :=
  match idx s i with
  | Some c => [c]
  | None => []
  end.

Definition clamp (x lo hi : Z) : Z := Z.min (Z.max x lo) hi.

(** [String.prototype.substring(a, b)]. *)
Definition substring (s : jstring) (a b : Z) : jstring :=
  let a' := clamp a 0 (len s) in
  let b' := clamp b 0 (len s) in
  let from := Z.min a' b' in
  let to := Z.max a' b' in
  firstn (Z.to_nat (to - from)) (skipn (Z.to_nat from) s).

Fixpoint startsWith (s p : jstring) : bool :=
  match p, s with
  | [], _ => true
  | y :: p', x :: s' => (x =? y) && startsWith s' p'
  | _ :: _, [] => false
  end.

(** [String.prototype.endsWith]. *)
Definition endsWith (s p : jstring) : bool :=
  startsWith (rev s) (rev p).

(** [String.prototype.includes]. *)
Fixpoint includes (s p : jstring) : bool :=
  startsWith s p ||
  match s with
  | [] => false
  | _ :: s' => includes s' p
  end.

(** Truthiness of an optional string and of an optional boolean. *)
Definition truthy_str (o : option jstring) : bool :=
  match o with
  | Some (_ :: _) => true
  | _ => false
  end.

(** [o !== literal] negated: the optional string is that literal. *)
Definition opt_str_is (o : option (list Z)) (literal : list Z) : bool :=
  match o with
  | Some s => eqb s literal
  | None => false
  end.

Definition truthy_bool (o : option bool) : bool :=
  match o with
  | Some true => true
  | _ => false
  end.

Definition truthy_num (o : option Z) : bool :=
  match o with
  | Some n => negb (n =? 0)
  | None => false
  end.

(** [a[i] = v] on an index inside the array. *)
Fixpoint set_nth {A : Type} (l : list A) (i : nat) (v : A) : list A :=
  match l, i with
  | [], _ => []
  | _ :: l', O => v :: l'
  | x :: l', S i' => x :: set_nth l' i' v
  end.

(** How a call completes: with a value, with a thrown error, or not at all
    within the loop budget it was given. *)
Inductive outcome (A : Type) : Type :=
| Ret (a : A)
| Throw (message : string)
| Diverge.

Arguments Ret {A} a.
Arguments Throw {A} message.
Arguments Diverge {A}.

Definition bind {A B : Type} (m : outcome A) (k : A -> outcome B) : outcome B :=
  match m with
  | Ret a => k a
  | Throw e => Throw e
  | Diverge => Diverge
  end.

(** A property of an object the code takes from outside: the key is
    absent, or it is present with the value [undefined], or it is present
    with a value. *)
Inductive property (A : Type) : Type :=
| Absent
| Undefined
| Value (v : A).

Arguments Absent {A}.
Arguments Undefined {A}.
Arguments Value {A} v.

(** [o.k]: an absent key reads as [undefined] too. *)
Definition read {A : Type} (p : property A) : option A :=
  match p with
  | Value v => Some v
  | _ => None
  end.

(** ['k' in o]. *)
Definition has {A : Type} (p : property A) : bool :=
  match p with
  | Absent => false
  | _ => true
  end.

(** The property of an object literal that names the key exactly when it
    has a value for it. *)
Definition given {A : Type} (o : option A) : property A :=
  match o with
  | Some v => Value v
  | None => Absent
  end.

(** [target[k] = source[k]] for a key [k] of [source], as [Object.assign]
    and the copying loops do it: a key that is present overwrites, also with
    [undefined]. *)
Definition assign {A : Type} (p : property A) (old : option A) : option A :=
  match p with
  | Absent => old
  | Undefined => None
  | Value v => Some v
  end.

End Js.

Notation "x <- m ;; k" := (Js.bind m (fun x => k))
  (at level 61, m at next level, right associativity).

(** ** types/index.ts *)

Inductive CharMarkers : Type :=
| CONS | SUB_CONS | VOW | TSEK | NORMAL_PUNCT | SPECIAL_PUNCT | NUMERAL | SYMBOL
| IN_SYL_MARK | NON_BO_NON_SKRT | SKRT_CONS | SKRT_SUB_CONS | SKRT_VOW
| TRANSPARENT | LATIN | CJK | OTHER | NFC.

(** The numeric value of the enum member. *)
Definition CharMarkers_value (c : CharMarkers) : Z :=
  match c with
  | CONS => 0 | SUB_CONS => 1 | VOW => 2 | TSEK => 3 | NORMAL_PUNCT => 4
  | SPECIAL_PUNCT => 5 | NUMERAL => 6 | SYMBOL => 7 | IN_SYL_MARK => 8
  | NON_BO_NON_SKRT => 9 | SKRT_CONS => 10 | SKRT_SUB_CONS => 11
  | SKRT_VOW => 12 | TRANSPARENT => 13 | LATIN => 14 | CJK => 15
  | OTHER => 16 | NFC => 17
  end.

Definition CharMarkers_eqb (a b : CharMarkers) : bool :=
  CharMarkers_value a =? CharMarkers_value b.

Module ChunkMarkers.

Inductive t : Type :=
| TEXT | PUNCT | NON_BO | NON_PUNCT | NUM | NON_NUM | SYM | NON_SYM
| BO | OTHER | LATIN | CJK.

Definition value (m : t) : Z :=
  match m with
  | TEXT => 100 | PUNCT => 101 | NON_BO => 102 | NON_PUNCT => 103
  | NUM => 104 | NON_NUM => 105 | SYM => 106 | NON_SYM => 107
  | BO => 108 | OTHER => 109 | LATIN => 110 | CJK => 111
  end.

Definition eqb (a b : t) : bool := value a =? value b.

End ChunkMarkers.

(** An object that the code uses as a [SenseInfo].  The interface declares
    five optional keys; the object may hold each of them with a value or with
    [undefined], and it may hold keys the interface does not declare
    ([BasicTrie.add] stores its whole [data] object as a sense), of which
    the code reads nothing but, through [Object.keys], their number. *)
Record SenseInfo : Type := mkSenseObject {
  k_pos : Js.property jstring;
  k_freq : Js.property Z;
  k_lemma : Js.property jstring;
  k_sense : Js.property jstring;
  k_affixed : Js.property bool;
  k_others : list jstring
}.

(** [sense.pos], [sense.freq], [sense.lemma], [sense.sense] and
    [sense.affixed]: [None] is [undefined]. *)
Definition s_pos (m : SenseInfo) : option jstring := Js.read (k_pos m).
Definition s_freq (m : SenseInfo) : option Z := Js.read (k_freq m).
Definition s_lemma (m : SenseInfo) : option jstring := Js.read (k_lemma m).
Definition s_sense (m : SenseInfo) : option jstring := Js.read (k_sense m).
Definition s_affixed (m : SenseInfo) : option bool := Js.read (k_affixed m).

(** The object literal that holds the given attributes and no other key. *)
Definition mkSense (pos : option jstring) (freq : option Z)
    (lemma sense : option jstring) (affixed : option bool) : SenseInfo :=
  {| k_pos := Js.given pos; k_freq := Js.given freq; k_lemma := Js.given lemma;
     k_sense := Js.given sense; k_affixed := Js.given affixed; k_others := [] |}.

(** [sense.pos = v] and [sense.lemma = v]. *)
Definition set_pos (v : jstring) (m : SenseInfo) : SenseInfo :=
  {| k_pos := Js.Value v; k_freq := k_freq m; k_lemma := k_lemma m;
     k_sense := k_sense m; k_affixed := k_affixed m; k_others := k_others m |}.

Definition set_lemma (v : jstring) (m : SenseInfo) : SenseInfo :=
  {| k_pos := k_pos m; k_freq := k_freq m; k_lemma := Js.Value v;
     k_sense := k_sense m; k_affixed := k_affixed m; k_others := k_others m |}.

(** [Object.keys(sense)]; the order of the names plays no part. *)
Definition keys_of (m : SenseInfo) : list jstring :=
  (if Js.has (k_pos m) then [Js.lit "pos"] else []) ++
  (if Js.has (k_freq m) then [Js.lit "freq"] else []) ++
  (if Js.has (k_lemma m) then [Js.lit "lemma"] else []) ++
  (if Js.has (k_sense m) then [Js.lit "sense"] else []) ++
  (if Js.has (k_affixed m) then [Js.lit "affixed"] else []) ++
  k_others m.

Record AffixationInfo : Type := mkAffixation {
  a_type : jstring;
  a_len : Z;
  a_aa : bool
}.

(** [TrieNodeData]; the property [_] is always the empty record. *)
Record TrieNodeData : Type := mkData {
  d_underscore : option unit;
  d_senses : option (list SenseInfo);
  d_formFreq : option Z;
  d_affixation : option AffixationInfo;
  d_sanskrit : option bool;
  d_version : option jstring
}.

(** ** utils/constants.ts *)

Definition TSEK_STR : jstring := [0x0F0B].
Definition AA_STR : jstring := [0x0F60].

Definition TIBETAN_RANGE : Z * Z := (0x0F00, 0x0FFF).
Definition SANSKRIT_RANGES : list (Z * Z) := [(0x0900, 0x097F); (0x0980, 0x09FF)].

(** [CHUNK_VALUES[ttype]], [None] where the table has no entry. *)
Definition CHUNK_VALUES (k : Z) : option jstring :=
  if k =? 100 then Some (Js.lit "TEXT")
  else if k =? 101 then Some (Js.lit "PUNCT")
  else if k =? 102 then Some (Js.lit "NON_PUNCT")
  else if k =? 103 then Some (Js.lit "BO")
  else if k =? 104 then Some (Js.lit "NON_BO")
  else if k =? 105 then Some (Js.lit "OTHER")
  else None.

(** ** textunits/BoString.ts *)

Module BoString.

Record t : Type := mk {
  text : jstring;
  length : Z;
  baseStructure : list CharMarkers;
  ignoreChars : list jstring
}.

Definition classifyTibetanCharacter (codePoint : Z) : CharMarkers :=
  if (0x0F40 <=? codePoint) && (codePoint <=? 0x0F6C) then CONS
  else if (0x0F90 <=? codePoint) && (codePoint <=? 0x0FBC) then SUB_CONS
  else if (0x0F71 <=? codePoint) && (codePoint <=? 0x0F84) then VOW
  else if codePoint =? 0x0F0B then TSEK
  else if (0x0F20 <=? codePoint) && (codePoint <=? 0x0F33) then NUMERAL
  else if (codePoint =? 0x0F0D) || (codePoint =? 0x0F0E) ||
          (codePoint =? 0x0F0F) || (codePoint =? 0x0F10) ||
          (codePoint =? 0x0F11) || (codePoint =? 0x0F12) then NORMAL_PUNCT
  else if (0x0F00 <=? codePoint) && (codePoint <=? 0x0F17) then SPECIAL_PUNCT
  else if (0x0F1A <=? codePoint) && (codePoint <=? 0x0F1F) then SYMBOL
  else if (codePoint =? 0x0F7F) ||
          ((0x0F86 <=? codePoint) && (codePoint <=? 0x0F8B)) then IN_SYL_MARK
  else OTHER.

Definition classifySanskritCharacter (codePoint : Z) : CharMarkers :=
  if (0x0915 <=? codePoint) && (codePoint <=? 0x0939) then SKRT_CONS
  else if (0x093E <=? codePoint) && (codePoint <=? 0x094C) then SKRT_VOW
  else if (0x0958 <=? codePoint) && (codePoint <=? 0x095F) then SKRT_SUB_CONS
  else OTHER.

Definition in_range (codePoint : Z) (r : Z * Z) : bool :=
  (fst r <=? codePoint) && (codePoint <=? snd r).

Definition classifyCharacter (codePoint : Z) : CharMarkers :=
  if in_range codePoint TIBETAN_RANGE then classifyTibetanCharacter codePoint
  else if existsb (in_range codePoint) SANSKRIT_RANGES
       then classifySanskritCharacter codePoint
  else if ((0x0041 <=? codePoint) && (codePoint <=? 0x005A)) ||
          ((0x0061 <=? codePoint) && (codePoint <=? 0x007A)) then LATIN
  else if ((0x4E00 <=? codePoint) && (codePoint <=? 0x9FFF)) ||
          ((0x3400 <=? codePoint) && (codePoint <=? 0x4DBF)) then CJK
  else if (codePoint =? 0x20) || (codePoint =? 0x09) || (codePoint =? 0x0A) ||
          (codePoint =? 0x0D) || (codePoint =? 0x00A0) ||
          (codePoint =? 0x2000) || (codePoint =? 0x2001) ||
          (codePoint =? 0x2002) || (codePoint =? 0x2003) ||
          (codePoint =? 0x2004) || (codePoint =? 0x2005) then TRANSPARENT
  else OTHER.

(** One step of [classifyCharacters]: [char] is the one-unit string
    [text[i]], and its [codePointAt(0)] is that unit. *)
Definition classifyAt (ignore : list jstring) (unit : Z) : CharMarkers :=
  if existsb (Js.eqb [unit]) ignore then TRANSPARENT
  else classifyCharacter unit.

(** The constructor. *)
Definition make (text : jstring) (ignoreChars : list jstring) : t :=
  {| text := text;
     length := Js.len text;
     baseStructure := map (classifyAt ignoreChars) text;
     ignoreChars := ignoreChars |}.

Definition charAt (b : t) (index : Z) : jstring :=
  Js.at_or_empty (text b) index.

Definition getCharType (b : t) (index : Z) : option CharMarkers :=
  Js.idx (baseStructure b) index.

Definition type_is (o : option CharMarkers) (c : CharMarkers) : bool :=
  match o with
  | Some ct => CharMarkers_eqb ct c
  | None => false
  end.

Definition substring (b : t) (start end_ : Z) : jstring :=
  Js.substring (text b) start end_.

Definition isTibetan (b : t) (index : Z) : bool :=
  match Js.idx (baseStructure b) index with
  | None => false
  | Some charType =>
      negb (CharMarkers_eqb charType LATIN) &&
      negb (CharMarkers_eqb charType CJK) &&
      negb (CharMarkers_eqb charType OTHER) &&
      negb (CharMarkers_eqb charType TRANSPARENT)
  end.

Definition isPunctuation (b : t) (index : Z) : bool :=
  let charType := Js.idx (baseStructure b) index in
  type_is charType NORMAL_PUNCT || type_is charType SPECIAL_PUNCT.

Definition isSanskrit (b : t) (index : Z) : bool :=
  let charType := Js.idx (baseStructure b) index in
  type_is charType SKRT_CONS || type_is charType SKRT_SUB_CONS ||
  type_is charType SKRT_VOW.

End BoString.

(** ** chunks/ChunkFramework.ts *)

Module ChunkFramework.

(** A chunk triple [[type, start, length]]. *)
Definition triple : Type := ChunkMarkers.t * Z * Z.

(** An entry of [chunks]: [[number[] | null, [ChunkMarkers, number, number]]]. *)
Definition entry : Type := option (list Z) * triple.

Record t : Type := mk {
  bs : BoString.t;
  text : jstring;
  chunks : list entry;
  spacesAsPunct : bool
}.

Definition make (text : jstring) (ignoreChars : list jstring)
    (spacesAsPunct : bool) : t :=
  {| bs := BoString.make text ignoreChars;
     text := text;
     chunks := [];
     spacesAsPunct := spacesAsPunct |}.

(** The [for] loop of [chunkUsing]: [n] iterations are left, [i] is the
    loop variable. *)
Fixpoint chunkUsing_loop (testFn : Z -> bool) (yesValue noValue : ChunkMarkers.t)
    (n : nat) (i : Z) (chunks : list triple) (currentStart : Z)
    (currentType : option ChunkMarkers.t)
    : list triple * Z * option ChunkMarkers.t :=
  match n with
  | O => (chunks, currentStart, currentType)
  | S n' =>
      let expectedType := if testFn i then yesValue else noValue in
      match currentType with
      | None =>
          chunkUsing_loop testFn yesValue noValue n' (i + 1)
            chunks i (Some expectedType)
      | Some ct =>
          if ChunkMarkers.eqb ct expectedType
          then chunkUsing_loop testFn yesValue noValue n' (i + 1)
                 chunks currentStart currentType
          else chunkUsing_loop testFn yesValue noValue n' (i + 1)
                 (chunks ++ [(ct, currentStart, i - currentStart)])
                 i (Some expectedType)
      end
  end.

Definition chunkUsing (testFn : Z -> bool) (start end_ : Z)
    (yesValue noValue : ChunkMarkers.t) : list triple :=
  let '(chunks, currentStart, currentType) :=
    chunkUsing_loop testFn yesValue noValue (Z.to_nat (end_ - start)) start
      [] start None in
  match currentType with
  | Some ct =>
      if currentStart <? end_
      then chunks ++ [(ct, currentStart, end_ - currentStart)]
      else chunks
  | None => chunks
  end.

(** The [for] loop of [chunk]. *)
Fixpoint chunk_loop (testFn : Z -> bool) (n : nat) (i : Z)
    (result : list (bool * Z * Z)) (currentStart : Z)
    (currentMatches : option bool) : list (bool * Z * Z) * Z * option bool :=
  match n with
  | O => (result, currentStart, currentMatches)
  | S n' =>
      let matches := testFn i in
      match currentMatches with
      | None => chunk_loop testFn n' (i + 1) result i (Some matches)
      | Some cm =>
          if Bool.eqb cm matches
          then chunk_loop testFn n' (i + 1) result currentStart currentMatches
          else chunk_loop testFn n' (i + 1)
                 (result ++ [(cm, currentStart, i - currentStart)])
                 i (Some matches)
      end
  end.

Definition chunk (start end_ : Z) (testFn : Z -> bool) : list (bool * Z * Z) :=
  let '(result, currentStart, currentMatches) :=
    chunk_loop testFn (Z.to_nat (end_ - start)) start [] start None in
  match currentMatches with
  | Some cm =>
      if currentStart <? end_
      then result ++ [(cm, currentStart, end_ - currentStart)]
      else result
  | None => result
  end.

Definition isBoUnicode (c : t) (charIndex : Z) : bool :=
  match BoString.getCharType (bs c) charIndex with
  | None => false
  | Some charType =>
      negb (CharMarkers_eqb charType OTHER) &&
      negb (CharMarkers_eqb charType LATIN) &&
      negb (CharMarkers_eqb charType CJK)
  end.

Definition isTsekOrLongSkrtVowel (c : t) (charIndex : Z) : bool :=
  let charType := BoString.getCharType (bs c) charIndex in
  let char := BoString.charAt (bs c) charIndex in
  match charType with
  | Some TSEK => true
  | _ => Js.eqb char [0x0F7F] || Js.eqb char [0x0F71]
  end.

Definition chunkBoText (c : t) (start end_ : Z)
    (yesValue noValue : ChunkMarkers.t) : list triple :=
  chunkUsing (isBoUnicode c) start end_ yesValue noValue.

(** The merging loop of [syllabify]; it updates [indices] in place. *)
Fixpoint syllabify_merge (n : nat) (i : nat) (indices : list (bool * Z * Z))
    : list (bool * Z * Z) :=
  match n with
  | O => indices
  | S n' =>
      let indices' :=
        match nth_error indices i with
        | Some (b, _, l) =>
            if b && (0 <? i)%nat
            then match nth_error indices (i - 1) with
                 | Some (pb, ps, pl) =>
                     if negb pb
                     then Js.set_nth indices (i - 1) (pb, ps, pl + l)
                     else indices
                 | None => indices
                 end
            else indices
        | None => indices
        end in
      syllabify_merge n' (S i) indices'
  end.

Definition syllabify (c : t) (start end_ : Z) (yesValue : ChunkMarkers.t)
    : list triple :=
  let indices := chunk start end_ (isTsekOrLongSkrtVowel c) in
  let indices := syllabify_merge (List.length indices) 0 indices in
  map (fun ch : bool * Z * Z => let '(_, s, l) := ch in (yesValue, s, l))
      (filter (fun ch : bool * Z * Z => let '(b, _, _) := ch in negb b) indices).

(** A triple [[type, start, length]] stored where the entry type says
    [number[]]: at run time it is the array of its three numbers. *)
Definition as_numbers (tr : triple) : list Z :=
  let '(m, s, l) := tr in [ChunkMarkers.value m; s; l].

(** The body of the [for ... of boChunks] loop. *)
Definition serve_one (c : t) (boChunk : triple) : list entry :=
  let '(type, start, length) := boChunk in
  if ChunkMarkers.eqb type ChunkMarkers.BO
  then map (fun syl => (Some (as_numbers syl), (ChunkMarkers.TEXT, start, length)))
           (syllabify c start (start + length) ChunkMarkers.TEXT)
  else [(None, (type, start, length))].

Definition serveSylsToTrie (c : t) : t :=
  let boChunks :=
    chunkBoText c 0 (BoString.length (bs c)) ChunkMarkers.BO ChunkMarkers.OTHER in
  {| bs := bs c;
     text := text c;
     chunks := flat_map (serve_one c) boChunks;
     spacesAsPunct := spacesAsPunct c |}.

(** [this.bs.getCharType(position) || CharMarkers.OTHER]: the member
    [CONS] has the value 0, which [||] treats like [undefined]. *)
Definition getCharType (c : t) (position : Z) : CharMarkers :=
  match BoString.getCharType (bs c) position with
  | Some ct => if CharMarkers_value ct =? 0 then OTHER else ct
  | None => OTHER
  end.

Definition isPunctuation (c : t) (charIndex : Z) : bool :=
  let charType := BoString.getCharType (bs c) charIndex in
  let prev := BoString.getCharType (bs c) (charIndex - 1) in
  if (0 <? charIndex) &&
     (BoString.type_is prev SYMBOL || BoString.type_is prev NUMERAL ||
      BoString.type_is prev OTHER || BoString.type_is prev NORMAL_PUNCT ||
      BoString.type_is prev SPECIAL_PUNCT || BoString.type_is prev TSEK ||
      BoString.type_is prev TRANSPARENT) &&
     (BoString.type_is charType TSEK || BoString.type_is charType TRANSPARENT ||
      BoString.type_is charType NORMAL_PUNCT)
  then true
  else BoString.type_is charType NORMAL_PUNCT ||
       BoString.type_is charType SPECIAL_PUNCT ||
       BoString.type_is charType TRANSPARENT.

Definition isNumber (c : t) (charIndex : Z) : bool :=
  let charType := BoString.getCharType (bs c) charIndex in
  BoString.type_is charType NUMERAL || BoString.type_is charType TRANSPARENT.

Definition isSymbol (c : t) (charIndex : Z) : bool :=
  let charType := BoString.getCharType (bs c) charIndex in
  BoString.type_is charType SYMBOL || BoString.type_is charType TRANSPARENT ||
  BoString.type_is charType NFC.

Definition isLatin (c : t) (charIndex : Z) : bool :=
  let charType := BoString.getCharType (bs c) charIndex in
  BoString.type_is charType LATIN || BoString.type_is charType TRANSPARENT.

Definition isCjk (c : t) (charIndex : Z) : bool :=
  let charType := BoString.getCharType (bs c) charIndex in
  BoString.type_is charType CJK || BoString.type_is charType TRANSPARENT.

Definition chunkPunctuation (c : t) (start end_ : Z)
    (yesValue noValue : ChunkMarkers.t) : list triple :=
  chunkUsing (isPunctuation c) start end_ yesValue noValue.

Definition chunkNumbers (c : t) (start end_ : Z)
    (yesValue noValue : ChunkMarkers.t) : list triple :=
  chunkUsing (isNumber c) start end_ yesValue noValue.

Definition chunkSymbols (c : t) (start end_ : Z)
    (yesValue noValue : ChunkMarkers.t) : list triple :=
  chunkUsing (isSymbol c) start end_ yesValue noValue.

Definition chunkLatin (c : t) (start end_ : Z)
    (yesValue noValue : ChunkMarkers.t) : list triple :=
  chunkUsing (isLatin c) start end_ yesValue noValue.

Definition chunkCjk (c : t) (start end_ : Z)
    (yesValue noValue : ChunkMarkers.t) : list triple :=
  chunkUsing (isCjk c) start end_ yesValue noValue.

(** [pipeChunk]; [chunkFn] takes [(start, end, yesValue, noValue)]. *)
Definition pipeChunk (chunks : list triple)
    (chunkFn : Z -> Z -> ChunkMarkers.t -> ChunkMarkers.t -> list triple)
    (toChunkMarker yesValue : ChunkMarkers.t) : list triple :=
  flat_map (fun ch : triple =>
              let '(type, start, length) := ch in
              if ChunkMarkers.eqb type toChunkMarker
              then chunkFn start (start + length) yesValue type
              else [(type, start, length)]) chunks.

(** [TextChunk] of types/index.ts. *)
Record TextChunk : Type := mkTextChunk {
  tc_type : ChunkMarkers.t;
  tc_start : Z;
  tc_length : Z;
  tc_content : jstring
}.

Definition getChunked (c : t) (chunks : list triple) : list TextChunk :=
  map (fun ch : triple =>
         let '(type, start, length) := ch in
         {| tc_type := type; tc_start := start; tc_length := length;
            tc_content := BoString.substring (bs c) start (start + length) |})
      chunks.

End ChunkFramework.

(** ** tries/BasicTrie.ts *)

Module BasicTrie.

(** [TrieNode]; [children] is the [Map] in insertion order. *)
#[warnings="-register-all"] Inductive TrieNode : Type := mkNode {
  label : jstring;
  children : list (jstring * TrieNode);
  leaf : bool;
  data : TrieNodeData
}.

Definition emptyData : TrieNodeData :=
  {| d_underscore := Some tt; d_senses := None; d_formFreq := None;
     d_affixation := None; d_sanskrit := None; d_version := None |}.

(** [new TrieNode(label)]. *)
Definition newNode (lbl : jstring) : TrieNode :=
  {| label := lbl; children := []; leaf := false; data := emptyData |}.

Fixpoint map_get (m : list (jstring * TrieNode)) (k : jstring) : option TrieNode :=
  match m with
  | [] => None
  | (k', v) :: m' => if Js.eqb k' k then Some v else map_get m' k
  end.

(** [Map.prototype.set]: an existing key keeps its place. *)
Fixpoint map_set (m : list (jstring * TrieNode)) (k : jstring) (v : TrieNode)
    : list (jstring * TrieNode) :=
  match m with
  | [] => [(k, v)]
  | (k', v') :: m' =>
      if Js.eqb k' k then (k', v) :: m' else (k', v') :: map_set m' k v
  end.

Definition isMatch (n : TrieNode) : bool := leaf n.

Definition getChild (n : TrieNode) (lbl : jstring) : option TrieNode :=
  map_get (children n) lbl.

Definition setChild (n : TrieNode) (lbl : jstring) (c : TrieNode) : TrieNode :=
  {| label := label n; children := map_set (children n) lbl c;
     leaf := leaf n; data := data n |}.

Definition setLeaf (b : bool) (n : TrieNode) : TrieNode :=
  {| label := label n; children := children n; leaf := b; data := data n |}.

Definition setData (d : TrieNodeData) (n : TrieNode) : TrieNode :=
  {| label := label n; children := children n; leaf := leaf n; data := d |}.

Record t : Type := mk { head : TrieNode }.

(** [new BasicTrie()]. *)
Definition make : t := {| head := newNode [] |}.

(** The argument type [string[] | string]. *)
Inductive word : Type :=
| Str (s : jstring)
| Arr (a : list jstring).

(** [!word || (Array.isArray(word) && word.length === 0)]. *)
Definition isEmptyWord (w : word) : bool :=
  match w with
  | Str [] => true
  | Arr [] => true
  | _ => false
  end.

Definition wordArray (w : word) : list jstring :=
  match w with
  | Arr a => a
  | Str s => [s]
  end.

(** The node a path leads to, when every syllable has a child. *)
Fixpoint find (w : list jstring) (n : TrieNode) : option TrieNode :=
  match w with
  | [] => Some n
  | syllable :: w' =>
      match getChild n syllable with
      | Some child => find w' child
      | None => None
      end
  end.

(** The write through a path that the source does on the node object it
    has reached: the nodes above it are rebuilt around the new node. *)
Fixpoint update (w : list jstring) (f : TrieNode -> TrieNode) (n : TrieNode)
    : TrieNode :=
  match w with
  | [] => f n
  | syllable :: w' =>
      match getChild n syllable with
      | Some child => setChild n syllable (update w' f child)
      | None => n
      end
  end.

Definition opt_eqb {A : Type} (e : A -> A -> bool) (a b : option A) : bool :=
  match a, b with
  | None, None => true
  | Some x, Some y => e x y
  | _, _ => false
  end.

Definition isDiffMeaning (m1 m2 : SenseInfo) : bool :=
  opt_eqb Js.eqb (s_pos m1) (s_pos m2) &&
  opt_eqb Js.eqb (s_lemma m1) (s_lemma m2) &&
  opt_eqb Z.eqb (s_freq m1) (s_freq m2) &&
  opt_eqb Js.eqb (s_sense m1) (s_sense m2) &&
  opt_eqb Bool.eqb (s_affixed m1) (s_affixed m2).

(** [addMeaning]: the array after the call, and the returned flag. *)
Definition addMeaning (senses : list SenseInfo) (meaning : SenseInfo)
    : list SenseInfo * bool :=
  if existsb (fun sense => isDiffMeaning sense meaning) senses
  then (senses, false)
  else (senses ++ [meaning], true).

(** The [data] argument of [add], a [Record<string, any>], by the keys
    that [updateNodeData] tells apart: the five keys of a sense, the key
    [senses], and the keys that are copied onto the data of the node.  The
    keys and their values are those of the declared types [SenseInfo] and
    [TrieNodeData], each key absent, [undefined] or holding a value; a key
    [senses] that holds no array is [Js.Undefined], the one value of its
    declared type that is no array.  [e_others] names the keys of [data]
    that neither type declares. *)
Record AddData : Type := mkAddData {
  e_pos : Js.property jstring;
  e_freq : Js.property Z;
  e_lemma : Js.property jstring;
  e_sense : Js.property jstring;
  e_affixed : Js.property bool;
  e_senses : Js.property (list SenseInfo);
  e_underscore : Js.property unit;
  e_formFreq : Js.property Z;
  e_affixation : Js.property AffixationInfo;
  e_sanskrit : Js.property bool;
  e_version : Js.property jstring;
  e_others : list jstring
}.

(** [data as SenseInfo]: the same object, read as a sense.  Its own keys
    outside the interface are the other keys it holds. *)
Definition asSense (e : AddData) : SenseInfo :=
  {| k_pos := e_pos e; k_freq := e_freq e; k_lemma := e_lemma e;
     k_sense := e_sense e; k_affixed := e_affixed e;
     k_others :=
       (if Js.has (e_senses e) then [Js.lit "senses"] else []) ++
       (if Js.has (e_underscore e) then [Js.lit "_"] else []) ++
       (if Js.has (e_formFreq e) then [Js.lit "formFreq"] else []) ++
       (if Js.has (e_affixation e) then [Js.lit "affixation"] else []) ++
       (if Js.has (e_sanskrit e) then [Js.lit "sanskrit"] else []) ++
       (if Js.has (e_version e) then [Js.lit "version"] else []) ++
       e_others e |}.

(** [data.pos || data.lemma || data.freq || data.sense]. *)
Definition hasSenseKey (e : AddData) : bool :=
  Js.truthy_str (Js.read (e_pos e)) || Js.truthy_str (Js.read (e_lemma e)) ||
  Js.truthy_num (Js.read (e_freq e)) || Js.truthy_str (Js.read (e_sense e)).

Definition senses_or_empty (d : TrieNodeData) : list SenseInfo :=
  match d_senses d with
  | Some l => l
  | None => []
  end.

(** [updateNodeData].  The senses array is there or is made; the data
    object itself is added as a meaning when one of its four keys is truthy;
    then the loop over the entries adds the elements of an array under
    [senses] and copies every other key outside the five of a sense onto the
    node data, which for a key [senses] that holds no array overwrites the
    array.  A key that [TrieNodeData] does not declare is copied like the
    others; the node data of the model has no place for it, and the code
    reads it from there nowhere. *)
Definition updateNodeData (d : TrieNodeData) (e : AddData) : TrieNodeData :=
  let senses := senses_or_empty d in
  let senses :=
    if hasSenseKey e then fst (addMeaning senses (asSense e)) else senses in
  {| d_underscore := Js.assign (e_underscore e) (d_underscore d);
     d_senses :=
       match e_senses e with
       | Js.Absent => Some senses
       | Js.Value l =>
           Some (fold_left (fun acc sense => fst (addMeaning acc sense)) l senses)
       | Js.Undefined => None
       end;
     d_formFreq := Js.assign (e_formFreq e) (d_formFreq d);
     d_affixation := Js.assign (e_affixation e) (d_affixation d);
     d_sanskrit := Js.assign (e_sanskrit e) (d_sanskrit d);
     d_version := Js.assign (e_version e) (d_version d) |}.

(** What [add] does to the node that ends the word. *)
Definition finishAdd (e : option AddData) (n : TrieNode) : TrieNode :=
  let n := setLeaf true n in
  match e with
  | Some e => setData (updateNodeData (data n) e) n
  | None =>
      match d_senses (data n) with
      | Some _ => n
      | None =>
          setData {| d_underscore := d_underscore (data n);
                     d_senses := Some [];
                     d_formFreq := d_formFreq (data n);
                     d_affixation := d_affixation (data n);
                     d_sanskrit := d_sanskrit (data n);
                     d_version := d_version (data n) |} n
      end
  end.

(** The two loops of [add]: follow the children that exist, create the
    ones that do not, then finish the last node. *)
Fixpoint addPath (w : list jstring) (e : option AddData) (n : TrieNode)
    : TrieNode :=
  match w with
  | [] => finishAdd e n
  | syllable :: w' =>
      let child :=
        match getChild n syllable with
        | Some c => c
        | None => newNode syllable
        end in
      setChild n syllable (addPath w' e child)
  end.

Definition add (tr : t) (w : word) (e : option AddData) : t :=
  {| head := addPath (wordArray w) e (head tr) |}.

(** [walk(char, currentNode?)]. *)
Definition walk (tr : t) (char : jstring) (currentNode : option TrieNode)
    : option TrieNode :=
  let currentNode :=
    match currentNode with
    | Some n => n
    | None => head tr
    end in
  getChild currentNode char.

Definition emptyWordError : string := "Word must be non-empty".

(** The loop of [hasWord]: the flag and the last node reached. *)
Fixpoint hasWord_loop (w : list jstring) (currentNode : TrieNode)
    : bool * TrieNode :=
  match w with
  | [] => (true, currentNode)
  | syllable :: w' =>
      match getChild currentNode syllable with
      | Some child => hasWord_loop w' child
      | None => (false, currentNode)
      end
  end.

Definition hasWord (tr : t) (w : word) : Js.outcome (bool * TrieNodeData) :=
  if isEmptyWord w then Js.Throw emptyWordError
  else
    let '(exists_, currentNode) := hasWord_loop (wordArray w) (head tr) in
    let exists_ := if exists_ && negb (leaf currentNode) then false else exists_ in
    Js.Ret (exists_, data currentNode).

(** The [data: any] argument of [addData]. *)
Inductive anyData : Type :=
| DNumber (n : Z)
| DObject (meaning : SenseInfo)
| DOther.

(** [addData]: the returned flag and the trie after the call. *)
Definition addData (tr : t) (w : word) (d : anyData) : Js.outcome (bool * t) :=
  if isEmptyWord w then Js.Throw emptyWordError
  else
    match find (wordArray w) (head tr) with
    | None => Js.Ret (false, tr)
    | Some currentNode =>
        if negb (leaf currentNode) then Js.Ret (false, tr)
        else
          match d with
          | DNumber n =>
              let f nd :=
                setData {| d_underscore := d_underscore (data nd);
                           d_senses := d_senses (data nd);
                           d_formFreq := Some n;
                           d_affixation := d_affixation (data nd);
                           d_sanskrit := d_sanskrit (data nd);
                           d_version := d_version (data nd) |} nd in
              Js.Ret (true, {| head := update (wordArray w) f (head tr) |})
          | DObject meaning =>
              let '(senses, added) :=
                addMeaning (senses_or_empty (data currentNode)) meaning in
              let f nd :=
                setData {| d_underscore := d_underscore (data nd);
                           d_senses := Some senses;
                           d_formFreq := d_formFreq (data nd);
                           d_affixation := d_affixation (data nd);
                           d_sanskrit := d_sanskrit (data nd);
                           d_version := d_version (data nd) |} nd in
              Js.Ret (added, {| head := update (wordArray w) f (head tr) |})
          | DOther => Js.Ret (false, tr)
          end
    end.

(** [deactivate]: the returned flag and the trie after the call. *)
Definition deactivate (tr : t) (w : word) (reverse : bool)
    : Js.outcome (bool * t) :=
  if isEmptyWord w then Js.Throw emptyWordError
  else
    match find (wordArray w) (head tr) with
    | None => Js.Ret (false, tr)
    | Some _ =>
        Js.Ret (true, {| head := update (wordArray w) (setLeaf reverse) (head tr) |})
    end.

(** [get(key)] of [BasicTrie]. *)
Definition get (tr : t) (key : jstring) : option TrieNode :=
  getChild (head tr) key.

(** [clear()]. *)
Definition clear (tr : t) : t := {| head := newNode [] |}.

End BasicTrie.

(** ** tokenizers/Token.ts *)

Module Token.

(** The declared fields of the class, then the properties that the code
    creates on a token without a declaration (through the index signature):
    [sense] by [applyChosenSense], and [_], [formFreq], [version] by the
    [Object.assign(token, data)] of [createToken]. *)
Record t : Type := mk {
  text : jstring;
  textCleaned : option jstring;
  textUnaffixed : option jstring;
  pos : option jstring;
  lemma : option jstring;
  freq : option Z;
  start : Z;
  length : Z;
  charTypes : option (list CharMarkers);
  chunkType : jstring;
  syllables : option (list jstring);
  syllableIndices : option (list (list Z));
  syllableStartEnd : option (list (Z * Z));
  senses : option (list SenseInfo);
  sanskrit : option bool;
  affix : option bool;
  affixHost : option bool;
  affixation : option AffixationInfo;
  sense : option jstring;
  underscore : option unit;
  formFreq : option Z;
  version : option jstring
}.

(** [Partial<IToken>], which is also the shape of what [toJSON] returns. *)
Record json : Type := mkJson {
  j_text : option jstring;
  j_textCleaned : option jstring;
  j_textUnaffixed : option jstring;
  j_pos : option jstring;
  j_lemma : option jstring;
  j_freq : option Z;
  j_start : option Z;
  j_length : option Z;
  j_charTypes : option (list CharMarkers);
  j_chunkType : option jstring;
  j_syllables : option (list jstring);
  j_syllableIndices : option (list (list Z));
  j_syllableStartEnd : option (list (Z * Z));
  j_senses : option (list SenseInfo);
  j_sanskrit : option bool;
  j_affix : option bool;
  j_affixHost : option bool;
  j_affixation : option AffixationInfo
}.

(** The field initialisers of the class. *)
Definition initial : t :=
  {| text := []; textCleaned := None; textUnaffixed := None; pos := None;
     lemma := None; freq := None; start := 0; length := 0; charTypes := None;
     chunkType := []; syllables := None; syllableIndices := None;
     syllableStartEnd := None; senses := None; sanskrit := None;
     affix := None; affixHost := None; affixation := None;
     sense := None; underscore := None; formFreq := None; version := None |}.

Definition over {A : Type} (new : option A) (old : A) : A :=
  match new with
  | Some v => v
  | None => old
  end.

Definition over_opt {A : Type} (new old : option A) : option A :=
  match new with
  | Some _ => new
  | None => old
  end.

(** [Object.assign(this, data)] for a [Partial<IToken>]. *)
Definition assign (tk : t) (d : json) : t :=
  {| text := over (j_text d) (text tk);
     textCleaned := over_opt (j_textCleaned d) (textCleaned tk);
     textUnaffixed := over_opt (j_textUnaffixed d) (textUnaffixed tk);
     pos := over_opt (j_pos d) (pos tk);
     lemma := over_opt (j_lemma d) (lemma tk);
     freq := over_opt (j_freq d) (freq tk);
     start := over (j_start d) (start tk);
     length := over (j_length d) (length tk);
     charTypes := over_opt (j_charTypes d) (charTypes tk);
     chunkType := over (j_chunkType d) (chunkType tk);
     syllables := over_opt (j_syllables d) (syllables tk);
     syllableIndices := over_opt (j_syllableIndices d) (syllableIndices tk);
     syllableStartEnd := over_opt (j_syllableStartEnd d) (syllableStartEnd tk);
     senses := over_opt (j_senses d) (senses tk);
     sanskrit := over_opt (j_sanskrit d) (sanskrit tk);
     affix := over_opt (j_affix d) (affix tk);
     affixHost := over_opt (j_affixHost d) (affixHost tk);
     affixation := over_opt (j_affixation d) (affixation tk);
     sense := sense tk; underscore := underscore tk;
     formFreq := formFreq tk; version := version tk |}.

(** The constructor. *)
Definition make (data : option json) : t :=
  match data with
  | Some d => assign initial d
  | None => initial
  end.

(** [if (x) json.k = x] for a string and for a boolean. *)
Definition keep_str (o : option jstring) : option jstring :=
  if Js.truthy_str o then o else None.

Definition keep_bool (o : option bool) : option bool :=
  if Js.truthy_bool o then o else None.

Definition toJSON (tk : t) : json :=
  {| j_text := Some (text tk);
     j_start := Some (start tk);
     j_length := Some (length tk);
     j_chunkType := Some (chunkType tk);
     j_textCleaned := keep_str (textCleaned tk);
     j_textUnaffixed := keep_str (textUnaffixed tk);
     j_pos := keep_str (pos tk);
     j_lemma := keep_str (lemma tk);
     j_freq := freq tk;
     j_charTypes := charTypes tk;
     j_syllables := syllables tk;
     j_syllableIndices := syllableIndices tk;
     j_syllableStartEnd := syllableStartEnd tk;
     j_senses := senses tk;
     j_sanskrit := keep_bool (sanskrit tk);
     j_affix := keep_bool (affix tk);
     j_affixHost := keep_bool (affixHost tk);
     j_affixation := affixation tk |}.

Definition fromJSON (j : json) : t := make (Some j).

(** The getter [syls], after the [join('')] that its one caller applies to
    every syllable: [None] is the empty-string result of the getter. *)
Definition syls_joined (tk : t) : option (list jstring) :=
  match syllableIndices tk, text tk with
  | Some sylsIdx, _ :: _ =>
      Some (map (fun syl => flat_map (Js.at_or_empty (text tk)) syl) sylsIdx)
  | _, _ => None
  end.

Definition set_senses (v : option (list SenseInfo)) (tk : t) : t :=
  {| text := text tk; textCleaned := textCleaned tk;
     textUnaffixed := textUnaffixed tk; pos := pos tk; lemma := lemma tk;
     freq := freq tk; start := start tk; length := length tk;
     charTypes := charTypes tk; chunkType := chunkType tk;
     syllables := syllables tk; syllableIndices := syllableIndices tk;
     syllableStartEnd := syllableStartEnd tk; senses := v;
     sanskrit := sanskrit tk; affix := affix tk; affixHost := affixHost tk;
     affixation := affixation tk; sense := sense tk;
     underscore := underscore tk; formFreq := formFreq tk;
     version := version tk |}.

(** [hasPos]. *)
Definition hasPos (tk : t) : bool :=
  Js.truthy_str (pos tk) &&
  negb (Js.opt_str_is (pos tk) (Js.lit "NO_POS")) &&
  negb (Js.opt_str_is (pos tk) (Js.lit "NON_WORD")).

Definition isWord (tk : t) : bool := Js.eqb (chunkType tk) (Js.lit "TEXT").

Definition isPunctuation (tk : t) : bool :=
  Js.eqb (chunkType tk) (Js.lit "PUNCT") ||
  Js.opt_str_is (pos tk) (Js.lit "PUNCT").

Definition isNonTibetan (tk : t) : bool :=
  Js.eqb (chunkType tk) (Js.lit "NON_BO").

Definition isNumeric (tk : t) : bool := Js.eqb (chunkType tk) (Js.lit "NUM").

(** [getLemma]: the token's lemma when it is truthy, else the first truthy
    lemma among the senses. *)
Definition getLemma (tk : t) : option jstring :=
  if Js.truthy_str (lemma tk) then lemma tk
  else
    match senses tk with
    | Some l =>
        match find (fun m => Js.truthy_str (s_lemma m)) l with
        | Some m => s_lemma m
        | None => None
        end
    | None => None
    end.

(** [getFrequency]. *)
Definition getFrequency (tk : t) : option Z :=
  match freq tk with
  | Some f => Some f
  | None =>
      match senses tk with
      | Some l =>
          match find (fun m => match s_freq m with Some _ => true | None => false end) l with
          | Some m => s_freq m
          | None => None
          end
      | None => None
      end
  end.

(** The loop of [getAllPos] over the senses. *)
Fixpoint allPos_loop (l : list SenseInfo) (poses : list jstring) : list jstring :=
  match l with
  | [] => poses
  | m :: l' =>
      match s_pos m with
      | Some (c :: p) =>
          if existsb (Js.eqb (c :: p)) poses then allPos_loop l' poses
          else allPos_loop l' (poses ++ [c :: p])
      | _ => allPos_loop l' poses
      end
  end.

Definition getAllPos (tk : t) : list jstring :=
  let poses :=
    match pos tk with
    | Some (c :: p) => [c :: p]
    | _ => []
    end in
  match senses tk with
  | Some l => allPos_loop l poses
  | None => poses
  end.

Definition matchesPos (tk : t) (posTag : jstring) : bool :=
  existsb (Js.eqb posTag) (getAllPos tk).

(** [clone]. *)
Definition clone (tk : t) : t := fromJSON (toJSON tk).

End Token.

(** ** tokenizers/Tokenize.ts *)

Module Tokenize.

Record t : Type := mk { trie : BasicTrie.t }.

Definition NO_POS : jstring := Js.lit "NO_POS".

(** The object literal [{}] passed as [data]. *)
Definition noData : TrieNodeData :=
  {| d_underscore := None; d_senses := None; d_formFreq := None;
     d_affixation := None; d_sanskrit := None; d_version := None |}.

Definition hasSanskritChar (charTypes : list CharMarkers) : bool :=
  existsb (fun ct => CharMarkers_eqb ct SKRT_VOW ||
                     CharMarkers_eqb ct SKRT_CONS ||
                     CharMarkers_eqb ct SKRT_SUB_CONS) charTypes.

Definition hasSanskritSyllable (word : jstring) : bool :=
  Js.includes word [0x0F71; 0x0F72] ||
  Js.includes word [0x0F71; 0x0F74] ||
  Js.includes word [0x0FB2; 0x0F80].

Definition isSanskrit (charTypes : list CharMarkers) (word : jstring) : bool :=
  hasSanskritChar charTypes || hasSanskritSyllable word.

Definition non_null (syls : list (option (list Z))) : list (list Z) :=
  flat_map (fun syl => match syl with Some l => [l] | None => [] end) syls.

(** [createToken].  The token is written here as the record that the
    statements of the source leave behind: the four constructor fields,
    the two syllable fields when [syls[0] !== null], [charTypes], the
    properties of [data] copied by [Object.assign], and last [sanskrit],
    which the setter [skrt] overwrites. *)
Definition createToken (pp : ChunkFramework.t) (ttype : ChunkMarkers.t)
    (start length : Z) (syls : list (option (list Z)))
    (sylStartEnd : list (Z * Z)) (data : TrieNodeData) : Token.t :=
  let text := Js.substring (ChunkFramework.text pp) start (start + length) in
  let charTypes :=
    map (fun i => ChunkFramework.getCharType pp (start + Z.of_nat i))
        (seq 0 (Z.to_nat length)) in
  let has_syls :=
    match syls with
    | None :: _ => false
    | _ => true
    end in
  {| Token.text := text;
     Token.textCleaned := None;
     Token.textUnaffixed := None;
     Token.pos := None;
     Token.lemma := None;
     Token.freq := None;
     Token.start := start;
     Token.length := length;
     Token.charTypes := Some charTypes;
     Token.chunkType :=
       match CHUNK_VALUES (ChunkMarkers.value ttype) with
       | Some v => v
       | None => Js.lit "TEXT"
       end;
     Token.syllables := None;
     Token.syllableIndices :=
       if has_syls
       then Some (map (map (fun s => s - start)) (non_null syls))
       else None;
     Token.syllableStartEnd :=
       if has_syls
       then Some (map (fun se : Z * Z => (fst se - start, snd se - start))
                      sylStartEnd)
       else None;
     Token.senses := d_senses data;
     Token.sanskrit := Some (isSanskrit charTypes text);
     Token.affix := None;
     Token.affixHost := None;
     Token.affixation := d_affixation data;
     Token.sense := None;
     Token.underscore := d_underscore data;
     Token.formFreq := d_formFreq data;
     Token.version := d_version data |}.

(** [this.preProcessed!.chunks[i]] where the code goes on to read a
    component of it. *)
Definition chunkAt (pp : ChunkFramework.t) (i : Z)
    : Js.outcome ChunkFramework.entry :=
  match Js.idx (ChunkFramework.chunks pp) i with
  | Some e => Js.Ret e
  | None => Js.Throw "TypeError: cannot read properties of undefined"
  end.

(** The [if (ttype)] block of [chunksToToken], on the value of [data].  The
    source writes the stamped senses into the object it was handed, which for
    a match is the data object of the trie node.  The stamp changes nothing
    when applied again, and neither [walk] nor [isMatch] reads the data, so a
    token gets the same data whether or not an earlier token of the same node
    was stamped; the trie is therefore kept as it was. *)
Definition stamp (ttype : option jstring) (data : TrieNodeData) : TrieNodeData :=
  match ttype with
  | Some (c :: ty) =>
      let senses :=
        match d_senses data with
        | None => [mkSense (Some (c :: ty)) None None None None]
        | Some l =>
            map (fun m => if Js.truthy_str (s_pos m) then m
                          else set_pos (c :: ty) m) l
        end in
      {| d_underscore := d_underscore data; d_senses := Some senses;
         d_formFreq := d_formFreq data; d_affixation := d_affixation data;
         d_sanskrit := d_sanskrit data; d_version := d_version data |}
  | _ => data
  end.

(** [chunkData[0]?.[k] ?? 0]. *)
Definition field_or_zero (c0 : option (list Z)) (k : Z) : Z :=
  match c0 with
  | Some l => match Js.idx l k with Some v => v | None => 0 end
  | None => 0
  end.

Fixpoint tokenSyls_of (pp : ChunkFramework.t) (syls : list Z)
    : Js.outcome (list (option (list Z))) :=
  match syls with
  | [] => Js.Ret []
  | i :: rest =>
      e <- chunkAt pp i ;;
      r <- tokenSyls_of pp rest ;;
      Js.Ret (fst e :: r)
  end.

(** The [for (const i of syls)] loop of the multi-syllable branch.  A
    syllable array without an element 1 or 2 would make the sums [NaN],
    which the integer model reports as a throw. *)
Fixpoint spans_loop (pp : ChunkFramework.t) (syls : list Z) (tokenLength : Z)
    (sylStartEnd : list (Z * Z)) : Js.outcome (Z * list (Z * Z)) :=
  match syls with
  | [] => Js.Ret (tokenLength, sylStartEnd)
  | i :: rest =>
      chunkData <- chunkAt pp i ;;
      match fst chunkData with
      | Some c0 =>
          match Js.idx c0 1, Js.idx c0 2 with
          | Some s, Some l =>
              spans_loop pp rest (tokenLength + l) (sylStartEnd ++ [(s, s + l)])
          | _, _ => Js.Throw "NaN"
          end
      | None => spans_loop pp rest tokenLength sylStartEnd
      end
  end.

Definition chunksToToken (pp : ChunkFramework.t) (syls : list Z)
    (data : TrieNodeData) (ttype : option jstring) : Js.outcome Token.t :=
  match syls with
  | [] => Js.Throw "syls should contain at least 1 token"
  | [s0] =>
      chunkData <- chunkAt pp s0 ;;
      let tokenSyls := [fst chunkData] in
      let tokenType := fst (fst (snd chunkData)) in
      let tokenStart := field_or_zero (fst chunkData) 1 in
      let tokenLength := field_or_zero (fst chunkData) 2 in
      let sylStartEnd :=
        [(field_or_zero (fst chunkData) 1,
          field_or_zero (fst chunkData) 1 + field_or_zero (fst chunkData) 2)] in
      Js.Ret (createToken pp tokenType tokenStart tokenLength tokenSyls
                sylStartEnd (stamp ttype data))
  | s0 :: _ =>
      tokenSyls <- tokenSyls_of pp syls ;;
      lastChunk <- chunkAt pp (last syls 0) ;;
      let tokenType := fst (fst (snd lastChunk)) in
      firstChunk <- chunkAt pp s0 ;;
      let tokenStart := field_or_zero (fst firstChunk) 1 in
      r <- spans_loop pp syls 0 [] ;;
      Js.Ret (createToken pp tokenType tokenStart (fst r) tokenSyls (snd r)
                (stamp ttype data))
  end.

(** [matchData: Record<number, any>]. *)
Definition matchMap : Type := list (Z * TrieNodeData).

Fixpoint match_get (m : matchMap) (k : Z) : option TrieNodeData :=
  match m with
  | [] => None
  | (k', v) :: m' => if k' =? k then Some v else match_get m' k
  end.

Fixpoint match_set (m : matchMap) (k : Z) (v : TrieNodeData) : matchMap :=
  match m with
  | [] => [(k, v)]
  | (k', v') :: m' =>
      if k' =? k then (k', v) :: m' else (k', v') :: match_set m' k v
  end.

(** [Math.max(...Object.keys(matchData).map(Number))] on a map that is not
    empty. *)
Definition match_max (m : matchMap) : Z :=
  match m with
  | [] => 0
  | (k, _) :: m' => fold_left (fun acc kv => Z.max acc (fst kv)) m' k
  end.

(** [(!data.senses || data.senses.every(m => !m.pos)) ? 'NO_POS' : undefined]. *)
Definition ttype_of (data : TrieNodeData) : option jstring :=
  match d_senses data with
  | None => Some NO_POS
  | Some l =>
      if forallb (fun m => negb (Js.truthy_str (s_pos m))) l
      then Some NO_POS
      else None
  end.

(** [addFoundWordOrNonWord]: the tokens it pushes and the number it
    returns. *)
Definition addFoundWordOrNonWord (pp : ChunkFramework.t) (cIdx : Z)
    (matchData : matchMap) (syls : list Z) (hasDecremented : bool)
    : Js.outcome (list Token.t * Z) :=
  match match_get matchData cIdx with
  | Some data =>
      tk <- chunksToToken pp syls data (ttype_of data) ;;
      Js.Ret ([tk], cIdx)
  | None =>
      match matchData with
      | _ :: _ =>
          let nonMaxIdx := match_max matchData in
          let nonMaxSyls := filter (fun syl => syl <=? nonMaxIdx) syls in
          match match_get matchData nonMaxIdx with
          | Some data =>
              tk <- chunksToToken pp nonMaxSyls data (ttype_of data) ;;
              Js.Ret ([tk], nonMaxIdx)
          | None => Js.Throw "TypeError: cannot read properties of undefined"
          end
      | [] =>
          match syls with
          | [] => Js.Throw "TypeError: cannot read properties of undefined"
          | s0 :: rest =>
              tk <- chunksToToken pp [s0] noData (Some NO_POS) ;;
              let cIdx :=
                if 1 <? Js.len syls then cIdx - (Js.len rest - 1) else cIdx in
              if hasDecremented then Js.Ret ([tk], cIdx - 1)
              else if cIdx <? Js.len (ChunkFramework.chunks pp) then
                e <- chunkAt pp cIdx ;;
                match fst e with
                | None => Js.Ret ([tk], cIdx - 1)
                | Some _ =>
                    if 1 <? Js.len syls then Js.Ret ([tk], cIdx - 1)
                    else Js.Ret ([tk], cIdx)
                end
              else if 1 <? Js.len syls then Js.Ret ([tk], cIdx - 1)
              else Js.Ret ([tk], cIdx)
          end
      end
  end.

(** The [if (foundMaxMatch)] block that ends an iteration of the inner
    loop. *)
Definition commitMaxMatch (pp : ChunkFramework.t) (cIdx : Z)
    (matchData : matchMap) (maxMatch : list (list Z))
    : Js.outcome (list Token.t * Z) :=
  match rev maxMatch with
  | [] => Js.Throw "TypeError: cannot read properties of undefined"
  | longest :: _ =>
      r <- addFoundWordOrNonWord pp (cIdx + Js.len longest - 1) matchData
             longest false ;;
      Js.Ret (fst r, cIdx + Js.len longest)
  end.

(** What the two branches "can't continue walking" and "non-syllable
    chunk" do; the source repeats the same statements in both. *)
Definition stopWalking (pp : ChunkFramework.t) (cIdx walker : Z)
    (matchData : matchMap) (syls : list Z) (maxMatch : list (list Z))
    : Js.outcome (list Token.t * Z) :=
  match maxMatch with
  | _ :: _ => commitMaxMatch pp cIdx matchData maxMatch
  | [] =>
      match syls with
      | _ :: _ =>
          r <- addFoundWordOrNonWord pp walker matchData syls false ;;
          Js.Ret (fst r, if Js.len syls =? 1 then cIdx + 1 else cIdx)
      | [] =>
          tk <- chunksToToken pp [cIdx] noData None ;;
          Js.Ret ([tk], cIdx + 1)
      end
  end.

(** [curSyl.map(i => this.preProcessed!.text[i]).join('')]: the string
    handed to [trie.walk]. *)
Definition sylOf (pp : ChunkFramework.t) (curSyl : list Z) : jstring :=
  flat_map (Js.at_or_empty (ChunkFramework.text pp)) curSyl.

(** The inner [while (true)] loop, from one value of [walker] to the
    [break]: the tokens pushed and the value [cIdx] has at the [break]. *)
Fixpoint walk_loop (self : t) (pp : ChunkFramework.t) (budget : nat)
    (cIdx walker : Z) (syls : list Z) (maxMatch : list (list Z))
    (matchData : matchMap) (currentNode : option BasicTrie.TrieNode)
    : Js.outcome (list Token.t * Z) :=
  match budget with
  | O => Js.Diverge
  | S budget' =>
      let chunks := ChunkFramework.chunks pp in
      match Js.idx chunks walker with
      | Some (Some curSyl, _) =>
          let syl := sylOf pp curSyl in
          match BasicTrie.walk (trie self) syl currentNode with
          | Some node =>
              let syls := syls ++ [walker] in
              if BasicTrie.isMatch node then
                let matchData := match_set matchData walker (BasicTrie.data node) in
                let maxMatch := maxMatch ++ [syls] in
                if walker + 1 =? Js.len chunks
                then commitMaxMatch pp cIdx matchData maxMatch
                else walk_loop self pp budget' cIdx (walker + 1) syls maxMatch
                       matchData (Some node)
              else if walker + 1 =? Js.len chunks then
                match maxMatch with
                | _ :: _ => commitMaxMatch pp cIdx matchData maxMatch
                | [] =>
                    r <- addFoundWordOrNonWord pp walker matchData syls false ;;
                    Js.Ret (fst r, cIdx + Js.len syls)
                end
              else walk_loop self pp budget' cIdx (walker + 1) syls maxMatch
                     matchData (Some node)
          | None => stopWalking pp cIdx walker matchData syls maxMatch
          end
      | _ => stopWalking pp cIdx walker matchData syls maxMatch
      end
  end.

(** The outer [while (cIdx < chunks.length)] loop. *)
Fixpoint tokenize_loop (self : t) (pp : ChunkFramework.t) (budget fuel : nat)
    (cIdx : Z) (tokens : list Token.t) : Js.outcome (list Token.t) :=
  match fuel with
  | O => Js.Diverge
  | S fuel' =>
      if cIdx <? Js.len (ChunkFramework.chunks pp) then
        r <- walk_loop self pp budget cIdx cIdx [] [] [] None ;;
        tokenize_loop self pp budget fuel' (snd r) (tokens ++ fst r)
      else Js.Ret tokens
  end.

(** [tokenize]; [budget] bounds the iterations of each of the two loops. *)
Definition tokenize (self : t) (preProcessed : ChunkFramework.t)
    (budget : nat) : Js.outcome (list Token.t) :=
  tokenize_loop self preProcessed budget budget 0 [].

End Tokenize.

(** ** config/Config.ts *)

Module Config.

Record t : Type := mk {
  profile : jstring;
  dialectPackPath : jstring;
  dictionary : list (jstring * list jstring);
  adjustments : list (jstring * list jstring)
}.

(** The constructor, with its default parameter values. *)
Definition make (profile : option jstring) (dialectPackPath : option jstring)
    (dictionary adjustments : option (list (jstring * list jstring))) : t :=
  {| profile := match profile with Some p => p | None => Js.lit "general" end;
     dialectPackPath :=
       match dialectPackPath with
       | Some (c :: p) => c :: p
       | _ => Js.lit "./resources"
       end;
     dictionary := match dictionary with Some d => d | None => [] end;
     adjustments := match adjustments with Some a => a | None => [] end |}.

End Config.

(** ** tokenizers/WordTokenizer.ts *)

Module WordTokenizer.

Record t : Type := mk {
  config : Config.t;
  tokenizer : Tokenize.t;
  ignoreChars : list jstring;
  partLemmas : list (jstring * jstring)
}.

Definition getPartLemmas : list (jstring * jstring) :=
  [ ([0x0F60; 0x0F72], [0x0F42; 0x0FB1; 0x0F72]);
    ([0x0F66], [0x0F42; 0x0FB1; 0x0F72; 0x0F66]);
    ([0x0F60; 0x0F44], [0x0F61; 0x0F44]);
    ([0x0F42], [0x0F60; 0x0F55; 0x0FB2; 0x0F44]);
    ([0x0F42; 0x0F72], [0x0F42; 0x0FB1; 0x0F72]);
    ([0x0F42; 0x0F72; 0x0F66], [0x0F42; 0x0FB1; 0x0F72; 0x0F66]);
    ([0x0F40; 0x0FB1; 0x0F72], [0x0F42; 0x0FB1; 0x0F72]);
    ([0x0F40; 0x0FB1; 0x0F72; 0x0F66], [0x0F42; 0x0FB1; 0x0F72; 0x0F66]);
    ([0x0F63], [0x0F63]);
    ([0x0F62], [0x0F62]);
    ([0x0F62; 0x0F74], [0x0F62; 0x0F74]);
    ([0x0F53], [0x0F53]);
    ([0x0F53; 0x0F66], [0x0F53; 0x0F66]);
    ([0x0F60; 0x0F58], [0x0F60; 0x0F58]);
    ([0x0F61; 0x0F44], [0x0F61; 0x0F44]);
    ([0x0F58], [0x0F58]) ].

(** [new Set(array)] keeps the first occurrence of every element. *)
Fixpoint set_of (seen l : list jstring) : list jstring :=
  match l with
  | [] => []
  | x :: l' =>
      if existsb (Js.eqb x) seen then set_of seen l'
      else x :: set_of (x :: seen) l'
  end.

(** The constructor: the engine gets a new, empty [BasicTrie]. *)
Definition make (config : option Config.t) (ignoreChars : option (list jstring))
    : t :=
  {| config := match config with
               | Some c => c
               | None => Config.make None None None None
               end;
     ignoreChars := set_of [] (match ignoreChars with Some l => l | None => [] end);
     tokenizer := {| Tokenize.trie := BasicTrie.make |};
     partLemmas := getPartLemmas |}.

(** The array literal of [hasAffix]. *)
Definition affixes : list jstring :=
  [ [0x0F60; 0x0F72]; [0x0F66]; [0x0F60; 0x0F44]; [0x0F42]; [0x0F42; 0x0F72];
    [0x0F42; 0x0F72; 0x0F66]; [0x0F40; 0x0FB1; 0x0F72];
    [0x0F40; 0x0FB1; 0x0F72; 0x0F66]; [0x0F63]; [0x0F62]; [0x0F62; 0x0F74];
    [0x0F53]; [0x0F53; 0x0F66]; [0x0F60; 0x0F58]; [0x0F61; 0x0F44]; [0x0F58] ].

Definition hasAffix (token : Token.t) : bool :=
  match Token.text token with
  | [] => false
  | text =>
      if negb (Js.eqb (Token.chunkType token) (Js.lit "TEXT")) then false
      else existsb (fun affix => Js.endsWith text (affix ++ [0x0F0B]) ||
                                 Js.endsWith text affix) affixes
  end.

Definition splitTokenAffix (token : Token.t) : list Token.t :=
  if negb (hasAffix token) then [token]
  else [token].

Definition splitAffixed (tokens : list Token.t) : list Token.t :=
  flat_map (fun token => if hasAffix token then splitTokenAffix token
                         else [token]) tokens.

Fixpoint lookup (m : list (jstring * jstring)) (k : jstring) : option jstring :=
  match m with
  | [] => None
  | (k', v) :: m' => if Js.eqb k' k then Some v else lookup m' k
  end.

Definition set_lemma_of_sense (lemma : jstring) (m : SenseInfo) : SenseInfo :=
  set_lemma lemma m.

(** The body of the loop of [getDefaultLemma]. *)
Definition defaultLemma (self : t) (token : Token.t) : Token.t :=
  match Token.textUnaffixed token with
  | Some (c :: u) =>
      let textUnaffixed := c :: u in
      let isAffix := Js.truthy_bool (Token.affix token) in
      let isHost := Js.truthy_bool (Token.affixHost token) in
      let lemma :=
        if isAffix && negb isHost then
          let part :=
            match Token.syls_joined token with
            | Some syls => List.concat syls
            | None => Token.text token
            end in
          match lookup (partLemmas self) part with
          | Some (c' :: l) => (c' :: l) ++ TSEK_STR
          | _ => part ++ TSEK_STR
          end
        else if negb isAffix && isHost then
          let withAa :=
            match Token.affixation token with
            | Some a => if a_aa a then textUnaffixed ++ AA_STR else textUnaffixed
            | None => textUnaffixed
            end in
          withAa ++ TSEK_STR
        else if Js.endsWith textUnaffixed TSEK_STR then textUnaffixed
             else textUnaffixed ++ TSEK_STR in
      let senses :=
        match Token.senses token with
        | Some l =>
            Some (map (fun m =>
                         if negb (Js.truthy_str (s_lemma m)) &&
                            Js.truthy_str (s_pos m) &&
                            negb (Js.opt_str_is (s_pos m) (Js.lit "NON_WORD"))
                         then set_lemma_of_sense lemma m else m) l)
        | None => None
        end in
      let senses :=
        match senses with
        | Some (m :: l) => Some (m :: l)
        | _ => Some [mkSense None None (Some lemma) None None]
        end in
      Token.set_senses senses token
  | _ => token
  end.

Definition getDefaultLemma (self : t) (tokens : list Token.t) : list Token.t :=
  map (defaultLemma self) tokens.

(** [Object.keys(sense).length]: every own key of the object counts,
    whatever its value and whether or not the interface declares it. *)
Definition keyCount (m : SenseInfo) : nat := List.length (keys_of m).

(** [senses.sort((a, b) => Object.keys(b).length - Object.keys(a).length)]:
    the sort is stable, and the one stable arrangement is the one that
    insertion from the right builds. *)
Fixpoint sort_insert (a : SenseInfo) (sorted : list SenseInfo) : list SenseInfo :=
  match sorted with
  | [] => [a]
  | b :: rest =>
      if (keyCount a <? keyCount b)%nat then b :: sort_insert a rest
      else a :: b :: rest
  end.

Definition sortByKeys (senses : list SenseInfo) : list SenseInfo :=
  fold_right sort_insert [] senses.

(** [chooseBestSense]; [None] is the [undefined] an empty array gives. *)
Definition chooseBestSense (senses : list SenseInfo) : option SenseInfo :=
  hd_error (sortByKeys senses).

Definition applyChosenSense (token : Token.t) (m : SenseInfo) : Token.t :=
  {| Token.text := Token.text token;
     Token.textCleaned := Token.textCleaned token;
     Token.textUnaffixed := Token.textUnaffixed token;
     Token.pos := Js.assign (k_pos m) (Token.pos token);
     Token.lemma := Js.assign (k_lemma m) (Token.lemma token);
     Token.freq := Js.assign (k_freq m) (Token.freq token);
     Token.start := Token.start token;
     Token.length := Token.length token;
     Token.charTypes := Token.charTypes token;
     Token.chunkType := Token.chunkType token;
     Token.syllables := Token.syllables token;
     Token.syllableIndices := Token.syllableIndices token;
     Token.syllableStartEnd := Token.syllableStartEnd token;
     Token.senses := Token.senses token;
     Token.sanskrit := Token.sanskrit token;
     Token.affix := Token.affix token;
     Token.affixHost := Token.affixHost token;
     Token.affixation := Token.affixation token;
     Token.sense := Js.assign (k_sense m) (Token.sense token);
     Token.underscore := Token.underscore token;
     Token.formFreq := Token.formFreq token;
     Token.version := Token.version token |}.

(** The three arrays filled by the inner loop of [chooseDefaultEntry]:
    [affixed] takes a sense with ['affixed' in sense] and a truthy
    [sense.affixed], [nonAffixed] a sense that has the key with any other
    value, [noAffixInfo] a sense without the key. *)
Definition affixedOf (senses : list SenseInfo) : list SenseInfo :=
  filter (fun m => Js.has (k_affixed m) && Js.truthy_bool (s_affixed m)) senses.

Definition nonAffixedOf (senses : list SenseInfo) : list SenseInfo :=
  filter (fun m => Js.has (k_affixed m) && negb (Js.truthy_bool (s_affixed m)))
         senses.

Definition noAffixInfoOf (senses : list SenseInfo) : list SenseInfo :=
  filter (fun m => negb (Js.has (k_affixed m))) senses.

(** The body of the loop of [chooseDefaultEntry]. *)
Definition defaultEntry (token : Token.t) : Token.t :=
  match Token.senses token with
  | Some (m :: l) =>
      let senses := m :: l in
      let chosenSense :=
        match nonAffixedOf senses with
        | _ :: _ => chooseBestSense (nonAffixedOf senses)
        | [] =>
            match noAffixInfoOf senses with
            | _ :: _ => chooseBestSense (noAffixInfoOf senses)
            | [] =>
                match affixedOf senses with
                | _ :: _ => chooseBestSense (affixedOf senses)
                | [] => None
                end
            end
        end in
      match chosenSense with
      | Some chosen => applyChosenSense token chosen
      | None => token
      end
  | _ => token
  end.

Definition chooseDefaultEntry (tokens : list Token.t) : list Token.t :=
  map defaultEntry tokens.

(** [tokenize]; [budget] is the loop budget handed to the engine. *)
Definition tokenize (self : t) (text : jstring) (splitAffixes spacesAsPunct : bool)
    (budget : nat) : Js.outcome (list Token.t) :=
  let preprocessed :=
    ChunkFramework.serveSylsToTrie
      (ChunkFramework.make text (ignoreChars self) spacesAsPunct) in
  tokens <- Tokenize.tokenize (tokenizer self) preprocessed budget ;;
  let tokens := if splitAffixes then splitAffixed tokens else tokens in
  let tokens := getDefaultLemma self tokens in
  let tokens := chooseDefaultEntry tokens in
  Js.Ret tokens.

End WordTokenizer.

(** ** Inputs of the worked examples *)

Module Examples.

(** The greeting of scenario S1: U+0F56 U+0F40 U+0FB2 U+0F0B U+0F64 U+0F72
    U+0F66 U+0F0D. *)
Definition greeting : jstring :=
  [0x0F56; 0x0F40; 0x0FB2; 0x0F0B; 0x0F64; 0x0F72; 0x0F66; 0x0F0D].

(** The same two syllables, each closed by a tsek (the text of the
    [syllabify] test). *)
Definition twoSyllables : jstring :=
  [0x0F56; 0x0F40; 0x0FB2; 0x0F0B; 0x0F64; 0x0F72; 0x0F66; 0x0F0B].

(** The syllable U+0F40 with its tsek, then the Latin letter A. *)
Definition mixed : jstring := [0x0F40; 0x0F0B; 0x41].

(** Three one-letter syllables, each closed by a tsek. *)
Definition threeSyllables : jstring :=
  [0x0F40; 0x0F0B; 0x0F41; 0x0F0B; 0x0F42; 0x0F0B].

(** One syllable, U+0F63 U+0F66, which ends in the affix U+0F66. *)
Definition affixedWord : jstring := [0x0F63; 0x0F66].

(** [new WordTokenizer()]. *)
Definition wordTokenizer : WordTokenizer.t := WordTokenizer.make None None.

(** [new ChunkFramework(text)] after [serveSylsToTrie()]. *)
Definition served (text : jstring) : ChunkFramework.t :=
  ChunkFramework.serveSylsToTrie (ChunkFramework.make text [] false).

(** A trie with one entry of three syllables, added without data.  Its
    first two keys are the strings the engine walks for the first two
    entries of [threeSyllables]; the third is not the string it walks for
    the third entry. *)
Definition longWordTrie : BasicTrie.t :=
  BasicTrie.add BasicTrie.make
    (BasicTrie.Arr [[0x0F40; 0x0F41]; [0x0F41; 0x0F41]; [0x0F44]]) None.

(** A trie holding the two-syllable word [a b]: the node of [a] is on the
    path and is not a leaf. *)
Definition twoLevelTrie : BasicTrie.t :=
  BasicTrie.add BasicTrie.make (BasicTrie.Arr [Js.lit "a"; Js.lit "b"]) None.

(** A trie holding the one-syllable word U+0F56 U+0F40 U+0FB2, the first
    syllable of [greeting], with the sense [{pos: 'NOUN'}]. *)
Definition nounTrie : BasicTrie.t :=
  BasicTrie.add BasicTrie.make (BasicTrie.Arr [[0x0F56; 0x0F40; 0x0FB2]])
    (Some {| BasicTrie.e_pos := Js.Value (Js.lit "NOUN");
             BasicTrie.e_freq := Js.Absent; BasicTrie.e_lemma := Js.Absent;
             BasicTrie.e_sense := Js.Absent; BasicTrie.e_affixed := Js.Absent;
             BasicTrie.e_senses := Js.Absent; BasicTrie.e_underscore := Js.Absent;
             BasicTrie.e_formFreq := Js.Absent; BasicTrie.e_affixation := Js.Absent;
             BasicTrie.e_sanskrit := Js.Absent; BasicTrie.e_version := Js.Absent;
             BasicTrie.e_others := [] |}).

(** The data [{pos: 'A', lemma: undefined, freq: undefined,
    affixed: false}]: four keys, two of them with a value. *)
Definition keyHeavyData : BasicTrie.AddData :=
  {| BasicTrie.e_pos := Js.Value (Js.lit "A");
     BasicTrie.e_freq := Js.Undefined; BasicTrie.e_lemma := Js.Undefined;
     BasicTrie.e_sense := Js.Absent; BasicTrie.e_affixed := Js.Value false;
     BasicTrie.e_senses := Js.Absent; BasicTrie.e_underscore := Js.Absent;
     BasicTrie.e_formFreq := Js.Absent; BasicTrie.e_affixation := Js.Absent;
     BasicTrie.e_sanskrit := Js.Absent; BasicTrie.e_version := Js.Absent;
     BasicTrie.e_others := [] |}.

(** The data [{pos: 'B', lemma: 'L', affixed: false}]: three keys, all of
    them with a value. *)
Definition populatedData : BasicTrie.AddData :=
  {| BasicTrie.e_pos := Js.Value (Js.lit "B");
     BasicTrie.e_freq := Js.Absent; BasicTrie.e_lemma := Js.Value (Js.lit "L");
     BasicTrie.e_sense := Js.Absent; BasicTrie.e_affixed := Js.Value false;
     BasicTrie.e_senses := Js.Absent; BasicTrie.e_underscore := Js.Absent;
     BasicTrie.e_formFreq := Js.Absent; BasicTrie.e_affixation := Js.Absent;
     BasicTrie.e_sanskrit := Js.Absent; BasicTrie.e_version := Js.Absent;
     BasicTrie.e_others := [] |}.

(** The trie after [add('a', keyHeavyData)] and [add('a', populatedData)]:
    the word has the two data objects as its senses. *)
Definition twoSenseTrie : BasicTrie.t :=
  BasicTrie.add
    (BasicTrie.add BasicTrie.make (BasicTrie.Str (Js.lit "a")) (Some keyHeavyData))
    (BasicTrie.Str (Js.lit "a")) (Some populatedData).

Definition twoSenses : list SenseInfo :=
  [BasicTrie.asSense keyHeavyData; BasicTrie.asSense populatedData].

(** The data [{pos: 'N', senses: undefined}]. *)
Definition sensesUndefinedData : BasicTrie.AddData :=
  {| BasicTrie.e_pos := Js.Value (Js.lit "N");
     BasicTrie.e_freq := Js.Absent; BasicTrie.e_lemma := Js.Absent;
     BasicTrie.e_sense := Js.Absent; BasicTrie.e_affixed := Js.Absent;
     BasicTrie.e_senses := Js.Undefined; BasicTrie.e_underscore := Js.Absent;
     BasicTrie.e_formFreq := Js.Absent; BasicTrie.e_affixation := Js.Absent;
     BasicTrie.e_sanskrit := Js.Absent; BasicTrie.e_version := Js.Absent;
     BasicTrie.e_others := [] |}.

(** A token as [createToken] leaves it: [sanskrit] is present and false. *)
Definition plainToken : Token.t :=
  {| Token.text := [0x0F40]; Token.textCleaned := None;
     Token.textUnaffixed := None; Token.pos := None; Token.lemma := None;
     Token.freq := None; Token.start := 0; Token.length := 1;
     Token.charTypes := Some [OTHER]; Token.chunkType := Js.lit "TEXT";
     Token.syllables := None; Token.syllableIndices := Some [[100; 0; 1]];
     Token.syllableStartEnd := Some [(0, 1)]; Token.senses := None;
     Token.sanskrit := Some false; Token.affix := None;
     Token.affixHost := None; Token.affixation := None; Token.sense := None;
     Token.underscore := None; Token.formFreq := None; Token.version := None |}.

(** A token whose optional fields are all absent or truthy. *)
Definition nounToken : Token.t :=
  {| Token.text := [0x0F40]; Token.textCleaned := None;
     Token.textUnaffixed := None; Token.pos := Some (Js.lit "NOUN");
     Token.lemma := None; Token.freq := Some 0; Token.start := 0;
     Token.length := 1; Token.charTypes := Some [OTHER];
     Token.chunkType := Js.lit "TEXT"; Token.syllables := None;
     Token.syllableIndices := None; Token.syllableStartEnd := None;
     Token.senses := Some [mkSense (Some (Js.lit "NOUN")) (Some 100) None None None];
     Token.sanskrit := Some true; Token.affix := None;
     Token.affixHost := None; Token.affixation := None; Token.sense := None;
     Token.underscore := None; Token.formFreq := None; Token.version := None |}.

End Examples.

(** ** Statements of the specification that are compared with the code *)

Module Spec.

(** An optional string or boolean that is present and falsy. *)
Definition falsy_str (o : option jstring) : bool :=
  match o with
  | Some [] => true
  | _ => false
  end.

Definition falsy_bool (o : option bool) : bool :=
  match o with
  | Some false => true
  | _ => false
  end.

(** What a guarded field of [toJSON] comes back as: a present falsy value
    is absent afterwards. *)
Definition withoutFalsy_str (o : option jstring) : option jstring :=
  if falsy_str o then None else o.

Definition withoutFalsy_bool (o : option bool) : option bool :=
  if falsy_bool o then None else o.

(** A token that [toJSON] serialises whole: no optional field that is
    present and falsy, and no property outside the declared fields. *)
Definition serialisedWhole (tk : Token.t) : bool :=
  negb (falsy_str (Token.textCleaned tk)) &&
  negb (falsy_str (Token.textUnaffixed tk)) &&
  negb (falsy_str (Token.pos tk)) &&
  negb (falsy_str (Token.lemma tk)) &&
  negb (falsy_bool (Token.sanskrit tk)) &&
  negb (falsy_bool (Token.affix tk)) &&
  negb (falsy_bool (Token.affixHost tk)) &&
  match Token.sense tk, Token.underscore tk, Token.formFreq tk, Token.version tk with
  | None, None, None, None => true
  | _, _, _, _ => false
  end.

(** Scenario S1: three tokens, [Text] U+0F56 U+0F40 U+0FB2 with [NO_POS],
    [Text] U+0F64 U+0F72 U+0F66 with [NO_POS], [Punct] U+0F0D. *)
Definition S1_expected (out : Js.outcome (list Token.t)) : Prop :=
  exists t1 t2 t3,
    out = Js.Ret [t1; t2; t3] /\
    Token.chunkType t1 = Js.lit "TEXT" /\
    Token.text t1 = [0x0F56; 0x0F40; 0x0FB2] /\
    Token.pos t1 = Some (Js.lit "NO_POS") /\
    Token.chunkType t2 = Js.lit "TEXT" /\
    Token.text t2 = [0x0F64; 0x0F72; 0x0F66] /\
    Token.pos t2 = Some (Js.lit "NO_POS") /\
    Token.chunkType t3 = Js.lit "PUNCT" /\
    Token.text t3 = [0x0F0D].

(** The priority of a sense in sense selection, by its [affixed] key:
    explicitly non-affixed first, then unspecified, then explicitly affixed.
    A sense that has the key without the value [true] is explicit and not
    affixed. *)
Definition priority (m : SenseInfo) : nat :=
  match k_affixed m with
  | Js.Value true => 2
  | Js.Absent => 1
  | _ => 0
  end.

(** The first non-empty bucket: the senses of the best priority that
    occurs in the list, in the order of the list. *)
Definition firstBucket (senses : list SenseInfo) : list SenseInfo :=
  filter (fun m => forallb (fun m' => (priority m <=? priority m')%nat) senses)
         senses.

Definition populated_one {A : Type} (o : option A) : nat :=
  match o with
  | Some _ => 1
  | None => 0
  end.

(** The number of populated attributes of a sense: those of [pos],
    [lemma], [freq], [sense_label] and [affixed] that have a value. *)
Definition populated (m : SenseInfo) : nat :=
  (populated_one (s_pos m) + populated_one (s_lemma m) +
   populated_one (s_freq m) + populated_one (s_sense m) +
   populated_one (s_affixed m))%nat.

(** The sense that the specification selects: one of the first non-empty
    bucket that has the largest number of populated attributes there. *)
Definition mostPopulated (senses : list SenseInfo) (chosen : SenseInfo) : Prop :=
  In chosen (firstBucket senses) /\
  forall m, In m (firstBucket senses) -> (populated m <= populated chosen)%nat.

Definition present_one {A : Type} (p : Js.property A) : nat :=
  match p with
  | Js.Absent => 0
  | _ => 1
  end.

(** The number of own keys of a sense object: each of the five keys it
    holds, with a value or with [undefined], and each key it holds beyond
    them. *)
Definition ownKeys (m : SenseInfo) : nat :=
  (present_one (k_pos m) + present_one (k_freq m) + present_one (k_lemma m) +
   present_one (k_sense m) + present_one (k_affixed m) +
   List.length (k_others m))%nat.

(** The first of the senses of a bucket that have the largest number of own
    keys: the senses before it have fewer keys and no sense after it has
    more. *)
Definition firstWithMostKeys (bucket : list SenseInfo) (chosen : SenseInfo)
    : Prop :=
  exists before after,
    bucket = before ++ chosen :: after /\
    (forall m, In m before -> (ownKeys m < ownKeys chosen)%nat) /\
    (forall m, In m after -> (ownKeys m <= ownKeys chosen)%nat).

(** A sense object that holds exactly its populated attributes: no key with
    the value [undefined] and no key beyond the five. *)
Definition plain (m : SenseInfo) : Prop :=
  k_pos m <> Js.Undefined /\ k_freq m <> Js.Undefined /\
  k_lemma m <> Js.Undefined /\ k_sense m <> Js.Undefined /\
  k_affixed m <> Js.Undefined /\ k_others m = [].

(** Copying an attribute of the chosen sense onto the token: a key the
    sense does not have leaves the token's value, a key it has is copied
    with the value it holds. *)
Definition copied {A : Type} (fromSense : Js.property A) (onToken : option A)
    : option A :=
  match fromSense with
  | Js.Absent => onToken
  | Js.Undefined => None
  | Js.Value v => Some v
  end.

End Spec.

(** ** Auxiliary definitions of the proofs *)

Module Aux.

(** The token that [chunksToToken([i], {})] makes of the entry at [i]. *)
Definition standalone (pp : ChunkFramework.t) (e : ChunkFramework.entry) : Token.t :=
  Tokenize.createToken pp (fst (fst (snd e)))
    (Tokenize.field_or_zero (fst e) 1) (Tokenize.field_or_zero (fst e) 2)
    [fst e]
    [(Tokenize.field_or_zero (fst e) 1,
      Tokenize.field_or_zero (fst e) 1 + Tokenize.field_or_zero (fst e) 2)]
    Tokenize.noData.

(** The runs that [chunk] returns: they follow each other from [a] to [b],
    none is empty, the test is constant on each, and each ends where the
    range ends or where the test changes. *)
Inductive Runs (test : Z -> bool) : Z -> Z -> list (bool * Z * Z) -> Prop :=
| Runs_nil : forall a, Runs test a a []
| Runs_cons : forall a len c b l,
    0 < len ->
    (forall p, a <= p < a + len -> test p = c) ->
    (a + len = b \/ test (a + len) = negb c) ->
    Runs test (a + len) b l ->
    Runs test a b ((c, a, len) :: l).

(** The invariant of the loop of [chunk] when the loop variable is [i]. *)
Definition chunkInv (test : Z -> bool) (start i : Z)
    (st : list (bool * Z * Z) * Z * option bool) : Prop :=
  let '(result, currentStart, currentMatches) := st in
  match currentMatches with
  | None => result = [] /\ i = start
  | Some c =>
      start <= currentStart < i /\
      Runs test start currentStart result /\
      (forall p, currentStart <= p < i -> test p = c) /\
      (currentStart = start \/ test (currentStart - 1) = negb c)
  end.

(** The array that the merging loop of [syllabify] leaves, told from its
    first element on: an element takes up the length of its successor when
    the successor is a separator run and the element is not. *)
Fixpoint absorb (prev : bool * Z * Z) (rest : list (bool * Z * Z))
    : list (bool * Z * Z) :=
  match rest with
  | [] => [prev]
  | x :: rest' =>
      (let '(pb, ps, pl) := prev in
       let '(b, _, l) := x in
       if b && negb pb then (pb, ps, pl + l) else prev) :: absorb x rest'
  end.

(** The two steps that end [syllabify]: drop the separator runs, relabel. *)
Definition syllablesOf (yesValue : ChunkMarkers.t) (indices : list (bool * Z * Z))
    : list ChunkFramework.triple :=
  map (fun ch : bool * Z * Z => let '(_, s, l) := ch in (yesValue, s, l))
      (filter (fun ch : bool * Z * Z => let '(b, _, _) := ch in negb b) indices).

(** A syllable span [s, s + l) of the range [start, end_): it begins at the
    start of the range or right after a separator, with a non-empty run of
    codepoints that are not separators, goes on through the run of
    separators that follows, and ends where the range ends or where the next
    codepoint is not a separator. *)
Definition SyllableSpan (test : Z -> bool) (start end_ s l : Z) : Prop :=
  start <= s /\ 0 < l /\ s + l <= end_ /\
  (s = start \/ test (s - 1) = true) /\
  (s + l = end_ \/ test (s + l) = false) /\
  exists k, 0 < k <= l /\
            (forall p, s <= p < s + k -> test p = false) /\
            (forall p, s + k <= p < s + l -> test p = true).

(** The engine that the constructor of [WordTokenizer] builds. *)
Definition emptyEngine : Tokenize.t := {| Tokenize.trie := BasicTrie.make |}.

(** A token that carries neither senses nor an unaffixed form. *)
Definition bare (tk : Token.t) : Prop :=
  Token.senses tk = None /\ Token.textUnaffixed tk = None.

(** The chain of [walk] calls that the engine makes for the syllables of a
    word: each call gets the node the call before returned, and the chain
    stops at the first [null]. *)
Fixpoint walkFrom (tr : BasicTrie.t) (currentNode : option BasicTrie.TrieNode)
    (syllables : list jstring) : option BasicTrie.TrieNode :=
  match syllables with
  | [] => currentNode
  | syl :: rest =>
      match BasicTrie.walk tr syl currentNode with
      | Some node => walkFrom tr (Some node) rest
      | None => None
      end
  end.

(** Chunks that tile the range from [a] to [b]: each starts where the one
    before ends, none is empty, the first starts at [a] and the last ends at
    [b]. *)
Inductive Tiling : Z -> Z -> list ChunkFramework.triple -> Prop :=
| Tiling_nil : forall a, Tiling a a []
| Tiling_cons : forall a len m b l,
    0 < len -> Tiling (a + len) b l -> Tiling a b ((m, a, len) :: l).

(** The labelled runs that [chunkUsing] returns: a tiling in which [label]
    is constant on every chunk and is the chunk's label, and in which a chunk
    ends where the range ends or where [label] changes. *)
Inductive LRuns (label : Z -> ChunkMarkers.t)
    : Z -> Z -> list ChunkFramework.triple -> Prop :=
| LRuns_nil : forall a, LRuns label a a []
| LRuns_cons : forall a len c b l,
    0 < len ->
    (forall p, a <= p < a + len -> label p = c) ->
    (a + len = b \/ label (a + len) <> c) ->
    LRuns label (a + len) b l ->
    LRuns label a b ((c, a, len) :: l).

(** The invariant of the loop of [chunkUsing] when the loop variable is [i]. *)
Definition chunkUsingInv (label : Z -> ChunkMarkers.t) (start i : Z)
    (st : list ChunkFramework.triple * Z * option ChunkMarkers.t) : Prop :=
  let '(chunks, currentStart, currentType) := st in
  match currentType with
  | None => chunks = [] /\ i = start
  | Some c =>
      start <= currentStart < i /\
      LRuns label start currentStart chunks /\
      (forall p, currentStart <= p < i -> label p = c) /\
      (currentStart = start \/ label (currentStart - 1) <> c)
  end.

(** Neighbouring chunks carry different labels. *)
Fixpoint adjacentDiffer (l : list ChunkFramework.triple) : Prop :=
  match l with
  | (m, _, _) :: (((m', _, _) :: _) as rest) => m <> m' /\ adjacentDiffer rest
  | _ => True
  end.

(** The sum of the lengths of the chunks. *)
Definition totalLength (l : list ChunkFramework.triple) : Z :=
  fold_right (fun ch acc => snd ch + acc) 0 l.

(** The indices [a], [a + 1], ..., [a + n - 1]. *)
Definition zrange (a : Z) (n : nat) : list Z :=
  map (fun i => a + Z.of_nat i) (seq 0 n).

(** Every syllable array of the chunk frame holds the three numbers that
    [chunksToToken] reads from it. *)
Definition wellFormed (pp : ChunkFramework.t) : Prop :=
  Forall (fun e : ChunkFramework.entry =>
            match fst e with
            | Some l => exists a s len, l = [a; s; len]
            | None => True
            end)
         (ChunkFramework.chunks pp).

(** Two steps down from the head pass a word end: a child of a first-level
    node that is no leaf is a leaf. *)
Definition twoStepMatch (tr : BasicTrie.t) : Prop :=
  forall k1 k2 n1 n2,
    BasicTrie.getChild (BasicTrie.head tr) k1 = Some n1 ->
    BasicTrie.leaf n1 = false ->
    BasicTrie.getChild n1 k2 = Some n2 ->
    BasicTrie.leaf n2 = true.

(** The invariant of the inner loop of [Tokenize.tokenize] at the top of
    an iteration: [syls] holds the walked indices from [cIdx] up to
    [walker], and the last element of [maxMatch], when there is one, is a
    prefix of them whose last index is a key of [matchData]. *)
Definition walkInv (tr : BasicTrie.t) (pp : ChunkFramework.t) (cIdx walker : Z)
    (syls : list Z) (maxMatch : list (list Z)) (matchData : Tokenize.matchMap)
    (currentNode : option BasicTrie.TrieNode) : Prop :=
  0 <= cIdx /\ cIdx <= walker /\ walker < Js.len (ChunkFramework.chunks pp) /\
  syls = zrange cIdx (Z.to_nat (walker - cIdx)) /\
  match rev maxMatch with
  | [] =>
      matchData = [] /\
      (twoStepMatch tr ->
       (syls = [] /\ currentNode = None) \/
       (syls = [cIdx] /\
        exists k1 n1, currentNode = Some n1 /\
                      BasicTrie.getChild (BasicTrie.head tr) k1 = Some n1 /\
                      BasicTrie.leaf n1 = false))
  | longest :: _ =>
      exists n, (1 <= n)%nat /\ Z.of_nat n <= walker - cIdx /\
                longest = zrange cIdx n /\
                Tokenize.match_get matchData (cIdx + Z.of_nat n - 1) <> None
  end.

(** What an iteration of the outer loop leaves: one pushed token and a
    cursor that has not moved back. *)
Definition walkPost (tr : BasicTrie.t) (pp : ChunkFramework.t) (budget : nat)
    (cIdx walker : Z) (o : Js.outcome (list Token.t * Z)) : Prop :=
  match o with
  | Js.Ret (toks, c') =>
      (exists tk, toks = [tk]) /\
      cIdx <= c' <= Js.len (ChunkFramework.chunks pp) /\
      (twoStepMatch tr -> cIdx < c')
  | Js.Throw _ => False
  | Js.Diverge =>
      (budget < Z.to_nat (Js.len (ChunkFramework.chunks pp) - walker))%nat
  end.

(** The trie after [add] has been called for each word of a list, in
    order, on a new trie. *)
Definition addAll (words : list (BasicTrie.word * option BasicTrie.AddData))
    : BasicTrie.t :=
  fold_left (fun tr we => BasicTrie.add tr (fst we) (snd we)) words
            BasicTrie.make.

(** What every token of [WordTokenizer.tokenize] satisfies, for the text
    that was tokenized. *)
Definition tokenShape (text : jstring) (tk : Token.t) : Prop :=
  Token.chunkType tk = Js.lit "TEXT" /\
  0 <= Token.start tk /\ 0 <= Token.length tk /\
  Token.start tk + Token.length tk <= Js.len text /\
  Token.text tk =
    Js.substring text (Token.start tk) (Token.start tk + Token.length tk) /\
  Js.len (Token.text tk) = Token.length tk /\
  (exists ct, Token.charTypes tk = Some ct /\
              Js.len ct = Token.length tk /\ ~ In CONS ct) /\
  Token.pos tk = None /\ Token.lemma tk = None /\ Token.senses tk = None.

(** Two senses that [isDiffMeaning] takes for the same meaning: the five
    keys read the same. *)
Definition sameMeaning (m1 m2 : SenseInfo) : Prop :=
  s_pos m1 = s_pos m2 /\ s_lemma m1 = s_lemma m2 /\ s_freq m1 = s_freq m2 /\
  s_sense m1 = s_sense m2 /\ s_affixed m1 = s_affixed m2.

(** A sense that [getDefaultLemma] has to complete has its lemma: a sense
    with a part of speech other than NON_WORD carries a lemma. *)
Definition lemmaComplete (m : SenseInfo) : Prop :=
  Js.truthy_str (s_pos m) = true ->
  Js.opt_str_is (s_pos m) (Js.lit "NON_WORD") = false ->
  Js.truthy_str (s_lemma m) = true.

(** Two senses that differ at most in the lemma, which the second one has
    kept or, where the first had none, received with a closing tsek. *)
Definition sameButLemma (m m' : SenseInfo) : Prop :=
  s_pos m' = s_pos m /\ s_freq m' = s_freq m /\ s_sense m' = s_sense m /\
  s_affixed m' = s_affixed m /\
  (s_lemma m' = s_lemma m \/
   (Js.truthy_str (s_lemma m) = false /\
    exists lemma, s_lemma m' = Some lemma /\
                  Js.endsWith lemma TSEK_STR = true)).

(** The lemma that the body of the loop of [getDefaultLemma] computes for a
    token whose unaffixed text is [textUnaffixed]. *)
Definition lemmaFor (self : WordTokenizer.t) (token : Token.t)
    (textUnaffixed : jstring) : jstring :=
  let isAffix := Js.truthy_bool (Token.affix token) in
  let isHost := Js.truthy_bool (Token.affixHost token) in
  if isAffix && negb isHost then
    let part :=
      match Token.syls_joined token with
      | Some syls => List.concat syls
      | None => Token.text token
      end in
    match WordTokenizer.lookup (WordTokenizer.partLemmas self) part with
    | Some (c' :: l) => (c' :: l) ++ TSEK_STR
    | _ => part ++ TSEK_STR
    end
  else if negb isAffix && isHost then
    let withAa :=
      match Token.affixation token with
      | Some a => if a_aa a then textUnaffixed ++ AA_STR else textUnaffixed
      | None => textUnaffixed
      end in
    withAa ++ TSEK_STR
  else if Js.endsWith textUnaffixed TSEK_STR then textUnaffixed
       else textUnaffixed ++ TSEK_STR.

(** What the same body then does with a sense, and the senses it leaves. *)
Definition fillSense (lemma : jstring) (m : SenseInfo) : SenseInfo :=
  if negb (Js.truthy_str (s_lemma m)) && Js.truthy_str (s_pos m) &&
     negb (Js.opt_str_is (s_pos m) (Js.lit "NON_WORD"))
  then WordTokenizer.set_lemma_of_sense lemma m else m.

Definition fillSenses (lemma : jstring) (senses : option (list SenseInfo))
    : option (list SenseInfo) :=
  match match senses with
        | Some l => Some (map (fillSense lemma) l)
        | None => None
        end with
  | Some (m :: l) => Some (m :: l)
  | _ => Some [mkSense None None (Some lemma) None None]
  end.

(** The code units that each category is given to, when the unit is not
    among the ignored characters: the table that the order of the tests in
    [classifyCharacter] and its two helpers amounts to. *)
Definition categoryFacts (u : Z) (ct : CharMarkers) : Prop :=
  ct <> NON_BO_NON_SKRT /\ ct <> NFC /\
  (ct = CONS <-> 0x0F40 <= u <= 0x0F6C) /\
  (ct = SUB_CONS <-> 0x0F90 <= u <= 0x0FBC) /\
  (ct = VOW <-> 0x0F71 <= u <= 0x0F84) /\
  (ct = TSEK <-> u = 0x0F0B) /\
  (ct = NUMERAL <-> 0x0F20 <= u <= 0x0F33) /\
  (ct = NORMAL_PUNCT <-> 0x0F0D <= u <= 0x0F12) /\
  (ct = SPECIAL_PUNCT <->
     0x0F00 <= u <= 0x0F0A \/ u = 0x0F0C \/ 0x0F13 <= u <= 0x0F17) /\
  (ct = SYMBOL <-> 0x0F1A <= u <= 0x0F1F) /\
  (ct = IN_SYL_MARK <-> 0x0F86 <= u <= 0x0F8B) /\
  (ct = SKRT_CONS <-> 0x0915 <= u <= 0x0939) /\
  (ct = SKRT_VOW <-> 0x093E <= u <= 0x094C) /\
  (ct = SKRT_SUB_CONS <-> 0x0958 <= u <= 0x095F) /\
  (ct = LATIN <-> 0x41 <= u <= 0x5A \/ 0x61 <= u <= 0x7A) /\
  (ct = CJK <-> 0x3400 <= u <= 0x4DBF \/ 0x4E00 <= u <= 0x9FFF) /\
  (ct = TRANSPARENT <->
     u = 0x09 \/ u = 0x0A \/ u = 0x0D \/ u = 0x20 \/ u = 0xA0 \/
     0x2000 <= u <= 0x2005).

(** A sense of the array is the same meaning as [m]: what the test of
    [addMeaning] looks for. *)
Definition known (senses : list SenseInfo) (m : SenseInfo) : Prop :=
  exists m', In m' senses /\ sameMeaning m' m.

(** No two senses of the array are the same meaning. *)
Definition distinctMeanings (senses : list SenseInfo) : Prop :=
  ForallOrdPairs (fun a b => ~ sameMeaning a b) senses.

End Aux.

(** * Theorems *)

(** ** Token.toJSON and Token.fromJSON *)

Lemma keep_str_withoutFalsy (o : option jstring) :
  Token.keep_str o = Spec.withoutFalsy_str o.
Proof. destruct o as [[|c s]|]; reflexivity. Qed.

Lemma keep_bool_withoutFalsy (o : option bool) :
  Token.keep_bool o = Spec.withoutFalsy_bool o.
Proof. destruct o as [[|]|]; reflexivity. Qed.

Lemma withoutFalsy_str_id (o : option jstring) :
  Spec.falsy_str o = false -> Spec.withoutFalsy_str o = o.
Proof. unfold Spec.withoutFalsy_str. intros ->. reflexivity. Qed.

Lemma withoutFalsy_bool_id (o : option bool) :
  Spec.falsy_bool o = false -> Spec.withoutFalsy_bool o = o.
Proof. unfold Spec.withoutFalsy_bool. intros ->. reflexivity. Qed.

Lemma over_opt_initial {A : Type} (o : option A) : Token.over_opt o None = o.
Proof. destruct o; reflexivity. Qed.




(** ** BasicTrie: empty words and words that are not entries *)

Lemma map_set_same (m : list (jstring * BasicTrie.TrieNode)) (k : jstring)
    (v : BasicTrie.TrieNode) :
  BasicTrie.map_get m k = Some v -> BasicTrie.map_set m k v = m.
Proof.
  induction m as [|[k' v'] m IH]; simpl; intros H.
  - discriminate.
  - destruct (Js.eqb k' k).
    + inversion H; subst. reflexivity.
    + rewrite IH by assumption. reflexivity.
Qed.

Lemma map_get_set (m : list (jstring * BasicTrie.TrieNode)) (k : jstring)
    (v0 v : BasicTrie.TrieNode) :
  BasicTrie.map_get m k = Some v0 ->
  BasicTrie.map_get (BasicTrie.map_set m k v) k = Some v.
Proof.
  induction m as [|[k' v'] m IH]; simpl; intros H.
  - discriminate.
  - destruct (Js.eqb k' k) eqn:E; simpl; rewrite E.
    + reflexivity.
    + apply IH. assumption.
Qed.

Lemma setChild_same (n c : BasicTrie.TrieNode) (k : jstring) :
  BasicTrie.getChild n k = Some c -> BasicTrie.setChild n k c = n.
Proof.
  unfold BasicTrie.getChild, BasicTrie.setChild. intros H.
  rewrite map_set_same by assumption. destruct n; reflexivity.
Qed.

Lemma update_fixed (f : BasicTrie.TrieNode -> BasicTrie.TrieNode) (w : list jstring) :
  forall n m, BasicTrie.find w n = Some m -> f m = m -> BasicTrie.update w f n = n.
Proof.
  induction w as [|k w IH]; simpl; intros n m Hfind Hf.
  - inversion Hfind; subst. assumption.
  - destruct (BasicTrie.getChild n k) as [c|] eqn:E; [|discriminate].
    rewrite (IH c m Hfind Hf). apply setChild_same. assumption.
Qed.

Lemma find_update (f : BasicTrie.TrieNode -> BasicTrie.TrieNode) (w : list jstring) :
  forall n m, BasicTrie.find w n = Some m ->
              BasicTrie.find w (BasicTrie.update w f n) = Some (f m).
Proof.
  induction w as [|k w IH]; simpl; intros n m Hfind.
  - inversion Hfind; subst. reflexivity.
  - destruct (BasicTrie.getChild n k) as [c|] eqn:E; [|discriminate].
    unfold BasicTrie.getChild, BasicTrie.setChild; simpl.
    rewrite (map_get_set _ _ c) by exact E.
    apply IH. assumption.
Qed.

Lemma setLeaf_same (n : BasicTrie.TrieNode) :
  BasicTrie.setLeaf (BasicTrie.leaf n) n = n.
Proof. destruct n; reflexivity. Qed.

(** C8, as the code has it.  An empty word (the empty string or the empty
    array) makes [hasWord], [addData] and [deactivate] throw the empty-word
    error.  For a word that is not empty: when its path is missing, [addData]
    and [deactivate] return false and the trie is as before; when the path
    ends on a node that is not a leaf, [addData] returns false and the trie is
    as before, while [deactivate] does not look at the leaf flag and returns
    true, with the trie as before for [reverse = false] and with the node made
    a leaf for [reverse = true]. *)
Theorem empty_and_missing_words (tr : BasicTrie.t) (w : BasicTrie.word) :
  (w = BasicTrie.Str [] \/ w = BasicTrie.Arr [] ->
     BasicTrie.hasWord tr w = Js.Throw BasicTrie.emptyWordError /\
     (forall d, BasicTrie.addData tr w d = Js.Throw BasicTrie.emptyWordError) /\
     (forall reverse,
        BasicTrie.deactivate tr w reverse = Js.Throw BasicTrie.emptyWordError)) /\
  (w <> BasicTrie.Str [] -> w <> BasicTrie.Arr [] ->
   BasicTrie.find (BasicTrie.wordArray w) (BasicTrie.head tr) = None ->
     (forall d, BasicTrie.addData tr w d = Js.Ret (false, tr)) /\
     (forall reverse, BasicTrie.deactivate tr w reverse = Js.Ret (false, tr))) /\
  (forall node,
   w <> BasicTrie.Str [] -> w <> BasicTrie.Arr [] ->
   BasicTrie.find (BasicTrie.wordArray w) (BasicTrie.head tr) = Some node ->
   BasicTrie.leaf node = false ->
     (forall d, BasicTrie.addData tr w d = Js.Ret (false, tr)) /\
     BasicTrie.deactivate tr w false = Js.Ret (true, tr) /\
     exists tr',
       BasicTrie.deactivate tr w true = Js.Ret (true, tr') /\
       BasicTrie.find (BasicTrie.wordArray w) (BasicTrie.head tr') =
         Some (BasicTrie.setLeaf true node)).
Proof.
  assert (Hne : w <> BasicTrie.Str [] -> w <> BasicTrie.Arr [] ->
                BasicTrie.isEmptyWord w = false).
  { intros H1 H2. destruct w as [[|c s]|[|x a]]; try reflexivity; congruence. }
  split; [|split].
  - intros [-> | ->]; repeat split; reflexivity.
  - intros H1 H2 Hfind.
    unfold BasicTrie.addData, BasicTrie.deactivate.
    rewrite (Hne H1 H2), Hfind. split; reflexivity.
  - intros node H1 H2 Hfind Hleaf.
    unfold BasicTrie.addData, BasicTrie.deactivate.
    rewrite (Hne H1 H2), Hfind, Hleaf; simpl.
    split; [reflexivity|]. split.
    + rewrite (update_fixed _ _ _ node Hfind).
      * destruct tr; reflexivity.
      * rewrite <- Hleaf. apply setLeaf_same.
    + eexists. split; [reflexivity|]. simpl.
      apply find_update. assumption.
Qed.

Lemma empty_and_missing_words_witness :
  BasicTrie.deactivate Examples.twoLevelTrie (BasicTrie.Arr [Js.lit "a"]) false =
    Js.Ret (true, Examples.twoLevelTrie) /\
  BasicTrie.addData Examples.twoLevelTrie (BasicTrie.Arr [Js.lit "c"])
    (BasicTrie.DNumber 1) = Js.Ret (false, Examples.twoLevelTrie) /\
  BasicTrie.hasWord Examples.twoLevelTrie (BasicTrie.Arr []) =
    Js.Throw BasicTrie.emptyWordError.
Proof.
  split; [|split].
  - destruct (empty_and_missing_words Examples.twoLevelTrie
                (BasicTrie.Arr [Js.lit "a"])) as (_ & _ & H).
    destruct (H (BasicTrie.mkNode (Js.lit "a")
                   [(Js.lit "b",
                     BasicTrie.mkNode (Js.lit "b") [] true
                       (mkData (Some tt) (Some []) None None None None))]
                   false BasicTrie.emptyData)) as (_ & Hd & _).
    + discriminate.
    + discriminate.
    + reflexivity.
    + reflexivity.
    + exact Hd.
  - destruct (empty_and_missing_words Examples.twoLevelTrie
                (BasicTrie.Arr [Js.lit "c"])) as (_ & H & _).
    destruct H as (Ha & _).
    + discriminate.
    + discriminate.
    + reflexivity.
    + apply Ha.
  - destruct (empty_and_missing_words Examples.twoLevelTrie (BasicTrie.Arr []))
      as (H & _).
    destruct H as (Hh & _).
    + right. reflexivity.
    + exact Hh.
Defined.

(** C8 as stated fails for [deactivate] on a node that is on a path and is
    not a leaf: in the trie holding the word [a b], [deactivate(['a'])]
    returns true. *)
Lemma deactivate_non_leaf_returns_true :
  exists node,
    BasicTrie.find [Js.lit "a"] (BasicTrie.head Examples.twoLevelTrie) = Some node /\
    BasicTrie.leaf node = false /\
    BasicTrie.deactivate Examples.twoLevelTrie (BasicTrie.Arr [Js.lit "a"]) false
      <> Js.Ret (false, Examples.twoLevelTrie).
Proof.
  eexists. split; [reflexivity|]. split; [reflexivity|].
  vm_compute. discriminate.
Qed.

(** ** WordTokenizer.splitAffixed *)

Lemma splitAffixed_unchanged (tokens : list Token.t) :
  WordTokenizer.splitAffixed tokens = tokens.
Proof.
  unfold WordTokenizer.splitAffixed.
  induction tokens as [|tk tokens IH]; simpl.
  - reflexivity.
  - rewrite IH. unfold WordTokenizer.splitTokenAffix.
    destruct (WordTokenizer.hasAffix tk); reflexivity.
Qed.

(** C6, as the code has it.  [splitAffixed] returns the token list it is
    given ([splitTokenAffix] returns the token alone, also when [hasAffix]
    holds), so [tokenize] with [splitAffixes = true] returns what it returns
    with [splitAffixes = false]: no host token and no affix token is made. *)
Theorem splitAffixes_has_no_effect :
  (forall tokens, WordTokenizer.splitAffixed tokens = tokens) /\
  (forall self text spacesAsPunct budget,
     WordTokenizer.tokenize self text true spacesAsPunct budget =
     WordTokenizer.tokenize self text false spacesAsPunct budget).
Proof.
  split.
  - apply splitAffixed_unchanged.
  - intros self text spacesAsPunct budget. unfold WordTokenizer.tokenize.
    destruct (Tokenize.tokenize _ _ _); simpl; try reflexivity.
    rewrite splitAffixed_unchanged. reflexivity.
Qed.

(** C6 as stated fails: the one-syllable text U+0F63 U+0F66 ends in the
    affix U+0F66; with [splitAffixes = true] it is returned as one TEXT token
    on which neither [affixHost] nor [affix] is set. *)
Lemma affixed_token_not_split :
  exists tk,
    WordTokenizer.tokenize Examples.wordTokenizer Examples.affixedWord true false 2 =
      Js.Ret [tk] /\
    Token.chunkType tk = Js.lit "TEXT" /\
    Js.endsWith (Token.text tk) [0x0F66] = true /\
    WordTokenizer.hasAffix tk = true /\
    Token.affixHost tk = None /\
    Token.affix tk = None.
Proof.
  eexists. split; [vm_compute; reflexivity|].
  repeat split; reflexivity.
Qed.

(** ** WordTokenizer.chooseDefaultEntry *)

Lemma keyCount_ownKeys (m : SenseInfo) :
  WordTokenizer.keyCount m = Spec.ownKeys m.
Proof.
  unfold WordTokenizer.keyCount, keys_of, Spec.ownKeys.
  rewrite !length_app.
  destruct (k_pos m), (k_freq m), (k_lemma m), (k_sense m), (k_affixed m);
    reflexivity.
Qed.

Lemma sort_insert_not_nil (a : SenseInfo) (l : list SenseInfo) :
  WordTokenizer.sort_insert a l <> [].
Proof.
  destruct l as [|b l]; simpl; [discriminate|].
  destruct (WordTokenizer.keyCount a <? WordTokenizer.keyCount b)%nat; discriminate.
Qed.

(** The head of the sorted array is the first of the elements with the
    most keys. *)
Lemma chooseBestSense_first_max (bucket : list SenseInfo) :
  bucket <> [] ->
  exists chosen,
    WordTokenizer.chooseBestSense bucket = Some chosen /\
    Spec.firstWithMostKeys bucket chosen.
Proof.
  unfold WordTokenizer.chooseBestSense, Spec.firstWithMostKeys.
  induction bucket as [|a l IH]; intros Hne; [congruence|].
  cbn [WordTokenizer.sortByKeys fold_right].
  fold (WordTokenizer.sortByKeys l).
  destruct l as [|a' l'].
  - exists a. split; [reflexivity|]. exists [], [].
    split; [reflexivity|]. split; intros m [].
  - destruct IH as (c & Hc & before & after & Hl & Hb & Ha); [discriminate|].
    destruct (WordTokenizer.sortByKeys (a' :: l')) as [|b rest] eqn:Hs;
      [discriminate|].
    cbn [hd_error] in Hc. inversion Hc; subst b.
    cbn [WordTokenizer.sort_insert].
    rewrite !keyCount_ownKeys.
    destruct (Spec.ownKeys a <? Spec.ownKeys c)%nat eqn:E.
    + apply Nat.ltb_lt in E. exists c. split; [reflexivity|].
      exists (a :: before), after. split; [rewrite Hl; reflexivity|].
      split; [|exact Ha].
      intros m [<-|Hm]; [exact E|apply Hb; exact Hm].
    + apply Nat.ltb_ge in E. exists a. split; [reflexivity|].
      exists [], (a' :: l'). split; [reflexivity|]. split; [intros m []|].
      intros m Hm. rewrite Hl in Hm. apply in_app_iff in Hm.
      destruct Hm as [Hm|[<-|Hm]].
      * apply Nat.lt_le_incl. eapply Nat.lt_le_trans; [apply Hb; exact Hm|exact E].
      * exact E.
      * eapply Nat.le_trans; [apply Ha; exact Hm|exact E].
Qed.

Lemma filter_nil_none {A : Type} (f : A -> bool) (l : list A) :
  filter f l = [] -> forall x, In x l -> f x = false.
Proof.
  intros H x Hx. destruct (f x) eqn:E; [|reflexivity].
  assert (Hin : In x (filter f l)) by (apply filter_In; split; assumption).
  rewrite H in Hin. destruct Hin.
Qed.

Lemma priority_nonAffixed (m : SenseInfo) :
  Js.has (k_affixed m) && negb (Js.truthy_bool (s_affixed m)) = true <->
  Spec.priority m = 0%nat.
Proof.
  unfold Spec.priority, s_affixed.
  destruct (k_affixed m) as [| |[|]]; simpl; split; congruence.
Qed.

Lemma priority_noAffixInfo (m : SenseInfo) :
  negb (Js.has (k_affixed m)) = true <-> Spec.priority m = 1%nat.
Proof.
  unfold Spec.priority.
  destruct (k_affixed m) as [| |[|]]; simpl; split; congruence.
Qed.

Lemma priority_affixed (m : SenseInfo) :
  Js.has (k_affixed m) && Js.truthy_bool (s_affixed m) = true <->
  Spec.priority m = 2%nat.
Proof.
  unfold Spec.priority, s_affixed.
  destruct (k_affixed m) as [| |[|]]; simpl; split; congruence.
Qed.

Lemma priority_bound (m : SenseInfo) : (Spec.priority m <= 2)%nat.
Proof.
  unfold Spec.priority. destruct (k_affixed m) as [| |[|]]; auto.
Qed.

(** A bucket of the code that holds the best priority of the list is the
    first non-empty bucket. *)
Lemma bucket_is_first (senses : list SenseInfo) (f : SenseInfo -> bool)
    (p : nat) :
  (forall m, f m = true <-> Spec.priority m = p) ->
  (forall m, In m senses -> (p <= Spec.priority m)%nat) ->
  filter f senses <> [] ->
  filter f senses = Spec.firstBucket senses.
Proof.
  intros Hf Hmin Hne. unfold Spec.firstBucket.
  destruct (filter f senses) as [|m0 rest] eqn:E; [congruence|].
  assert (H0 : In m0 senses /\ Spec.priority m0 = p).
  { assert (Hin : In m0 (filter f senses)) by (rewrite E; left; reflexivity).
    apply filter_In in Hin. destruct Hin as [Hin Hfm]. split; [exact Hin|].
    apply Hf. exact Hfm. }
  destruct H0 as [Hin0 Hp0]. rewrite <- E.
  apply filter_ext_in. intros m Hm.
  destruct (forallb (fun m' => (Spec.priority m <=? Spec.priority m')%nat) senses)
    eqn:Ea.
  - apply Hf. rewrite forallb_forall in Ea. specialize (Ea m0 Hin0).
    apply Nat.leb_le in Ea. specialize (Hmin m Hm). lia.
  - destruct (f m) eqn:Efm; [|reflexivity].
    apply Hf in Efm. rewrite <- Ea. symmetry. apply forallb_forall.
    intros m' Hm'. apply Nat.leb_le. rewrite Efm. apply Hmin. exact Hm'.
Qed.

(** [defaultEntry] applies the first sense with the most keys of the first
    non-empty bucket. *)
Lemma defaultEntry_choice (tk : Token.t) (senses : list SenseInfo) :
  Token.senses tk = Some senses -> senses <> [] ->
  exists chosen,
    Spec.firstWithMostKeys (Spec.firstBucket senses) chosen /\
    WordTokenizer.defaultEntry tk = WordTokenizer.applyChosenSense tk chosen.
Proof.
  intros Hs Hne. unfold WordTokenizer.defaultEntry. rewrite Hs.
  destruct senses as [|m0 l0]; [congruence|].
  remember (m0 :: l0) as all eqn:Hall.
  assert (Hpick : forall bucket,
            bucket <> [] -> bucket = Spec.firstBucket all ->
            exists chosen,
              Spec.firstWithMostKeys (Spec.firstBucket all) chosen /\
              match WordTokenizer.chooseBestSense bucket with
              | Some chosen => WordTokenizer.applyChosenSense tk chosen
              | None => tk
              end = WordTokenizer.applyChosenSense tk chosen).
  { intros bucket Hb Heq.
    destruct (chooseBestSense_first_max bucket Hb) as (c & -> & Hc).
    exists c. rewrite <- Heq. split; [exact Hc|reflexivity]. }
  destruct (WordTokenizer.nonAffixedOf all) as [|x xs] eqn:Hna.
  - destruct (WordTokenizer.noAffixInfoOf all) as [|y ys] eqn:Hun.
    + assert (H2 : forall m, In m all -> Spec.priority m = 2%nat).
      { intros m Hm.
        pose proof (filter_nil_none _ _ Hna m Hm) as H1.
        pose proof (filter_nil_none _ _ Hun m Hm) as H1'.
        pose proof (priority_nonAffixed m) as P0.
        pose proof (priority_noAffixInfo m) as P1.
        pose proof (priority_bound m) as Pb.
        cbv beta in H1, H1'. rewrite H1 in P0. rewrite H1' in P1.
        destruct (Spec.priority m) as [|[|[|k]]]; lia. }
      assert (Haf : WordTokenizer.affixedOf all <> []).
      { intros Haf. rewrite Hall in *.
        pose proof (filter_nil_none _ _ Haf m0 (or_introl eq_refl)) as H3.
        cbv beta in H3.
        pose proof (proj2 (priority_affixed m0) (H2 m0 (or_introl eq_refl))).
        congruence. }
      destruct (WordTokenizer.affixedOf all) as [|z zs] eqn:Ez; [congruence|].
      apply Hpick; [discriminate|]. rewrite <- Ez.
      apply (bucket_is_first all _ 2%nat);
        [exact priority_affixed| |fold (WordTokenizer.affixedOf all); rewrite Ez;
                                  discriminate].
      intros m Hm. rewrite (H2 m Hm). apply Nat.le_refl.
    + apply Hpick; [discriminate|]. rewrite <- Hun.
      apply (bucket_is_first all _ 1%nat);
        [exact priority_noAffixInfo|
        |fold (WordTokenizer.noAffixInfoOf all); rewrite Hun; discriminate].
      intros m Hm. pose proof (filter_nil_none _ _ Hna m Hm) as H1.
      cbv beta in H1. pose proof (priority_nonAffixed m) as P0.
      rewrite H1 in P0. destruct (Spec.priority m); [|lia].
      destruct P0 as [_ P0]. discriminate (P0 eq_refl).
  - apply Hpick; [discriminate|]. rewrite <- Hna.
    apply (bucket_is_first all _ 0%nat);
      [exact priority_nonAffixed|intros; lia
      |fold (WordTokenizer.nonAffixedOf all); rewrite Hna; discriminate].
Qed.

Lemma plain_keys (m : SenseInfo) :
  Spec.plain m -> Spec.ownKeys m = Spec.populated m.
Proof.
  unfold Spec.plain, Spec.ownKeys, Spec.populated, s_pos, s_lemma, s_freq,
    s_sense, s_affixed.
  intros (H1 & H2 & H3 & H4 & H5 & ->).
  destruct (k_pos m), (k_freq m), (k_lemma m), (k_sense m), (k_affixed m);
    try congruence; simpl; lia.
Qed.

(** C7, as the code has it.  For a token with a non-empty senses list,
    [chooseDefaultEntry] takes the first non-empty bucket in the order
    explicitly non-affixed (the key [affixed] is present without the value
    true), unspecified (no key [affixed]), explicitly affixed, and applies
    the first of its senses that have the largest number of own keys, where
    every key of the sense object counts; the token's [pos], [lemma], [freq]
    and [sense] become what the chosen sense holds under these keys, for the
    keys it has.  For senses that hold exactly their populated attributes
    this is a sense with the largest number of populated attributes of the
    bucket; in particular, with the senses [{pos:A, affixed:true}],
    [{pos:B, affixed:false, lemma:L}], [{pos:C}] the token's [pos] becomes
    [B]. *)
Theorem chooseDefaultEntry_selects :
  (forall tokens,
     WordTokenizer.chooseDefaultEntry tokens = map WordTokenizer.defaultEntry tokens) /\
  (forall tk senses,
     Token.senses tk = Some senses -> senses <> [] ->
     exists chosen,
       Spec.firstWithMostKeys (Spec.firstBucket senses) chosen /\
       Token.pos (WordTokenizer.defaultEntry tk) =
         Spec.copied (k_pos chosen) (Token.pos tk) /\
       Token.lemma (WordTokenizer.defaultEntry tk) =
         Spec.copied (k_lemma chosen) (Token.lemma tk) /\
       Token.freq (WordTokenizer.defaultEntry tk) =
         Spec.copied (k_freq chosen) (Token.freq tk) /\
       Token.sense (WordTokenizer.defaultEntry tk) =
         Spec.copied (k_sense chosen) (Token.sense tk)) /\
  (forall tk senses,
     Token.senses tk = Some senses -> senses <> [] ->
     Forall Spec.plain senses ->
     exists chosen,
       Spec.mostPopulated senses chosen /\
       Token.pos (WordTokenizer.defaultEntry tk) =
         Spec.copied (k_pos chosen) (Token.pos tk) /\
       Token.lemma (WordTokenizer.defaultEntry tk) =
         Spec.copied (k_lemma chosen) (Token.lemma tk) /\
       Token.freq (WordTokenizer.defaultEntry tk) =
         Spec.copied (k_freq chosen) (Token.freq tk) /\
       Token.sense (WordTokenizer.defaultEntry tk) =
         Spec.copied (k_sense chosen) (Token.sense tk)) /\
  (forall tk A B C L,
     Token.senses tk =
       Some [mkSense (Some A) None None None (Some true);
             mkSense (Some B) None (Some L) None (Some false);
             mkSense (Some C) None None None None] ->
     Token.pos (WordTokenizer.defaultEntry tk) = Some B /\
     Token.lemma (WordTokenizer.defaultEntry tk) = Some L).
Proof.
  split; [reflexivity|]. split; [|split].
  - intros tk senses Hs Hne.
    destruct (defaultEntry_choice tk senses Hs Hne) as (c & Hc & ->).
    exists c. split; [exact Hc|]. repeat split.
  - intros tk senses Hs Hne Hplain.
    destruct (defaultEntry_choice tk senses Hs Hne)
      as (c & (before & after & Hb & Hlt & Hle) & ->).
    assert (Hsub : forall m, In m (Spec.firstBucket senses) -> Spec.plain m).
    { intros m Hm. apply filter_In in Hm.
      exact (proj1 (Forall_forall _ _) Hplain m (proj1 Hm)). }
    assert (Hc : In c (Spec.firstBucket senses)).
    { rewrite Hb. apply in_app_iff. right. left. reflexivity. }
    exists c. split; [|repeat split]. split; [exact Hc|].
    intros m Hm. rewrite <- (plain_keys m (Hsub m Hm)), <- (plain_keys c (Hsub c Hc)).
    rewrite Hb in Hm. apply in_app_iff in Hm. destruct Hm as [Hm|[<-|Hm]].
    + apply Nat.lt_le_incl. apply Hlt. exact Hm.
    + apply Nat.le_refl.
    + apply Hle. exact Hm.
  - intros tk A B C L Hs.
    unfold WordTokenizer.defaultEntry. rewrite Hs. split; reflexivity.
Qed.

Lemma chooseDefaultEntry_selects_witness :
  exists chosen,
    Spec.firstWithMostKeys (Spec.firstBucket (rev Examples.twoSenses)) chosen /\
    Token.pos (WordTokenizer.defaultEntry
                 (Token.set_senses (Some (rev Examples.twoSenses))
                    Examples.plainToken)) =
      Spec.copied (k_pos chosen) None /\
    Spec.copied (k_pos chosen) None = Some (Js.lit "A").
Proof.
  destruct chooseDefaultEntry_selects as (_ & H & _).
  destruct (H (Token.set_senses (Some (rev Examples.twoSenses)) Examples.plainToken)
              (rev Examples.twoSenses))
    as (c & Hc & Hpos & _).
  - reflexivity.
  - discriminate.
  - exists c. split; [exact Hc|]. split; [exact Hpos|].
    exact (eq_trans (eq_sym Hpos) eq_refl).
Defined.

(** C7 as stated fails.  After [add('a', {pos:'A', lemma:undefined,
    freq:undefined, affixed:false})] and [add('a', {pos:'B', lemma:'L',
    affixed:false})] the word has the two data objects as its senses, both
    explicitly non-affixed.  The second has three populated attributes and
    the first has two, but the first has four keys: a token with these senses
    gets the [pos] A, which is the [pos] of no sense with the largest number
    of populated attributes. *)
Lemma chooseDefaultEntry_not_most_populated :
  (exists d,
     BasicTrie.hasWord Examples.twoSenseTrie (BasicTrie.Str (Js.lit "a")) =
       Js.Ret (true, d) /\
     d_senses d = Some Examples.twoSenses) /\
  Token.pos (WordTokenizer.defaultEntry
               (Token.set_senses (Some Examples.twoSenses) Examples.plainToken)) =
    Some (Js.lit "A") /\
  ~ exists chosen,
      Spec.mostPopulated Examples.twoSenses chosen /\
      Token.pos (WordTokenizer.defaultEntry
                   (Token.set_senses (Some Examples.twoSenses) Examples.plainToken)) =
        Spec.copied (k_pos chosen)
          (Token.pos (Token.set_senses (Some Examples.twoSenses) Examples.plainToken)).
Proof.
  split; [eexists; split; reflexivity|]. split; [reflexivity|].
  intros (chosen & (Hin & Hmax) & Hpos).
  assert (HB : In (BasicTrie.asSense Examples.populatedData)
                  (Spec.firstBucket Examples.twoSenses))
    by (right; left; reflexivity).
  destruct Hin as [<-|[<-|[]]].
  - specialize (Hmax _ HB). vm_compute in Hmax. lia.
  - vm_compute in Hpos. discriminate.
Qed.

(** ** The engine on the worked inputs *)

(** C5, as the code has it.  With the empty trie the greeting yields two
    tokens, both of chunk type TEXT: the first syllable with its tsek
    (offsets 0 to 3) and the second syllable with the shad (offsets 4 to 7).
    The two spans follow each other and cover the eight code units. *)
Theorem greeting_tokens :
  exists t1 t2,
    (forall n,
       WordTokenizer.tokenize Examples.wordTokenizer Examples.greeting true false
         (S (S (S n))) = Js.Ret [t1; t2]) /\
    Token.chunkType t1 = Js.lit "TEXT" /\
    Token.text t1 = [0x0F56; 0x0F40; 0x0FB2; 0x0F0B] /\
    Token.start t1 = 0 /\ Token.length t1 = 4 /\
    Token.chunkType t2 = Js.lit "TEXT" /\
    Token.text t2 = [0x0F64; 0x0F72; 0x0F66; 0x0F0D] /\
    Token.start t2 = 4 /\ Token.length t2 = 4 /\
    Token.start t1 + Token.length t1 = Token.start t2 /\
    Token.start t2 + Token.length t2 = Js.len Examples.greeting.
Proof.
  do 2 eexists. split.
  - intros n. vm_compute. reflexivity.
  - repeat split; reflexivity.
Qed.

(** C5 as stated fails: under no loop budget does the greeting yield the
    three tokens of scenario S1; the engine returns two tokens. *)
Lemma greeting_not_three_tokens :
  (exists t1 t2,
     WordTokenizer.tokenize Examples.wordTokenizer Examples.greeting true false 3 =
       Js.Ret [t1; t2]) /\
  ~ (exists budget,
       Spec.S1_expected
         (WordTokenizer.tokenize Examples.wordTokenizer Examples.greeting true false
            budget)).
Proof.
  split.
  - do 2 eexists. vm_compute. reflexivity.
  - intros (budget & t1 & t2 & t3 & H & _).
    destruct budget as [|[|[|n]]]; vm_compute in H; discriminate H.
Qed.

(** C3 on the greeting.  The first component of each entry is the triple
    [[100, start, length]] of the syllable, not its offsets, and the meta
    triple is that of the whole run; the string walked for the first entry is
    made of the code units at offsets 100 (none), 0 and 4, which is not the
    syllable.  So a trie that holds the first syllable as a word is not
    matched: the first token carries no sense. *)
Theorem walked_string_is_not_the_syllable :
  ChunkFramework.chunks (Examples.served Examples.greeting) =
    [(Some [100; 0; 4], (ChunkMarkers.TEXT, 0, 8));
     (Some [100; 4; 4], (ChunkMarkers.TEXT, 0, 8))] /\
  Tokenize.sylOf (Examples.served Examples.greeting) [100; 0; 4] =
    [0x0F56; 0x0F64] /\
  Tokenize.sylOf (Examples.served Examples.greeting) [0; 1; 2] =
    [0x0F56; 0x0F40; 0x0FB2] /\
  exists t1 t2,
    Tokenize.tokenize {| Tokenize.trie := Examples.nounTrie |}
      (Examples.served Examples.greeting) 3 = Js.Ret [t1; t2] /\
    Token.senses t1 = None.
Proof.
  split; [reflexivity|]. split; [reflexivity|]. split; [reflexivity|].
  do 2 eexists. split; [vm_compute; reflexivity|reflexivity].
Qed.

(** C2 on a syllable followed by a Latin letter, through [WordTokenizer].
    The token of the Latin run has start 0 and length 0, so the second token
    starts before the first one ends, and the code unit at offset 2, of
    category LATIN, is in no span. *)
Theorem latin_run_gets_an_empty_span :
  exists t1 t2,
    (forall n,
       WordTokenizer.tokenize Examples.wordTokenizer Examples.mixed true false
         (S (S (S n))) = Js.Ret [t1; t2]) /\
    Token.start t1 = 0 /\ Token.length t1 = 2 /\
    Token.start t2 = 0 /\ Token.length t2 = 0 /\
    Token.start t2 < Token.start t1 + Token.length t1 /\
    BoString.getCharType (ChunkFramework.bs (Examples.served Examples.mixed)) 2 =
      Some LATIN /\
    ChunkFramework.chunks (Examples.served Examples.mixed) =
      [(Some [100; 0; 2], (ChunkMarkers.TEXT, 0, 2));
       (None, (ChunkMarkers.OTHER, 2, 1))].
Proof.
  do 2 eexists. split.
  - intros n. vm_compute. reflexivity.
  - repeat split; reflexivity.
Qed.

Lemma tokenize_loop_step (self : Tokenize.t) (pp : ChunkFramework.t)
    (budget fuel : nat) (cIdx : Z) (tokens : list Token.t) :
  Tokenize.tokenize_loop self pp budget (S fuel) cIdx tokens =
    if cIdx <? Js.len (ChunkFramework.chunks pp) then
      r <- Tokenize.walk_loop self pp budget cIdx cIdx [] [] [] None ;;
      Tokenize.tokenize_loop self pp budget fuel (snd r) (tokens ++ fst r)
    else Js.Ret tokens.
Proof. reflexivity. Qed.

(** The unmatched run of two syllables: the inner loop pushes one token and
    leaves the cursor where it was. *)
Lemma unmatched_run_keeps_cursor (n : nat) :
  exists tk,
    Tokenize.walk_loop {| Tokenize.trie := Examples.longWordTrie |}
      (Examples.served Examples.threeSyllables) (S (S (S n))) 0 0 [] [] [] None =
    Js.Ret ([tk], 0).
Proof. eexists. vm_compute. reflexivity. Qed.

Lemma unmatched_run_loops (n fuel : nat) :
  forall tokens,
    Tokenize.tokenize_loop {| Tokenize.trie := Examples.longWordTrie |}
      (Examples.served Examples.threeSyllables) (S (S (S n))) fuel 0 tokens =
    Js.Diverge.
Proof.
  induction fuel as [|fuel IH]; intros tokens.
  - reflexivity.
  - rewrite tokenize_loop_step.
    destruct (unmatched_run_keeps_cursor n) as [tk ->].
    change (0 <? Js.len (ChunkFramework.chunks
                           (Examples.served Examples.threeSyllables))) with true.
    cbn [Js.bind fst snd]. apply IH.
Qed.

(** C1 on three syllables and a trie whose one word starts with the strings
    walked for the first two and does not continue with the third.  The walk
    takes two syllables and stops on the third with no match recorded;
    [addFoundWordOrNonWord] pushes a token for the first syllable, the number
    it returns is dropped, and the cursor is raised only when one syllable was
    walked.  So the outer loop starts again at the same cursor: under every
    loop budget [tokenize] fails to return. *)
Theorem tokenize_does_not_terminate :
  (forall n, exists tk,
     Tokenize.walk_loop {| Tokenize.trie := Examples.longWordTrie |}
       (Examples.served Examples.threeSyllables) (S (S (S n))) 0 0 [] [] [] None =
     Js.Ret ([tk], 0)) /\
  (forall budget,
     Tokenize.tokenize {| Tokenize.trie := Examples.longWordTrie |}
       (Examples.served Examples.threeSyllables) budget = Js.Diverge).
Proof.
  split.
  - apply unmatched_run_keeps_cursor.
  - intros budget. unfold Tokenize.tokenize.
    destruct budget as [|[|[|n]]]; try reflexivity.
    apply unmatched_run_loops.
Qed.

(** ** The engine on the empty trie, and WordTokenizer *)

Section EmptyTrie.

Variable pp : ChunkFramework.t.

Lemma chunkAt_nat (i : nat) (e : ChunkFramework.entry) :
  nth_error (ChunkFramework.chunks pp) i = Some e ->
  Tokenize.chunkAt pp (Z.of_nat i) = Js.Ret e.
Proof.
  intros H. unfold Tokenize.chunkAt, Js.idx.
  destruct (Z.ltb_spec (Z.of_nat i) 0) as [Hneg|_]; [lia|].
  rewrite Nat2Z.id, H. reflexivity.
Qed.

Lemma walk_empty_trie (budget : nat) (cIdx : Z) :
  Tokenize.walk_loop Aux.emptyEngine pp (S budget) cIdx cIdx [] [] [] None =
    (tk <- Tokenize.chunksToToken pp [cIdx] Tokenize.noData None ;;
     Js.Ret ([tk], cIdx + 1)).
Proof.
  simpl.
  destruct (Js.idx (ChunkFramework.chunks pp) cIdx) as [[[curSyl|] meta]|];
    reflexivity.
Qed.

Lemma single_token_bare (i : Z) (tk : Token.t) :
  Tokenize.chunksToToken pp [i] Tokenize.noData None = Js.Ret tk -> Aux.bare tk.
Proof.
  unfold Tokenize.chunksToToken.
  destruct (Tokenize.chunkAt pp i) as [e| |]; simpl; try discriminate.
  intros H. inversion H; subst. split; reflexivity.
Qed.

Lemma tokenize_loop_empty_bare (budget fuel : nat) :
  forall cIdx tokens out,
    Forall Aux.bare tokens ->
    Tokenize.tokenize_loop Aux.emptyEngine pp budget fuel cIdx tokens = Js.Ret out ->
    Forall Aux.bare out.
Proof.
  induction fuel as [|fuel IH]; intros cIdx tokens out Htok H.
  - discriminate.
  - rewrite tokenize_loop_step in H.
    destruct (cIdx <? Js.len (ChunkFramework.chunks pp)).
    + destruct budget as [|budget]; [discriminate|].
      rewrite walk_empty_trie in H.
      destruct (Tokenize.chunksToToken pp [cIdx] Tokenize.noData None)
        as [tk| |] eqn:E; try discriminate.
      cbn [Js.bind fst snd] in H.
      eapply IH; [|exact H].
      apply Forall_app. split; [assumption|].
      constructor; [apply (single_token_bare _ _ E)|constructor].
    + inversion H; subst. assumption.
Qed.

Lemma tokenize_loop_empty_result (budget : nat) :
  forall (k i fuel : nat) tokens,
    (i + k = List.length (ChunkFramework.chunks pp))%nat ->
    (k < fuel)%nat ->
    Tokenize.tokenize_loop Aux.emptyEngine pp (S budget) fuel (Z.of_nat i) tokens =
      Js.Ret (tokens ++ map (Aux.standalone pp) (skipn i (ChunkFramework.chunks pp))).
Proof.
  induction k as [|k IH]; intros i fuel tokens Hlen Hfuel;
    (destruct fuel as [|fuel]; [lia|]); rewrite tokenize_loop_step.
  - destruct (Z.ltb_spec (Z.of_nat i) (Js.len (ChunkFramework.chunks pp)))
      as [Hlt|_]; [unfold Js.len in Hlt; lia|].
    rewrite skipn_all2 by lia. rewrite app_nil_r. reflexivity.
  - destruct (Z.ltb_spec (Z.of_nat i) (Js.len (ChunkFramework.chunks pp)))
      as [_|Hge]; [|unfold Js.len in Hge; lia].
    rewrite walk_empty_trie.
    destruct (nth_error (ChunkFramework.chunks pp) i) as [e|] eqn:E;
      [|apply nth_error_None in E; lia].
    unfold Tokenize.chunksToToken. rewrite (chunkAt_nat _ _ E).
    cbn [Js.bind fst snd Tokenize.stamp].
    replace (Z.of_nat i + 1) with (Z.of_nat (S i)) by lia.
    rewrite IH by lia.
    rewrite <- app_assoc. do 2 f_equal.
    clear - E. revert i E.
    induction (ChunkFramework.chunks pp) as [|x l IHl]; intros [|i] E;
      simpl in *; try discriminate.
    + inversion E; subst. reflexivity.
    + apply IHl. assumption.
Qed.

End EmptyTrie.

Lemma defaultLemma_bare (self : WordTokenizer.t) (tokens : list Token.t) :
  Forall Aux.bare tokens -> WordTokenizer.getDefaultLemma self tokens = tokens.
Proof.
  unfold WordTokenizer.getDefaultLemma.
  induction 1 as [|tk l [_ Hu] _ IH]; simpl; [reflexivity|].
  rewrite IH. unfold WordTokenizer.defaultLemma. rewrite Hu. reflexivity.
Qed.

Lemma defaultEntry_bare (tokens : list Token.t) :
  Forall Aux.bare tokens -> WordTokenizer.chooseDefaultEntry tokens = tokens.
Proof.
  unfold WordTokenizer.chooseDefaultEntry.
  induction 1 as [|tk l [Hs _] _ IH]; simpl; [reflexivity|].
  rewrite IH. unfold WordTokenizer.defaultEntry. rewrite Hs. reflexivity.
Qed.

Lemma finalizer_bare (self : WordTokenizer.t) (splitAffixes : bool)
    (tokens : list Token.t) :
  Forall Aux.bare tokens ->
  WordTokenizer.chooseDefaultEntry
    (WordTokenizer.getDefaultLemma self
       (if splitAffixes then WordTokenizer.splitAffixed tokens else tokens)) = tokens.
Proof.
  intros H.
  assert (E : (if splitAffixes then WordTokenizer.splitAffixed tokens else tokens)
              = tokens).
  { destruct splitAffixes; [apply splitAffixed_unchanged|reflexivity]. }
  rewrite E, defaultLemma_bare by assumption. apply defaultEntry_bare. assumption.
Qed.

(** C10.  The constructor gives the engine a new empty trie whatever the
    configuration, so [tokenize] returns the same under any two
    configurations; with a loop budget above the number of chunk entries it
    returns one token per entry, the one [chunksToToken] makes of the entry
    with the data [{}]; and no token it returns carries senses. *)
Theorem tokenizer_ignores_dictionary :
  (forall config ignoreChars,
     Tokenize.trie (WordTokenizer.tokenizer (WordTokenizer.make config ignoreChars))
       = BasicTrie.make) /\
  (forall config1 config2 ignoreChars text splitAffixes spacesAsPunct budget,
     WordTokenizer.tokenize (WordTokenizer.make config1 ignoreChars) text
       splitAffixes spacesAsPunct budget =
     WordTokenizer.tokenize (WordTokenizer.make config2 ignoreChars) text
       splitAffixes spacesAsPunct budget) /\
  (forall config ignoreChars text splitAffixes spacesAsPunct budget,
     let self := WordTokenizer.make config ignoreChars in
     let pp := ChunkFramework.serveSylsToTrie
                 (ChunkFramework.make text (WordTokenizer.ignoreChars self)
                    spacesAsPunct) in
     (List.length (ChunkFramework.chunks pp) < budget)%nat ->
     WordTokenizer.tokenize self text splitAffixes spacesAsPunct budget =
       Js.Ret (map (Aux.standalone pp) (ChunkFramework.chunks pp))) /\
  (forall config ignoreChars text splitAffixes spacesAsPunct budget tokens,
     WordTokenizer.tokenize (WordTokenizer.make config ignoreChars) text
       splitAffixes spacesAsPunct budget = Js.Ret tokens ->
     Forall (fun tk => Token.senses tk = None) tokens).
Proof.
  split; [reflexivity|]. split; [reflexivity|]. split.
  - intros config ignoreChars text splitAffixes spacesAsPunct budget self pp Hb.
    unfold WordTokenizer.tokenize. fold pp.
    change (WordTokenizer.tokenizer self) with Aux.emptyEngine.
    unfold Tokenize.tokenize.
    destruct budget as [|budget]; [lia|].
    pose proof (tokenize_loop_empty_result pp budget
                  (List.length (ChunkFramework.chunks pp)) 0 (S budget) []) as R.
    change (Z.of_nat 0) with 0 in R.
    rewrite R; [|reflexivity|exact Hb].
    cbn [Js.bind app skipn].
    assert (Hbare : Forall Aux.bare
                      (map (Aux.standalone pp) (ChunkFramework.chunks pp))).
    { apply Forall_forall. intros tk Hin. apply in_map_iff in Hin.
      destruct Hin as (e & <- & _). split; reflexivity. }
    rewrite finalizer_bare by assumption. reflexivity.
  - intros config ignoreChars text splitAffixes spacesAsPunct budget tokens.
    unfold WordTokenizer.tokenize.
    change (WordTokenizer.tokenizer (WordTokenizer.make config ignoreChars))
      with Aux.emptyEngine.
    unfold Tokenize.tokenize.
    destruct (Tokenize.tokenize_loop _ _ _ _ _ _) as [out| |] eqn:E;
      cbn [Js.bind]; try discriminate.
    intros H. inversion H; subst.
    pose proof (tokenize_loop_empty_bare _ _ _ _ _ _ (Forall_nil _) E) as Hbare.
    rewrite finalizer_bare by assumption.
    eapply Forall_impl; [|exact Hbare]. intros tk [Hs _]. exact Hs.
Qed.

Lemma tokenizer_ignores_dictionary_witness :
  exists tokens,
    WordTokenizer.tokenize (WordTokenizer.make None None) Examples.greeting
      true false 3 = Js.Ret tokens /\
    Forall (fun tk => Token.senses tk = None) tokens.
Proof.
  destruct tokenizer_ignores_dictionary as (_ & _ & Hret & Hsenses).
  eexists. split.
  - apply (Hret None None Examples.greeting true false 3%nat). vm_compute. lia.
  - eapply (Hsenses None None Examples.greeting true false 3%nat).
    apply (Hret None None Examples.greeting true false 3%nat). vm_compute. lia.
Defined.

(** ** ChunkFramework.syllabify *)

Section Chunking.

Variable test : Z -> bool.

Lemma Runs_le (a b : Z) (l : list (bool * Z * Z)) : Aux.Runs test a b l -> a <= b.
Proof. induction 1; lia. Qed.

Lemma Runs_snoc (a s : Z) (l : list (bool * Z * Z)) (c : bool) (len : Z) :
  Aux.Runs test a s l ->
  0 < len ->
  (forall p, s <= p < s + len -> test p = c) ->
  (a = s \/ test (s - 1) = negb c) ->
  Aux.Runs test a (s + len) (l ++ [(c, s, len)]).
Proof.
  intros HR Hlen Hrun. induction HR as [a|a len' c' b l Hlen' Hrun' Hmax HR IH];
    intros Hleft; simpl.
  - constructor; auto. constructor.
  - pose proof (Runs_le _ _ _ HR) as Hle.
    constructor; auto.
    + destruct Hmax as [Heq|Hneg]; [|right; assumption].
      right. subst b.
      destruct Hleft as [Hbad|Hprev]; [lia|].
      rewrite (Hrun (a + len')) by lia.
      rewrite (Hrun' (a + len' - 1)) in Hprev by lia.
      rewrite Hprev. rewrite negb_involutive. reflexivity.
    + apply IH; [exact Hrun|].
      destruct Hleft as [Hbad|Hprev]; [lia|right; assumption].
Qed.

Lemma chunk_loop_inv (start : Z) (n : nat) :
  forall i result currentStart currentMatches,
    Aux.chunkInv test start i (result, currentStart, currentMatches) ->
    Aux.chunkInv test start (i + Z.of_nat n)
      (ChunkFramework.chunk_loop test n i result currentStart currentMatches).
Proof.
  induction n as [|n IH]; intros i result cs cm Hinv.
  - simpl. replace (i + 0) with i by lia. assumption.
  - replace (i + Z.of_nat (S n)) with ((i + 1) + Z.of_nat n) by lia.
    simpl ChunkFramework.chunk_loop.
    destruct cm as [c|].
    + destruct Hinv as (Hcs & HR & Hrun & Hleft).
      destruct (Bool.eqb c (test i)) eqn:E.
      * apply IH. apply eqb_prop in E. simpl. repeat split; try lia; auto.
        intros p Hp. destruct (Z.eq_dec p i) as [->|Hne]; [auto|apply Hrun; lia].
      * apply IH. apply eqb_false_iff in E. simpl. split; [lia|]. split.
        -- replace i with (cs + (i - cs)) at 1 by lia.
           apply Runs_snoc; auto; try lia.
           ++ intros p Hp. apply Hrun. lia.
           ++ destruct Hleft; [left; lia|right; assumption].
        -- split.
           ++ intros p Hp. replace p with i by lia. reflexivity.
           ++ right. rewrite (Hrun (i - 1)) by lia.
              destruct c, (test i); simpl; congruence.
    + destruct Hinv as (-> & ->). apply IH. simpl.
      split; [lia|]. split; [constructor|]. split.
      * intros p Hp. replace p with start by lia. reflexivity.
      * left. reflexivity.
Qed.

Lemma chunk_Runs (start end_ : Z) :
  start <= end_ -> Aux.Runs test start end_ (ChunkFramework.chunk start end_ test).
Proof.
  intros Hle. unfold ChunkFramework.chunk.
  pose proof (chunk_loop_inv start (Z.to_nat (end_ - start)) start [] start None)
    as Hinv.
  replace (start + Z.of_nat (Z.to_nat (end_ - start))) with end_ in Hinv by lia.
  destruct (ChunkFramework.chunk_loop test (Z.to_nat (end_ - start)) start []
              start None) as [[result cs] cm].
  specialize (Hinv (conj eq_refl eq_refl)). simpl in Hinv.
  destruct cm as [c|].
  - destruct Hinv as (Hcs & HR & Hrun & Hleft).
    destruct (Z.ltb_spec cs end_) as [Hlt|Hge]; [|lia].
    replace end_ with (cs + (end_ - cs)) at 1 by lia.
    apply Runs_snoc; auto; try lia.
    + intros p Hp. apply Hrun. lia.
    + destruct Hleft; [left; lia|right; assumption].
  - destruct Hinv as (-> & <-). constructor.
Qed.

Lemma nth_error_middle {A : Type} (pre : list A) (x : A) (suf : list A) :
  nth_error (pre ++ x :: suf) (List.length pre) = Some x.
Proof. induction pre; simpl; auto. Qed.

Lemma set_nth_middle {A : Type} (pre : list A) (x y : A) (suf : list A) :
  Js.set_nth (pre ++ x :: suf) (List.length pre) y = pre ++ y :: suf.
Proof. induction pre as [|a pre IH]; simpl; [reflexivity|]. rewrite IH. reflexivity. Qed.

Lemma nth_error_after {A : Type} (pre : list A) (x y : A) (suf : list A) :
  nth_error (pre ++ x :: y :: suf) (S (List.length pre)) = Some y.
Proof. induction pre; simpl; auto. Qed.

Lemma syllabify_merge_step (n i : nat) (indices : list (bool * Z * Z)) :
  ChunkFramework.syllabify_merge (S n) i indices =
    ChunkFramework.syllabify_merge n (S i)
      match nth_error indices i with
      | Some (b, _, l) =>
          if b && (0 <? i)%nat
          then match nth_error indices (i - 1) with
               | Some (pb, ps, pl) =>
                   if negb pb
                   then Js.set_nth indices (i - 1) (pb, ps, pl + l)
                   else indices
               | None => indices
               end
          else indices
      | None => indices
      end.
Proof. reflexivity. Qed.

Lemma merge_absorb (suf : list (bool * Z * Z)) :
  forall pre prev,
    ChunkFramework.syllabify_merge (List.length suf) (S (List.length pre))
      (pre ++ prev :: suf) = pre ++ Aux.absorb prev suf.
Proof.
  induction suf as [|x suf IH]; intros pre prev.
  - reflexivity.
  - cbn [List.length]. rewrite syllabify_merge_step.
    rewrite nth_error_after.
    destruct x as [[b xs] l]. destruct prev as [[pb ps] pl].
    replace (S (List.length pre) - 1)%nat with (List.length pre) by lia.
    rewrite nth_error_middle.
    change (0 <? S (List.length pre))%nat with true. rewrite andb_true_r.
    assert (Hnext : forall prev',
              ChunkFramework.syllabify_merge (List.length suf)
                (S (S (List.length pre))) (pre ++ prev' :: (b, xs, l) :: suf) =
              pre ++ prev' :: Aux.absorb (b, xs, l) suf).
    { intros prev'. specialize (IH (pre ++ [prev']) (b, xs, l)).
      rewrite length_app in IH. simpl in IH.
      replace (List.length pre + 1)%nat with (S (List.length pre)) in IH by lia.
      rewrite <- !app_assoc in IH. exact IH. }
    cbn [Aux.absorb].
    destruct b; [destruct pb|]; cbn [negb andb];
      rewrite ?set_nth_middle; apply Hnext.
Qed.

Lemma merge_all (indices : list (bool * Z * Z)) :
  ChunkFramework.syllabify_merge (List.length indices) 0 indices =
    match indices with
    | [] => []
    | x :: rest => Aux.absorb x rest
    end.
Proof.
  destruct indices as [|[[b s] l] rest]; [reflexivity|].
  cbn [List.length]. rewrite syllabify_merge_step.
  cbn [nth_error]. change (0 <? 0)%nat with false. rewrite andb_false_r.
  apply (merge_absorb rest [] (b, s, l)).
Qed.

Lemma syllablesOf_cons (yes : ChunkMarkers.t) (b : bool) (s l : Z)
    (rest : list (bool * Z * Z)) :
  Aux.syllablesOf yes ((b, s, l) :: rest) =
    if b then Aux.syllablesOf yes rest else (yes, s, l) :: Aux.syllablesOf yes rest.
Proof. destruct b; reflexivity. Qed.

Lemma absorb_spans (yes : ChunkMarkers.t) (G : Z) (suf : list (bool * Z * Z)) :
  forall c a len b,
    Aux.Runs test a b ((c, a, len) :: suf) ->
    G <= a ->
    (a = G \/ test (a - 1) = negb c) ->
    forall m s l,
      In (m, s, l) (Aux.syllablesOf yes (Aux.absorb (c, a, len) suf)) ->
      m = yes /\ Aux.SyllableSpan test G b s l.
Proof.
  induction suf as [|[[c' a'] len'] suf IH]; intros c a len b HR HG Hleft m s l Hin;
    inversion HR as [|? ? ? ? ? Hlen Hrun Hmax HR']; subst.
  - inversion HR'; subst. cbn [Aux.absorb] in Hin.
    rewrite syllablesOf_cons in Hin. destruct c; [destruct Hin|].
    destruct Hin as [Heq|[]]. inversion Heq; subst. split; [reflexivity|].
    unfold Aux.SyllableSpan. repeat split; try lia.
    + exact Hleft.
    + exists l. repeat split; try lia; auto; intros; lia.
  - inversion HR' as [|? ? ? ? ? Hlen' Hrun' Hmax' HR'']; subst.
    pose proof (Runs_le _ _ _ HR'') as Hle.
    assert (Hc' : c' = negb c).
    { destruct Hmax as [Hbad|Hneg]; [lia|].
      rewrite <- Hneg. symmetry. apply Hrun'. lia. }
    assert (Hrest : forall m s l,
              In (m, s, l)
                 (Aux.syllablesOf yes (Aux.absorb (c', a + len, len') suf)) ->
              m = yes /\ Aux.SyllableSpan test G b s l).
    { apply IH; [assumption|lia|].
      right. rewrite (Hrun (a + len - 1)) by lia. rewrite Hc'.
      rewrite negb_involutive. reflexivity. }
    cbn [Aux.absorb] in Hin. subst c'.
    destruct c; cbn [negb andb] in Hin; rewrite syllablesOf_cons in Hin.
    + apply Hrest. assumption.
    + destruct Hin as [Heq|Hin]; [|apply Hrest; assumption].
      inversion Heq; subst. split; [reflexivity|].
      unfold Aux.SyllableSpan.
      split; [lia|]. split; [lia|]. split; [lia|]. split; [exact Hleft|]. split.
      * destruct Hmax' as [He|Hn]; [left; lia|right].
        replace (s + (len + len')) with (s + len + len') by lia. exact Hn.
      * exists len. repeat split; try lia; auto;
          intros p Hp; apply Hrun'; lia.
Qed.

Lemma absorb_covers (yes : ChunkMarkers.t) (suf : list (bool * Z * Z)) :
  forall c a len b,
    Aux.Runs test a b ((c, a, len) :: suf) ->
    forall p, a <= p < b -> test p = false ->
    exists s l,
      In (yes, s, l) (Aux.syllablesOf yes (Aux.absorb (c, a, len) suf)) /\
      s <= p < s + l.
Proof.
  induction suf as [|[[c' a'] len'] suf IH]; intros c a len b HR p Hp Htest;
    inversion HR as [|? ? ? ? ? Hlen Hrun Hmax HR']; subst.
  - inversion HR'; subst. cbn [Aux.absorb]. rewrite syllablesOf_cons.
    assert (Hc : c = false) by (rewrite <- (Hrun p Hp); exact Htest).
    subst c. exists a, len. split; [left; reflexivity|lia].
  - inversion HR' as [|? ? ? ? ? Hlen' Hrun' Hmax' HR'']; subst.
    pose proof (Runs_le _ _ _ HR'') as Hle.
    assert (Hc' : c' = negb c).
    { destruct Hmax as [Hbad|Hneg]; [lia|].
      rewrite <- Hneg. symmetry. apply Hrun'. lia. }
    cbn [Aux.absorb]. subst c'.
    destruct (Z.lt_ge_cases p (a + len)) as [Hin|Hout].
    + assert (Hc : c = false) by (rewrite <- (Hrun p) by lia; exact Htest).
      subst c. cbn [negb andb].
      rewrite syllablesOf_cons.
      exists a, (len + len'). split; [left; reflexivity|lia].
    + destruct (IH (negb c) (a + len) len' b HR' p) as (s & l & Hin & Hs);
        [lia|assumption|].
      exists s, l. split; [|assumption].
      destruct c; cbn [negb andb]; rewrite syllablesOf_cons;
        [assumption|right; assumption].
Qed.

End Chunking.

Lemma unit_eqb (o : option Z) (v : Z) :
  Js.eqb match o with Some c => [c] | None => [] end [v] = true <-> o = Some v.
Proof.
  destruct o as [c|]; simpl.
  - rewrite andb_true_r, Z.eqb_eq. split; congruence.
  - split; discriminate.
Qed.

(** The separators of [syllabify] are the codepoints of category TSEK and
    the code units U+0F7F and U+0F71. *)
Lemma isTsekOrLongSkrtVowel_iff (c : ChunkFramework.t) (p : Z) :
  ChunkFramework.isTsekOrLongSkrtVowel c p = true <->
  BoString.getCharType (ChunkFramework.bs c) p = Some TSEK \/
  Js.idx (BoString.text (ChunkFramework.bs c)) p = Some 0x0F7F \/
  Js.idx (BoString.text (ChunkFramework.bs c)) p = Some 0x0F71.
Proof.
  unfold ChunkFramework.isTsekOrLongSkrtVowel, BoString.charAt, Js.at_or_empty.
  destruct (BoString.getCharType (ChunkFramework.bs c) p) as [ct|];
    [destruct ct|]; rewrite ?orb_true_iff, ?unit_eqb;
    intuition (discriminate || auto).
Qed.

Lemma syllabify_absorb (c : ChunkFramework.t) (start end_ : Z)
    (yes : ChunkMarkers.t) :
  ChunkFramework.syllabify c start end_ yes =
    Aux.syllablesOf yes
      match ChunkFramework.chunk start end_ (ChunkFramework.isTsekOrLongSkrtVowel c) with
      | [] => []
      | x :: rest => Aux.absorb x rest
      end.
Proof.
  unfold ChunkFramework.syllabify. rewrite merge_all. reflexivity.
Qed.

(** C4, as the code has it.  Within a range [start, end_), the separators
    are the codepoints of category TSEK and the code units U+0F7F and U+0F71.
    Every syllable that [syllabify] returns carries the label asked for and
    is a span that begins at the start of the range or right after a
    separator, with one or more codepoints that are not separators, and then
    runs through all the separators that follow them: a separator after a
    syllable is the end of that syllable's span, and no span begins with a
    separator.  No span is empty, and every codepoint of the range that is not
    a separator lies in a returned span. *)
Theorem syllabify_spans (c : ChunkFramework.t) (start end_ : Z)
    (yes : ChunkMarkers.t) :
  start <= end_ ->
  let sep := ChunkFramework.isTsekOrLongSkrtVowel c in
  (forall p, sep p = true <->
     BoString.getCharType (ChunkFramework.bs c) p = Some TSEK \/
     Js.idx (BoString.text (ChunkFramework.bs c)) p = Some 0x0F7F \/
     Js.idx (BoString.text (ChunkFramework.bs c)) p = Some 0x0F71) /\
  (forall m s l,
     In (m, s, l) (ChunkFramework.syllabify c start end_ yes) ->
     m = yes /\ Aux.SyllableSpan sep start end_ s l) /\
  (forall p, start <= p < end_ -> sep p = false ->
     exists s l,
       In (yes, s, l) (ChunkFramework.syllabify c start end_ yes) /\
       s <= p < s + l).
Proof.
  intros Hle sep. split; [apply isTsekOrLongSkrtVowel_iff|].
  pose proof (chunk_Runs sep start end_ Hle) as HR.
  rewrite syllabify_absorb. fold sep.
  destruct (ChunkFramework.chunk start end_ sep) as [|[[b a] len] rest].
  - split.
    + intros m s l [].
    + intros p Hp. inversion HR; subst. lia.
  - assert (a = start) by (inversion HR; reflexivity). subst a. split.
    + apply (absorb_spans sep yes start rest b start len end_ HR).
      * lia.
      * left. reflexivity.
    + apply (absorb_covers sep yes rest b start len end_ HR).
Qed.

Lemma syllabify_spans_witness :
  Aux.SyllableSpan
    (ChunkFramework.isTsekOrLongSkrtVowel (Examples.served Examples.twoSyllables))
    0 8 4 4.
Proof.
  assert (Hle : 0 <= 8) by lia.
  destruct (syllabify_spans (Examples.served Examples.twoSyllables) 0 8
              ChunkMarkers.TEXT Hle) as (_ & H & _).
  apply (H ChunkMarkers.TEXT 4 4). right. left. reflexivity.
Defined.

(** C4 as stated fails: for two syllables each closed by a tsek [syllabify]
    returns the spans [0, 4) and [4, 8), and the tsek at offset 3 lies in the
    first. *)
Lemma syllable_span_contains_separator :
  ChunkFramework.syllabify (Examples.served Examples.twoSyllables) 0 8
    ChunkMarkers.TEXT = [(ChunkMarkers.TEXT, 0, 4); (ChunkMarkers.TEXT, 4, 4)] /\
  ChunkFramework.isTsekOrLongSkrtVowel (Examples.served Examples.twoSyllables) 3
    = true /\
  0 <= 3 < 0 + 4.
Proof. split; [reflexivity|]. split; [reflexivity|lia]. Qed.

(** ** BasicTrie: adding, finding, walking and deactivating words *)

Lemma Js_eqb_eq (a b : jstring) : Js.eqb a b = true <-> a = b.
Proof.
  revert b. induction a as [|x a IH]; intros [|y b]; simpl;
    try (split; [discriminate|discriminate]); try tauto.
  rewrite andb_true_iff, Z.eqb_eq, IH. split.
  - intros [-> ->]. reflexivity.
  - intros H. inversion H. auto.
Qed.

Lemma Js_eqb_refl (a : jstring) : Js.eqb a a = true.
Proof. apply Js_eqb_eq. reflexivity. Qed.

Lemma Js_eqb_neq (a b : jstring) : Js.eqb a b = false <-> a <> b.
Proof.
  rewrite <- Js_eqb_eq. destruct (Js.eqb a b); split; congruence.
Qed.

Lemma map_get_set_eq (m : list (jstring * BasicTrie.TrieNode)) (k : jstring)
    (v : BasicTrie.TrieNode) :
  BasicTrie.map_get (BasicTrie.map_set m k v) k = Some v.
Proof.
  induction m as [|[k' v'] m IH]; simpl.
  - rewrite Js_eqb_refl. reflexivity.
  - destruct (Js.eqb k' k) eqn:E; simpl; rewrite E; [reflexivity|exact IH].
Qed.

Lemma map_get_set_other (m : list (jstring * BasicTrie.TrieNode)) (s k : jstring)
    (v : BasicTrie.TrieNode) :
  s <> k ->
  BasicTrie.map_get (BasicTrie.map_set m s v) k = BasicTrie.map_get m k.
Proof.
  intros Hne. induction m as [|[k' v'] m IH]; simpl.
  - apply Js_eqb_neq in Hne. rewrite Hne. reflexivity.
  - destruct (Js.eqb k' s) eqn:E; simpl.
    + apply Js_eqb_eq in E. subst k'. apply Js_eqb_neq in Hne. rewrite Hne.
      reflexivity.
    + rewrite IH. reflexivity.
Qed.

Lemma map_set_set (m : list (jstring * BasicTrie.TrieNode)) (k : jstring)
    (v v' : BasicTrie.TrieNode) :
  BasicTrie.map_set (BasicTrie.map_set m k v) k v' = BasicTrie.map_set m k v'.
Proof.
  induction m as [|[k' v0] m IH]; simpl.
  - rewrite Js_eqb_refl. reflexivity.
  - destruct (Js.eqb k' k) eqn:E; simpl; rewrite E; [reflexivity|].
    rewrite IH. reflexivity.
Qed.

Lemma getChild_setChild_eq (n c : BasicTrie.TrieNode) (k : jstring) :
  BasicTrie.getChild (BasicTrie.setChild n k c) k = Some c.
Proof. apply map_get_set_eq. Qed.

Lemma getChild_setChild_other (n c : BasicTrie.TrieNode) (s k : jstring) :
  s <> k ->
  BasicTrie.getChild (BasicTrie.setChild n s c) k = BasicTrie.getChild n k.
Proof. apply map_get_set_other. Qed.

Lemma setChild_setChild (n c c' : BasicTrie.TrieNode) (k : jstring) :
  BasicTrie.setChild (BasicTrie.setChild n k c) k c' = BasicTrie.setChild n k c'.
Proof.
  unfold BasicTrie.setChild; simpl. rewrite map_set_set. reflexivity.
Qed.

(** [hasWord_loop] succeeds exactly on the paths [find] finds. *)
Lemma hasWord_loop_find (w : list jstring) :
  forall n,
    match BasicTrie.find w n with
    | Some m => BasicTrie.hasWord_loop w n = (true, m)
    | None => fst (BasicTrie.hasWord_loop w n) = false
    end.
Proof.
  induction w as [|k w IH]; intros n; simpl.
  - reflexivity.
  - destruct (BasicTrie.getChild n k) as [c|]; [apply IH|reflexivity].
Qed.

(** The flag of [hasWord] for a path. *)
Lemma hasWord_flag (tr : BasicTrie.t) (w : BasicTrie.word) (b : bool)
    (d : TrieNodeData) :
  BasicTrie.hasWord tr w = Js.Ret (b, d) ->
  b = match BasicTrie.find (BasicTrie.wordArray w) (BasicTrie.head tr) with
      | Some m => BasicTrie.leaf m
      | None => false
      end.
Proof.
  unfold BasicTrie.hasWord. destruct (BasicTrie.isEmptyWord w); [discriminate|].
  pose proof (hasWord_loop_find (BasicTrie.wordArray w) (BasicTrie.head tr)) as H.
  destruct (BasicTrie.find (BasicTrie.wordArray w) (BasicTrie.head tr)) as [m|].
  - rewrite H. destruct (BasicTrie.leaf m); simpl; intros E; inversion E; reflexivity.
  - destruct (BasicTrie.hasWord_loop (BasicTrie.wordArray w) (BasicTrie.head tr))
      as [e n]. simpl in H. subst e. simpl. intros E. inversion E. reflexivity.
Qed.

Lemma hasWord_found (tr : BasicTrie.t) (w : BasicTrie.word) (m : BasicTrie.TrieNode) :
  BasicTrie.isEmptyWord w = false ->
  BasicTrie.find (BasicTrie.wordArray w) (BasicTrie.head tr) = Some m ->
  BasicTrie.hasWord tr w = Js.Ret (BasicTrie.leaf m, BasicTrie.data m).
Proof.
  intros He Hf. unfold BasicTrie.hasWord. rewrite He.
  pose proof (hasWord_loop_find (BasicTrie.wordArray w) (BasicTrie.head tr)) as H.
  rewrite Hf in H. rewrite H. destruct (BasicTrie.leaf m); reflexivity.
Qed.

Lemma hasWord_true_find (tr : BasicTrie.t) (w : BasicTrie.word) (d : TrieNodeData) :
  BasicTrie.hasWord tr w = Js.Ret (true, d) ->
  BasicTrie.isEmptyWord w = false /\
  exists m, BasicTrie.find (BasicTrie.wordArray w) (BasicTrie.head tr) = Some m /\
            BasicTrie.leaf m = true /\ BasicTrie.data m = d.
Proof.
  intros H. pose proof (hasWord_flag _ _ _ _ H) as Hb.
  unfold BasicTrie.hasWord in H.
  destruct (BasicTrie.isEmptyWord w) eqn:He; [discriminate|]. split; [reflexivity|].
  destruct (BasicTrie.find (BasicTrie.wordArray w) (BasicTrie.head tr)) as [m|] eqn:Hf;
    [|discriminate].
  exists m. split; [reflexivity|]. split; [auto|].
  pose proof (hasWord_loop_find (BasicTrie.wordArray w) (BasicTrie.head tr)) as Hl.
  rewrite Hf in Hl. rewrite Hl in H. rewrite <- Hb in H. simpl in H.
  inversion H. reflexivity.
Qed.

Lemma finishAdd_leaf (e : option BasicTrie.AddData) (n : BasicTrie.TrieNode) :
  BasicTrie.leaf (BasicTrie.finishAdd e n) = true /\
  match e with
  | Some e' =>
      BasicTrie.data (BasicTrie.finishAdd e n) =
        BasicTrie.updateNodeData (BasicTrie.data n) e'
  | None => d_senses (BasicTrie.data (BasicTrie.finishAdd e n)) <> None
  end /\
  BasicTrie.children (BasicTrie.finishAdd e n) = BasicTrie.children n.
Proof.
  unfold BasicTrie.finishAdd. destruct e as [e|]; simpl.
  - repeat split.
  - destruct (d_senses (BasicTrie.data n)) eqn:E; simpl; rewrite ?E;
      repeat split; discriminate.
Qed.

Lemma find_addPath (e : option BasicTrie.AddData) (w : list jstring) :
  forall n, exists n0,
    BasicTrie.find w (BasicTrie.addPath w e n) = Some (BasicTrie.finishAdd e n0).
Proof.
  induction w as [|k w IH]; intros n; simpl.
  - exists n. reflexivity.
  - rewrite getChild_setChild_eq. apply IH.
Qed.

Lemma nonempty_word (w : BasicTrie.word) :
  w <> BasicTrie.Str [] -> w <> BasicTrie.Arr [] -> BasicTrie.isEmptyWord w = false.
Proof. destruct w as [[|c s]|[|x a]]; try reflexivity; congruence. Qed.

Lemma opt_eqb_eq {A : Type} (e : A -> A -> bool) :
  (forall x y, e x y = true <-> x = y) ->
  forall a b : option A, BasicTrie.opt_eqb e a b = true <-> a = b.
Proof.
  intros He [x|] [y|]; simpl; try (split; [discriminate|discriminate]).
  - rewrite He. split; congruence.
  - tauto.
Qed.

(** [isDiffMeaning], its name notwithstanding, holds of two senses exactly
    when they read the same under all five keys. *)
Lemma isDiffMeaning_same (m1 m2 : SenseInfo) :
  BasicTrie.isDiffMeaning m1 m2 = true <-> Aux.sameMeaning m1 m2.
Proof.
  unfold BasicTrie.isDiffMeaning, Aux.sameMeaning. rewrite !andb_true_iff.
  rewrite !(opt_eqb_eq Js.eqb Js_eqb_eq), (opt_eqb_eq Z.eqb Z.eqb_eq),
    (opt_eqb_eq Bool.eqb eqb_true_iff).
  tauto.
Qed.

Lemma sameMeaning_refl (m : SenseInfo) : Aux.sameMeaning m m.
Proof. repeat split. Qed.

Lemma sameMeaning_sym (m1 m2 : SenseInfo) :
  Aux.sameMeaning m1 m2 -> Aux.sameMeaning m2 m1.
Proof. intros (H1 & H2 & H3 & H4 & H5). repeat split; congruence. Qed.

Lemma sameMeaning_trans (m1 m2 m3 : SenseInfo) :
  Aux.sameMeaning m1 m2 -> Aux.sameMeaning m2 m3 -> Aux.sameMeaning m1 m3.
Proof.
  intros (H1 & H2 & H3 & H4 & H5) (G1 & G2 & G3 & G4 & G5).
  repeat split; congruence.
Qed.

(** Sense objects that hold exactly their attributes are the same meaning
    only when they are equal. *)
Lemma plain_same (m1 m2 : SenseInfo) :
  Spec.plain m1 -> Spec.plain m2 -> Aux.sameMeaning m1 m2 -> m1 = m2.
Proof.
  unfold Spec.plain, Aux.sameMeaning, s_pos, s_lemma, s_freq, s_sense, s_affixed.
  destruct m1 as [p1 f1 l1 s1 a1 o1], m2 as [p2 f2 l2 s2 a2 o2]. simpl.
  intros (P1 & P2 & P3 & P4 & P5 & ->) (Q1 & Q2 & Q3 & Q4 & Q5 & ->)
         (H1 & H2 & H3 & H4 & H5).
  destruct p1, p2, f1, f2, l1, l2, s1, s2, a1, a2; simpl in *;
    try congruence.
Qed.

Lemma known_meaning (senses : list SenseInfo) (m : SenseInfo) :
  existsb (fun sense => BasicTrie.isDiffMeaning sense m) senses = true <->
  Aux.known senses m.
Proof.
  rewrite existsb_exists. unfold Aux.known.
  split; intros (x & Hin & Hx); exists x; (split; [exact Hin|]);
    apply isDiffMeaning_same; exact Hx.
Qed.

Lemma addMeaning_spec (senses : list SenseInfo) (m : SenseInfo) :
  (Aux.known senses m -> BasicTrie.addMeaning senses m = (senses, false)) /\
  (~ Aux.known senses m -> BasicTrie.addMeaning senses m = (senses ++ [m], true)).
Proof.
  unfold BasicTrie.addMeaning.
  destruct (existsb (fun sense => BasicTrie.isDiffMeaning sense m) senses) eqn:E.
  - apply known_meaning in E. split; [reflexivity|contradiction].
  - split; [|reflexivity]. intros Hin. apply known_meaning in Hin. congruence.
Qed.

Lemma known_snoc (senses : list SenseInfo) (m : SenseInfo) :
  Aux.known (senses ++ [m]) m.
Proof.
  exists m. split; [apply in_or_app; right; left; reflexivity|].
  apply sameMeaning_refl.
Qed.

Lemma addMeaning_member (senses : list SenseInfo) (m : SenseInfo) :
  Aux.known (fst (BasicTrie.addMeaning senses m)) m /\
  (snd (BasicTrie.addMeaning senses m) = true <-> ~ Aux.known senses m) /\
  fst (BasicTrie.addMeaning senses m) =
    if snd (BasicTrie.addMeaning senses m) then senses ++ [m] else senses.
Proof.
  destruct (addMeaning_spec senses m) as (Hin & Hout).
  destruct (existsb (fun sense => BasicTrie.isDiffMeaning sense m) senses) eqn:E.
  - apply known_meaning in E. rewrite (Hin E). simpl.
    split; [exact E|]. split; [|reflexivity].
    split; [discriminate|intros Hn; contradiction].
  - assert (H : ~ Aux.known senses m).
    { intros Hm. apply known_meaning in Hm. congruence. }
    rewrite (Hout H). simpl.
    split; [apply known_snoc|]. split; [|reflexivity].
    split; [intros _; exact H|reflexivity].
Qed.

(** A meaning that is known stays known when further meanings are added. *)
Lemma known_kept (senses : list SenseInfo) (m x : SenseInfo) :
  Aux.known senses m -> Aux.known (fst (BasicTrie.addMeaning senses x)) m.
Proof.
  intros (m' & Hin & Hs).
  rewrite (proj2 (proj2 (addMeaning_member senses x))).
  exists m'. split; [|exact Hs].
  destruct (snd (BasicTrie.addMeaning senses x)); [|exact Hin].
  apply in_or_app. left. exact Hin.
Qed.

Lemma known_kept_all (l senses : list SenseInfo) (m : SenseInfo) :
  Aux.known senses m ->
  Aux.known (fold_left (fun acc sense => fst (BasicTrie.addMeaning acc sense)) l
               senses) m.
Proof.
  revert senses. induction l as [|x l IH]; intros senses H; simpl; [exact H|].
  apply IH. apply known_kept. exact H.
Qed.

(** X1.  Insert, then look up.  After [add(word, data)] of a word that is
    not empty, [hasWord(word)] reports the word as present.  The data it
    returns has a senses array, which holds the meaning of [data] when one of
    the keys [pos], [lemma], [freq] and [sense] of [data] is truthy, unless
    [data] has a key [senses] that holds no array: that value is copied over
    the array, and the data returned has no senses. *)
Theorem add_then_hasWord (tr : BasicTrie.t) (w : BasicTrie.word)
    (e : option BasicTrie.AddData) :
  w <> BasicTrie.Str [] -> w <> BasicTrie.Arr [] ->
  exists d,
    BasicTrie.hasWord (BasicTrie.add tr w e) w = Js.Ret (true, d) /\
    match e with
    | None => d_senses d <> None
    | Some e' =>
        match BasicTrie.e_senses e' with
        | Js.Undefined => d_senses d = None
        | _ =>
            exists l,
              d_senses d = Some l /\
              (BasicTrie.hasSenseKey e' = true ->
               Aux.known l (BasicTrie.asSense e'))
        end
    end.
Proof.
  intros H1 H2.
  destruct (find_addPath e (BasicTrie.wordArray w) (BasicTrie.head tr))
    as (n0 & Hf).
  destruct (finishAdd_leaf e n0) as (Hl & Hd & _).
  exists (BasicTrie.data (BasicTrie.finishAdd e n0)). split.
  - rewrite (hasWord_found (BasicTrie.add tr w e) w _ (nonempty_word w H1 H2) Hf).
    rewrite Hl. reflexivity.
  - destruct e as [e'|]; [|exact Hd]. rewrite Hd.
    unfold BasicTrie.updateNodeData. cbn [d_senses].
    destruct (BasicTrie.e_senses e') as [| |l']; [|reflexivity|].
    + eexists. split; [reflexivity|]. intros ->.
      apply (proj1 (addMeaning_member _ _)).
    + eexists. split; [reflexivity|]. intros ->.
      apply known_kept_all. apply (proj1 (addMeaning_member _ _)).
Qed.

Lemma add_then_hasWord_witness :
  exists d,
    BasicTrie.hasWord
      (BasicTrie.add BasicTrie.make (BasicTrie.Arr [Js.lit "a"; Js.lit "b"])
         (Some Examples.sensesUndefinedData))
      (BasicTrie.Arr [Js.lit "a"; Js.lit "b"]) = Js.Ret (true, d) /\
    d_senses d = None.
Proof.
  apply (add_then_hasWord BasicTrie.make (BasicTrie.Arr [Js.lit "a"; Js.lit "b"])
           (Some Examples.sensesUndefinedData));
    discriminate.
Defined.

Lemma hasWord_missing (tr : BasicTrie.t) (w : BasicTrie.word) :
  BasicTrie.isEmptyWord w = false ->
  BasicTrie.find (BasicTrie.wordArray w) (BasicTrie.head tr) = None ->
  exists d, BasicTrie.hasWord tr w = Js.Ret (false, d).
Proof.
  intros He Hf. unfold BasicTrie.hasWord. rewrite He.
  pose proof (hasWord_loop_find (BasicTrie.wordArray w) (BasicTrie.head tr)) as H.
  rewrite Hf in H.
  destruct (BasicTrie.hasWord_loop (BasicTrie.wordArray w) (BasicTrie.head tr))
    as [b n]. simpl in H. subst b. simpl. eexists. reflexivity.
Qed.

Lemma find_newNode (r : list jstring) (k : jstring) :
  match BasicTrie.find r (BasicTrie.newNode k) with
  | Some m => BasicTrie.leaf m = false
  | None => True
  end.
Proof. destruct r; simpl; auto. Qed.

Lemma addPath_frame (e : option BasicTrie.AddData) (w' : list jstring) :
  forall w n,
    w' <> w ->
    match BasicTrie.find w' n with
    | Some m =>
        exists m', BasicTrie.find w' (BasicTrie.addPath w e n) = Some m' /\
                   BasicTrie.leaf m' = BasicTrie.leaf m /\
                   BasicTrie.data m' = BasicTrie.data m
    | None =>
        match BasicTrie.find w' (BasicTrie.addPath w e n) with
        | Some m' => BasicTrie.leaf m' = false
        | None => True
        end
    end.
Proof.
  induction w' as [|k r IH]; intros w n Hne.
  - destruct w as [|s ws]; [congruence|]. simpl.
    eexists. split; [reflexivity|]. split; reflexivity.
  - destruct w as [|s ws].
    + simpl. unfold BasicTrie.getChild.
      destruct (finishAdd_leaf e n) as (_ & _ & ->).
      destruct (BasicTrie.map_get (BasicTrie.children n) k) as [c|]; [|exact I].
      destruct (BasicTrie.find r c) as [m|]; [|exact I].
      exists m. repeat split; reflexivity.
    + simpl. destruct (Js.eqb s k) eqn:E.
      * apply Js_eqb_eq in E. subst s. rewrite getChild_setChild_eq.
        assert (Hr : r <> ws) by congruence.
        destruct (BasicTrie.getChild n k) as [c|]; [apply IH; assumption|].
        specialize (IH ws (BasicTrie.newNode k) Hr).
        pose proof (find_newNode r k) as Hn.
        destruct (BasicTrie.find r (BasicTrie.newNode k)) as [m|].
        -- destruct IH as (m' & -> & Hl & _). congruence.
        -- exact IH.
      * apply Js_eqb_neq in E. rewrite getChild_setChild_other by assumption.
        destruct (BasicTrie.getChild n k) as [c|]; [|exact I].
        destruct (BasicTrie.find r c) as [m|]; [|exact I].
        exists m. repeat split; reflexivity.
Qed.

(** X2.  Adding a word leaves the other words as they were.  For a word [w']
    whose syllables are not those of the added word, [hasWord(w')] returns
    the same flag before and after the [add], and for a word that is present
    also the same data. *)
Theorem add_keeps_other_words (tr : BasicTrie.t) (w w' : BasicTrie.word)
    (e : option BasicTrie.AddData) :
  w' <> BasicTrie.Str [] -> w' <> BasicTrie.Arr [] ->
  BasicTrie.wordArray w' <> BasicTrie.wordArray w ->
  exists b d d',
    BasicTrie.hasWord tr w' = Js.Ret (b, d) /\
    BasicTrie.hasWord (BasicTrie.add tr w e) w' = Js.Ret (b, d') /\
    (b = true -> d' = d).
Proof.
  intros H1 H2 Hne. pose proof (nonempty_word w' H1 H2) as He.
  pose proof (addPath_frame e _ (BasicTrie.wordArray w) (BasicTrie.head tr) Hne) as H.
  destruct (BasicTrie.find (BasicTrie.wordArray w') (BasicTrie.head tr)) as [m|] eqn:Hf.
  - destruct H as (m' & Hf' & Hl & Hd).
    exists (BasicTrie.leaf m), (BasicTrie.data m), (BasicTrie.data m').
    split; [apply hasWord_found; assumption|]. split.
    + rewrite <- Hl. apply hasWord_found; assumption.
    + intros _. assumption.
  - destruct (hasWord_missing tr w' He Hf) as (d & Hd).
    destruct (BasicTrie.find (BasicTrie.wordArray w')
                (BasicTrie.head (BasicTrie.add tr w e))) as [m'|] eqn:Hf'.
    + simpl in Hf'. rewrite Hf' in H.
      exists false, d, (BasicTrie.data m'). split; [assumption|]. split.
      * rewrite <- H. apply hasWord_found; assumption.
      * discriminate.
    + destruct (hasWord_missing _ w' He Hf') as (d' & Hd').
      exists false, d, d'. split; [assumption|]. split; [assumption|discriminate].
Qed.

Lemma add_keeps_other_words_witness :
  exists b d d',
    BasicTrie.hasWord Examples.twoLevelTrie (BasicTrie.Arr [Js.lit "a"]) =
      Js.Ret (b, d) /\
    BasicTrie.hasWord
      (BasicTrie.add Examples.twoLevelTrie (BasicTrie.Arr [Js.lit "c"]) None)
      (BasicTrie.Arr [Js.lit "a"]) = Js.Ret (b, d') /\
    (b = true -> d' = d).
Proof.
  apply (add_keeps_other_words Examples.twoLevelTrie (BasicTrie.Arr [Js.lit "c"])
           (BasicTrie.Arr [Js.lit "a"]) None); discriminate.
Defined.

Lemma update_update (f g : BasicTrie.TrieNode -> BasicTrie.TrieNode)
    (w : list jstring) :
  forall n m,
    BasicTrie.find w n = Some m ->
    BasicTrie.update w g (BasicTrie.update w f n) =
    BasicTrie.update w (fun x => g (f x)) n.
Proof.
  induction w as [|k w IH]; intros n m Hf; simpl in *.
  - reflexivity.
  - destruct (BasicTrie.getChild n k) as [c|] eqn:E; [|discriminate].
    rewrite getChild_setChild_eq, setChild_setChild.
    rewrite (IH c m Hf). reflexivity.
Qed.

Lemma update_data (f : BasicTrie.TrieNode -> BasicTrie.TrieNode) :
  (forall x, BasicTrie.data (f x) = BasicTrie.data x) ->
  forall w n, BasicTrie.data (BasicTrie.update w f n) = BasicTrie.data n.
Proof.
  intros Hd [|k w] n; simpl; [apply Hd|].
  destruct (BasicTrie.getChild n k); reflexivity.
Qed.

Lemma update_leaf (f : BasicTrie.TrieNode -> BasicTrie.TrieNode)
    (k : jstring) (w : list jstring) (n : BasicTrie.TrieNode) :
  BasicTrie.leaf (BasicTrie.update (k :: w) f n) = BasicTrie.leaf n.
Proof. simpl. destruct (BasicTrie.getChild n k); reflexivity. Qed.

(** A write at the end of the path [w] that keeps children and data does not
    change what [hasWord_loop] finds for another path. *)
Lemma hasWord_loop_update (f : BasicTrie.TrieNode -> BasicTrie.TrieNode) :
  (forall x, BasicTrie.children (f x) = BasicTrie.children x) ->
  (forall x, BasicTrie.data (f x) = BasicTrie.data x) ->
  forall w' w n,
    w' <> w ->
    fst (BasicTrie.hasWord_loop w' (BasicTrie.update w f n)) =
      fst (BasicTrie.hasWord_loop w' n) /\
    BasicTrie.data (snd (BasicTrie.hasWord_loop w' (BasicTrie.update w f n))) =
      BasicTrie.data (snd (BasicTrie.hasWord_loop w' n)) /\
    (fst (BasicTrie.hasWord_loop w' n) = true ->
     BasicTrie.leaf (snd (BasicTrie.hasWord_loop w' (BasicTrie.update w f n))) =
       BasicTrie.leaf (snd (BasicTrie.hasWord_loop w' n))).
Proof.
  intros Hc Hd. induction w' as [|k r IH]; intros w n Hne.
  - destruct w as [|s ws]; [congruence|].
    cbn [BasicTrie.hasWord_loop fst snd].
    rewrite update_data by assumption. rewrite update_leaf. auto.
  - destruct w as [|s ws].
    + simpl. unfold BasicTrie.getChild. rewrite Hc.
      destruct (BasicTrie.map_get (BasicTrie.children n) k) as [c|]; simpl.
      * auto.
      * rewrite Hd. split; [reflexivity|]. split; [reflexivity|discriminate].
    + cbn [BasicTrie.update].
      destruct (BasicTrie.getChild n s) as [c0|] eqn:Es; [|auto].
      cbn [BasicTrie.hasWord_loop].
      destruct (Js.eqb s k) eqn:E.
      * apply Js_eqb_eq in E. subst s. rewrite getChild_setChild_eq, Es.
        apply IH. congruence.
      * apply Js_eqb_neq in E. rewrite getChild_setChild_other by assumption.
        destruct (BasicTrie.getChild n k) as [c|]; [auto|].
        simpl. split; [reflexivity|]. split; [reflexivity|discriminate].
Qed.

Lemma setLeaf_restore (m : BasicTrie.TrieNode) :
  BasicTrie.leaf m = true ->
  BasicTrie.setLeaf true (BasicTrie.setLeaf false m) = m.
Proof. destruct m; simpl; intros ->; reflexivity. Qed.

(** X3.  Deactivate, then reactivate.  For a word that [hasWord] reports present,
    [deactivate(word)] returns true and gives a trie in which [hasWord(word)]
    is false with the same data, every other word answers as before, and
    [deactivate(word, true)] on that trie returns true and gives back the
    trie one started from. *)
Theorem deactivate_then_reactivate (tr : BasicTrie.t) (w : BasicTrie.word)
    (d : TrieNodeData) :
  BasicTrie.hasWord tr w = Js.Ret (true, d) ->
  exists tr1,
    BasicTrie.deactivate tr w false = Js.Ret (true, tr1) /\
    BasicTrie.hasWord tr1 w = Js.Ret (false, d) /\
    (forall w', BasicTrie.wordArray w' <> BasicTrie.wordArray w ->
                BasicTrie.hasWord tr1 w' = BasicTrie.hasWord tr w') /\
    BasicTrie.deactivate tr1 w true = Js.Ret (true, tr).
Proof.
  intros H. destruct (hasWord_true_find _ _ _ H) as (He & m & Hf & Hl & Hd).
  exists {| BasicTrie.head :=
              BasicTrie.update (BasicTrie.wordArray w) (BasicTrie.setLeaf false)
                (BasicTrie.head tr) |}.
  split.
  { unfold BasicTrie.deactivate. rewrite He, Hf. reflexivity. }
  pose proof (find_update (BasicTrie.setLeaf false) _ _ _ Hf) as Hf1.
  split; [|split].
  - rewrite (hasWord_found {| BasicTrie.head := _ |} w _ He Hf1). simpl.
    rewrite Hd. reflexivity.
  - intros w' Hne. unfold BasicTrie.hasWord.
    destruct (BasicTrie.isEmptyWord w'); [reflexivity|].
    cbn [BasicTrie.head].
    destruct (hasWord_loop_update (BasicTrie.setLeaf false)
                (fun x => eq_refl) (fun x => eq_refl)
                (BasicTrie.wordArray w') (BasicTrie.wordArray w)
                (BasicTrie.head tr) Hne) as (Hb & Hdat & Hleaf).
    destruct (BasicTrie.hasWord_loop (BasicTrie.wordArray w')
                (BasicTrie.update (BasicTrie.wordArray w)
                   (BasicTrie.setLeaf false) (BasicTrie.head tr))) as [b1 n1].
    destruct (BasicTrie.hasWord_loop (BasicTrie.wordArray w') (BasicTrie.head tr))
      as [b0 n0].
    simpl in Hb, Hdat, Hleaf. subst b1. rewrite Hdat.
    destruct b0; simpl; [rewrite (Hleaf eq_refl)|]; reflexivity.
  - unfold BasicTrie.deactivate. rewrite He. cbn [BasicTrie.head]. rewrite Hf1.
    rewrite (update_update _ _ _ _ _ Hf).
    rewrite (update_fixed _ _ _ m Hf (setLeaf_restore m Hl)).
    destruct tr; reflexivity.
Qed.

Lemma deactivate_then_reactivate_witness :
  exists tr1,
    BasicTrie.deactivate Examples.twoLevelTrie
      (BasicTrie.Arr [Js.lit "a"; Js.lit "b"]) false = Js.Ret (true, tr1) /\
    BasicTrie.deactivate tr1 (BasicTrie.Arr [Js.lit "a"; Js.lit "b"]) true =
      Js.Ret (true, Examples.twoLevelTrie).
Proof.
  destruct (deactivate_then_reactivate Examples.twoLevelTrie
              (BasicTrie.Arr [Js.lit "a"; Js.lit "b"])
              (mkData (Some tt) (Some []) None None None None) eq_refl)
    as (tr1 & H1 & _ & _ & H2).
  exists tr1. split; assumption.
Defined.

Lemma known_plain (senses : list SenseInfo) (m : SenseInfo) :
  Forall Spec.plain senses -> Spec.plain m ->
  (Aux.known senses m <-> In m senses).
Proof.
  intros Hall Hm. split.
  - intros (m' & Hm' & Hs).
    rewrite <- (plain_same m' m (proj1 (Forall_forall _ _) Hall m' Hm') Hm Hs).
    exact Hm'.
  - intros H. exists m. split; [exact H|apply sameMeaning_refl].
Qed.

Lemma addMeaning_plain (senses : list SenseInfo) (m : SenseInfo) :
  Forall Spec.plain senses -> Spec.plain m ->
  In m (fst (BasicTrie.addMeaning senses m)) /\
  (snd (BasicTrie.addMeaning senses m) = true <-> ~ In m senses).
Proof.
  intros Hall Hm. destruct (addMeaning_spec senses m) as (Hin & Hout).
  pose proof (known_plain senses m Hall Hm) as Hk.
  destruct (existsb (fun sense => BasicTrie.isDiffMeaning sense m) senses) eqn:E.
  - apply known_meaning in E. rewrite (Hin E). simpl.
    split; [apply Hk; exact E|].
    split; [discriminate|]. intros Hn. exfalso. apply Hn, Hk. exact E.
  - assert (H : ~ Aux.known senses m).
    { intros Hx. apply known_meaning in Hx. congruence. }
    rewrite (Hout H). simpl.
    split; [apply in_or_app; right; left; reflexivity|].
    split; [|reflexivity]. intros _ Hn. apply H, Hk. exact Hn.
Qed.

Lemma distinct_snoc (senses : list SenseInfo) (m : SenseInfo) :
  Aux.distinctMeanings senses -> ~ Aux.known senses m ->
  Aux.distinctMeanings (senses ++ [m]).
Proof.
  unfold Aux.distinctMeanings. intros Hd.
  induction Hd as [|a l Ha Hd IH]; intros Hk; simpl.
  - repeat constructor.
  - constructor.
    + apply Forall_app. split; [exact Ha|]. constructor; [|constructor].
      intros Hs. apply Hk. exists a. split; [left; reflexivity|exact Hs].
    + apply IH. intros (m' & Hm' & Hs). apply Hk. exists m'.
      split; [right; exact Hm'|exact Hs].
Qed.

(** X4.  [addMeaning] keeps the senses free of repeats.  It appends the meaning
    and returns true exactly when no sense of the array is equal to it on the
    five keys; otherwise the array is as before and false is returned.  After
    the call the array holds a sense equal to the meaning on the five keys
    (the meaning itself when it was appended, and in any case when the senses
    are objects that hold exactly their attributes), a second call with the
    same meaning returns false and changes nothing, and an array without
    repeats stays without repeats. *)
Theorem addMeaning_idempotent (senses : list SenseInfo) (m : SenseInfo) :
  let after := fst (BasicTrie.addMeaning senses m) in
  let flag := snd (BasicTrie.addMeaning senses m) in
  Aux.known after m /\
  (flag = true <-> ~ Aux.known senses m) /\
  (flag = false -> after = senses) /\
  (flag = true -> after = senses ++ [m]) /\
  BasicTrie.addMeaning after m = (after, false) /\
  (NoDup senses -> NoDup after) /\
  (Aux.distinctMeanings senses -> Aux.distinctMeanings after) /\
  (Forall Spec.plain senses -> Spec.plain m ->
   In m after /\ (flag = true <-> ~ In m senses)).
Proof.
  cbv zeta. destruct (addMeaning_spec senses m) as (Hin & Hout).
  pose proof (addMeaning_plain senses m) as Hplain.
  destruct (existsb (fun sense => BasicTrie.isDiffMeaning sense m) senses) eqn:E.
  - apply known_meaning in E. rewrite (Hin E) in *. cbn [fst snd] in *.
    split; [exact E|].
    split; [split; [discriminate|intros Hn; contradiction]|].
    split; [reflexivity|]. split; [discriminate|].
    split; [apply Hin; exact E|]. split; [auto|]. split; [auto|exact Hplain].
  - assert (H : ~ Aux.known senses m).
    { intros Hm. apply known_meaning in Hm. congruence. }
    rewrite (Hout H) in *. cbn [fst snd] in *.
    split; [apply known_snoc|].
    split; [split; [intros _; exact H|reflexivity]|].
    split; [discriminate|]. split; [reflexivity|].
    split; [apply (proj1 (addMeaning_spec (senses ++ [m]) m)); apply known_snoc|].
    split; [|split; [|exact Hplain]].
    + intros Hnd. apply NoDup_app; [assumption|constructor; [intros []|constructor]|].
      intros x Hx [Ex|[]]. apply H. exists x. split; [exact Hx|].
      rewrite Ex. apply sameMeaning_refl.
    + intros Hd. apply distinct_snoc; assumption.
Qed.

Lemma addMeaning_idempotent_witness :
  BasicTrie.addMeaning
    (fst (BasicTrie.addMeaning [] (mkSense (Some (Js.lit "NOUN")) None None None None)))
    (mkSense (Some (Js.lit "NOUN")) None None None None) =
  ([mkSense (Some (Js.lit "NOUN")) None None None None], false) /\
  NoDup (fst (BasicTrie.addMeaning []
                (mkSense (Some (Js.lit "NOUN")) None None None None))).
Proof.
  pose proof (addMeaning_idempotent []
                (mkSense (Some (Js.lit "NOUN")) None None None None)) as H.
  cbv zeta in H. destruct H as (_ & _ & _ & _ & H5 & H6 & _).
  split; [exact H5|apply H6; constructor].
Defined.

(** X5.  [addData] on a word that is present.  A number becomes the node's
    [formFreq] and true is returned; an object is added to the node's senses
    through [addMeaning], whose flag is returned: the senses that were there
    are kept, and the object is appended exactly when none of them is equal
    to it on the five keys.  In both cases the word is still present
    afterwards and the rest of its data is as before. *)
Theorem addData_then_hasWord (tr : BasicTrie.t) (w : BasicTrie.word)
    (d : TrieNodeData) :
  BasicTrie.hasWord tr w = Js.Ret (true, d) ->
  (forall n, exists tr' d',
     BasicTrie.addData tr w (BasicTrie.DNumber n) = Js.Ret (true, tr') /\
     BasicTrie.hasWord tr' w = Js.Ret (true, d') /\
     d_formFreq d' = Some n /\ d_senses d' = d_senses d /\
     d_affixation d' = d_affixation d /\ d_sanskrit d' = d_sanskrit d /\
     d_version d' = d_version d /\ d_underscore d' = d_underscore d) /\
  (forall m, exists flag tr' d' senses,
     BasicTrie.addData tr w (BasicTrie.DObject m) = Js.Ret (flag, tr') /\
     BasicTrie.hasWord tr' w = Js.Ret (true, d') /\
     d_senses d' = Some senses /\
     senses = (if flag then BasicTrie.senses_or_empty d ++ [m]
               else BasicTrie.senses_or_empty d) /\
     Aux.known senses m /\
     (flag = true <-> ~ Aux.known (BasicTrie.senses_or_empty d) m) /\
     (Forall Spec.plain (BasicTrie.senses_or_empty d) -> Spec.plain m ->
      In m senses /\ (flag = true <-> ~ In m (BasicTrie.senses_or_empty d))) /\
     d_formFreq d' = d_formFreq d /\
     d_affixation d' = d_affixation d /\ d_sanskrit d' = d_sanskrit d /\
     d_version d' = d_version d /\ d_underscore d' = d_underscore d).
Proof.
  intros H. destruct (hasWord_true_find _ _ _ H) as (He & node & Hf & Hl & Hd).
  split.
  - intros n. unfold BasicTrie.addData. rewrite He, Hf, Hl. cbn [negb].
    do 2 eexists. split; [reflexivity|].
    match goal with
    | |- BasicTrie.hasWord {| BasicTrie.head := BasicTrie.update _ ?f _ |} _ = _ /\ _ =>
        pose proof (find_update f _ _ _ Hf) as Hf1
    end.
    rewrite (hasWord_found {| BasicTrie.head := _ |} w _ He Hf1).
    cbn [BasicTrie.setData BasicTrie.leaf BasicTrie.data]. rewrite Hl.
    split; [reflexivity|]. subst d. repeat split; reflexivity.
  - intros m. unfold BasicTrie.addData. rewrite He, Hf, Hl. cbn [negb].
    pose proof (addMeaning_member
                  (BasicTrie.senses_or_empty (BasicTrie.data node)) m) as Hi.
    pose proof (addMeaning_plain
                  (BasicTrie.senses_or_empty (BasicTrie.data node)) m) as Hp.
    destruct (BasicTrie.addMeaning (BasicTrie.senses_or_empty (BasicTrie.data node)) m)
      as [senses flag] eqn:Ea.
    cbn [fst snd] in Hi. destruct Hi as (Hin & Hflag & Hsenses).
    exists flag. do 2 eexists. exists senses.
    split; [reflexivity|].
    match goal with
    | |- BasicTrie.hasWord {| BasicTrie.head := BasicTrie.update _ ?f _ |} _ = _ /\ _ =>
        pose proof (find_update f _ _ _ Hf) as Hf1
    end.
    rewrite (hasWord_found {| BasicTrie.head := _ |} w _ He Hf1).
    cbn [BasicTrie.setData BasicTrie.leaf BasicTrie.data]. rewrite Hl.
    split; [reflexivity|]. subst d.
    split; [reflexivity|]. split; [exact Hsenses|]. split; [exact Hin|].
    split; [exact Hflag|]. split; [|repeat split].
    exact Hp.
Qed.

Lemma addData_then_hasWord_witness :
  exists tr' d',
    BasicTrie.addData Examples.twoLevelTrie (BasicTrie.Arr [Js.lit "a"; Js.lit "b"])
      (BasicTrie.DNumber 7) = Js.Ret (true, tr') /\
    BasicTrie.hasWord tr' (BasicTrie.Arr [Js.lit "a"; Js.lit "b"]) = Js.Ret (true, d') /\
    d_formFreq d' = Some 7.
Proof.
  destruct (addData_then_hasWord Examples.twoLevelTrie
              (BasicTrie.Arr [Js.lit "a"; Js.lit "b"])
              (mkData (Some tt) (Some []) None None None None) eq_refl)
    as (Hn & _).
  destruct (Hn 7) as (tr' & d' & H1 & H2 & H3 & _).
  exists tr', d'. repeat split; assumption.
Defined.

Lemma walkFrom_find (tr : BasicTrie.t) (w : list jstring) :
  forall n, Aux.walkFrom tr (Some n) w = BasicTrie.find w n.
Proof.
  induction w as [|k w IH]; intros n; simpl.
  - reflexivity.
  - unfold BasicTrie.walk.
    destruct (BasicTrie.getChild n k) as [c|]; [apply IH|reflexivity].
Qed.

(** X6.  [hasWord] and the engine's walk agree.  Walking the syllables of a word
    with [walk], each call from the node the call before returned and the
    first from no node (which [walk] takes to be the root), ends on a node
    that [isMatch] exactly when [hasWord] reports the word as present, and the
    data [hasWord] returns is the data of that node. *)
Theorem hasWord_iff_walk (tr : BasicTrie.t) (syllables : list jstring)
    (d : TrieNodeData) :
  BasicTrie.hasWord tr (BasicTrie.Arr syllables) = Js.Ret (true, d) <->
  exists node,
    Aux.walkFrom tr None syllables = Some node /\
    BasicTrie.isMatch node = true /\ BasicTrie.data node = d.
Proof.
  destruct syllables as [|k r].
  - simpl. split; [discriminate|]. intros (node & H & _). discriminate.
  - assert (Hw : Aux.walkFrom tr None (k :: r) =
                 BasicTrie.find (k :: r) (BasicTrie.head tr)).
    { simpl. unfold BasicTrie.walk.
      destruct (BasicTrie.getChild (BasicTrie.head tr) k) as [c|];
        [apply walkFrom_find|reflexivity]. }
    rewrite Hw. split.
    + intros H. destruct (hasWord_true_find _ _ _ H) as (_ & m & Hf & Hl & Hd).
      exists m. auto.
    + intros (node & Hf & Hl & Hd).
      rewrite (hasWord_found tr (BasicTrie.Arr (k :: r)) node eq_refl Hf).
      unfold BasicTrie.isMatch in Hl. rewrite Hl, Hd. reflexivity.
Qed.

(** ** ChunkFramework: chunkUsing, pipeChunk and getChunked *)

Lemma ChunkMarkers_eqb_eq (a b : ChunkMarkers.t) :
  ChunkMarkers.eqb a b = true <-> a = b.
Proof. destruct a, b; simpl; split; intros H; try reflexivity; discriminate H. Qed.

Section Labelling.

Variable label : Z -> ChunkMarkers.t.

Lemma LRuns_le (a b : Z) (l : list ChunkFramework.triple) :
  Aux.LRuns label a b l -> a <= b.
Proof. induction 1; lia. Qed.

Lemma LRuns_snoc (a s : Z) (l : list ChunkFramework.triple) (c : ChunkMarkers.t)
    (len : Z) :
  Aux.LRuns label a s l ->
  0 < len ->
  (forall p, s <= p < s + len -> label p = c) ->
  (a = s \/ label (s - 1) <> c) ->
  Aux.LRuns label a (s + len) (l ++ [(c, s, len)]).
Proof.
  intros HR Hlen Hrun. induction HR as [a|a len' c' b l Hlen' Hrun' Hmax HR IH];
    intros Hleft; simpl.
  - constructor; auto. constructor.
  - pose proof (LRuns_le _ _ _ HR) as Hle.
    constructor; auto.
    + destruct Hmax as [Heq|Hneg]; [|right; assumption].
      right. subst b.
      destruct Hleft as [Hbad|Hprev]; [lia|].
      rewrite (Hrun (a + len')) by lia.
      rewrite (Hrun' (a + len' - 1)) in Hprev by lia. congruence.
    + apply IH; [exact Hrun|].
      destruct Hleft as [Hbad|Hprev]; [lia|right; assumption].
Qed.

Lemma LRuns_Tiling (a b : Z) (l : list ChunkFramework.triple) :
  Aux.LRuns label a b l -> Aux.Tiling a b l.
Proof. induction 1; constructor; assumption. Qed.

Lemma LRuns_labels (a b : Z) (l : list ChunkFramework.triple) :
  Aux.LRuns label a b l ->
  forall m s len, In (m, s, len) l ->
    a <= s /\ 0 < len /\ s + len <= b /\
    forall p, s <= p < s + len -> label p = m.
Proof.
  induction 1 as [a|a len c b l Hlen Hrun Hmax HR IH]; intros m s len0 Hin.
  - destruct Hin.
  - pose proof (LRuns_le _ _ _ HR) as Hle.
    destruct Hin as [E|Hin].
    + inversion E; subst. repeat split; try lia. assumption.
    + destruct (IH _ _ _ Hin) as (H1 & H2 & H3 & H4). repeat split; try lia.
      assumption.
Qed.

Lemma LRuns_adjacent (a b : Z) (l : list ChunkFramework.triple) :
  Aux.LRuns label a b l -> Aux.adjacentDiffer l.
Proof.
  induction 1 as [a|a len c b l Hlen Hrun Hmax HR IH]; simpl; [exact I|].
  destruct l as [|[[c' s'] len'] l']; [exact I|]. split; [|assumption].
  inversion HR as [|? ? ? ? ? Hlen' Hrun' Hmax' HR']; subst.
  pose proof (LRuns_le _ _ _ HR') as Hle.
  destruct Hmax as [Hbad|Hne]; [lia|].
  rewrite (Hrun' (a + len)) in Hne by lia. congruence.
Qed.

Lemma LRuns_covers (a b : Z) (l : list ChunkFramework.triple) :
  Aux.LRuns label a b l ->
  forall p, a <= p < b -> exists m s len, In (m, s, len) l /\ s <= p < s + len.
Proof.
  induction 1 as [a|a len c b l Hlen Hrun Hmax HR IH]; intros p Hp; [lia|].
  destruct (Z.lt_ge_cases p (a + len)) as [Hin|Hout].
  - exists c, a, len. split; [left; reflexivity|lia].
  - destruct (IH p) as (m & s & len0 & Hin & Hs); [lia|].
    exists m, s, len0. split; [right; assumption|assumption].
Qed.

End Labelling.

Lemma Tiling_le (a b : Z) (l : list ChunkFramework.triple) :
  Aux.Tiling a b l -> a <= b.
Proof. induction 1; lia. Qed.

Lemma Tiling_total (a b : Z) (l : list ChunkFramework.triple) :
  Aux.Tiling a b l -> Aux.totalLength l = b - a.
Proof.
  induction 1 as [a|a len m b l Hlen HT IH]; [simpl; lia|].
  change (Aux.totalLength ((m, a, len) :: l)) with (len + Aux.totalLength l).
  rewrite IH. lia.
Qed.

Lemma Tiling_app (a m b : Z) (l1 l2 : list ChunkFramework.triple) :
  Aux.Tiling a m l1 -> Aux.Tiling m b l2 -> Aux.Tiling a b (l1 ++ l2).
Proof.
  induction 1 as [a|a len c m l Hlen HT IH]; intros H2; simpl; [assumption|].
  constructor; auto.
Qed.

Lemma chunkUsing_loop_inv (test : Z -> bool) (yes no : ChunkMarkers.t)
    (start : Z) (n : nat) :
  let label := fun p => if test p then yes else no in
  forall i chunks currentStart currentType,
    Aux.chunkUsingInv label start i (chunks, currentStart, currentType) ->
    Aux.chunkUsingInv label start (i + Z.of_nat n)
      (ChunkFramework.chunkUsing_loop test yes no n i chunks currentStart
         currentType).
Proof.
  intros label. induction n as [|n IH]; intros i chunks cs ct Hinv.
  - simpl. replace (i + 0) with i by lia. assumption.
  - replace (i + Z.of_nat (S n)) with ((i + 1) + Z.of_nat n) by lia.
    simpl ChunkFramework.chunkUsing_loop. fold (label i).
    destruct ct as [c|].
    + destruct Hinv as (Hcs & HR & Hrun & Hleft).
      destruct (ChunkMarkers.eqb c (label i)) eqn:E.
      * apply IH. apply ChunkMarkers_eqb_eq in E. simpl. repeat split; try lia; auto.
        intros p Hp. destruct (Z.eq_dec p i) as [->|Hne]; [auto|apply Hrun; lia].
      * apply IH.
        assert (Hne : c <> label i).
        { intros Hc. apply ChunkMarkers_eqb_eq in Hc. congruence. }
        simpl. split; [lia|]. split.
        -- replace i with (cs + (i - cs)) at 1 by lia.
           apply LRuns_snoc; auto; try lia.
           ++ intros p Hp. apply Hrun. lia.
           ++ destruct Hleft; [left; lia|right; assumption].
        -- split.
           ++ intros p Hp. replace p with i by lia. reflexivity.
           ++ right. rewrite (Hrun (i - 1)) by lia. assumption.
    + destruct Hinv as (-> & ->). apply IH. simpl.
      split; [lia|]. split; [constructor|]. split.
      * intros p Hp. replace p with start by lia. reflexivity.
      * left. reflexivity.
Qed.

Lemma chunkUsing_LRuns (test : Z -> bool) (start end_ : Z)
    (yes no : ChunkMarkers.t) :
  start <= end_ ->
  Aux.LRuns (fun p => if test p then yes else no) start end_
    (ChunkFramework.chunkUsing test start end_ yes no).
Proof.
  intros Hle. unfold ChunkFramework.chunkUsing.
  pose proof (chunkUsing_loop_inv test yes no start (Z.to_nat (end_ - start))
                start [] start None) as Hinv.
  cbv zeta in Hinv.
  replace (start + Z.of_nat (Z.to_nat (end_ - start))) with end_ in Hinv by lia.
  destruct (ChunkFramework.chunkUsing_loop test yes no (Z.to_nat (end_ - start))
              start [] start None) as [[chunks cs] ct].
  specialize (Hinv (conj eq_refl eq_refl)). simpl in Hinv.
  destruct ct as [c|].
  - destruct Hinv as (Hcs & HR & Hrun & Hleft).
    destruct (Z.ltb_spec cs end_) as [Hlt|Hge]; [|lia].
    replace end_ with (cs + (end_ - cs)) at 1 by lia.
    apply LRuns_snoc; auto; try lia.
    + intros p Hp. apply Hrun. lia.
    + destruct Hleft; [left; lia|right; assumption].
  - destruct Hinv as (-> & <-). constructor.
Qed.

(** X7.  What one chunking pass returns.  For [start <= end], the chunks of
    [chunkUsing] tile the range: each starts where the one before ends, none
    is empty, and their lengths add up to [end - start].  A chunk is labelled
    [yesValue] where the test holds on it and [noValue] where it fails, the
    test being the same on all of the chunk, and neighbouring chunks carry
    different labels.  Every offset of the range lies in a chunk. *)
Theorem chunkUsing_tiles (test : Z -> bool) (start end_ : Z)
    (yes no : ChunkMarkers.t) :
  start <= end_ ->
  let chunks := ChunkFramework.chunkUsing test start end_ yes no in
  Aux.Tiling start end_ chunks /\
  Aux.totalLength chunks = end_ - start /\
  Aux.adjacentDiffer chunks /\
  (forall m s len, In (m, s, len) chunks ->
     start <= s /\ 0 < len /\ s + len <= end_ /\
     forall p, s <= p < s + len -> m = if test p then yes else no) /\
  (forall p, start <= p < end_ ->
     exists m s len, In (m, s, len) chunks /\ s <= p < s + len).
Proof.
  intros Hle chunks. pose proof (chunkUsing_LRuns test start end_ yes no Hle) as HR.
  fold chunks in HR.
  split; [eapply LRuns_Tiling; exact HR|].
  split; [apply Tiling_total; eapply LRuns_Tiling; exact HR|].
  split; [eapply LRuns_adjacent; exact HR|]. split.
  - intros m s len Hin.
    destruct (LRuns_labels _ _ _ _ HR m s len Hin) as (H1 & H2 & H3 & H4).
    repeat split; try assumption. intros p Hp. symmetry. apply (H4 p Hp).
  - apply (LRuns_covers _ _ _ _ HR).
Qed.

Lemma chunkUsing_tiles_witness :
  Aux.totalLength
    (ChunkFramework.chunkBoText (Examples.served Examples.mixed) 0 3
       ChunkMarkers.BO ChunkMarkers.OTHER) = 3 - 0.
Proof.
  assert (Hle : 0 <= 3) by lia.
  pose proof (chunkUsing_tiles
                (ChunkFramework.isBoUnicode (Examples.served Examples.mixed)) 0 3
                ChunkMarkers.BO ChunkMarkers.OTHER Hle) as H.
  cbv zeta in H. destruct H as (_ & H & _). exact H.
Defined.

(** X8.  Piping keeps the tiling.  When [chunks] tile a range, so does
    [pipeChunk(chunks, chunkFn, target, yes)] for a chunker that is
    [chunkUsing] with some test, as all the named chunkers are: the lengths
    still add up to the length of the range, a chunk whose label is not
    [target] is passed through, and every new chunk lies inside a chunk
    labelled [target] and is labelled [yes] or [target]. *)
Theorem pipeChunk_tiles (test : Z -> bool) (a b : Z)
    (chunks : list ChunkFramework.triple) (target yes : ChunkMarkers.t) :
  Aux.Tiling a b chunks ->
  let piped :=
    ChunkFramework.pipeChunk chunks (ChunkFramework.chunkUsing test) target yes in
  Aux.Tiling a b piped /\
  Aux.totalLength piped = b - a /\
  (forall m s len, In (m, s, len) chunks -> m <> target -> In (m, s, len) piped) /\
  (forall m s len, In (m, s, len) piped ->
     In (m, s, len) chunks \/
     ((m = yes \/ m = target) /\
      exists s0 len0, In (target, s0, len0) chunks /\
                      s0 <= s /\ 0 < len /\ s + len <= s0 + len0)).
Proof.
  intros HT piped.
  assert (Htile : Aux.Tiling a b piped).
  { subst piped. unfold ChunkFramework.pipeChunk.
    induction HT as [a|a len m b l Hlen HT IH]; simpl; [constructor|].
    destruct (ChunkMarkers.eqb m target).
    - eapply Tiling_app; [|exact IH].
      eapply LRuns_Tiling. apply chunkUsing_LRuns. lia.
    - constructor; assumption. }
  split; [exact Htile|]. split; [apply Tiling_total; exact Htile|]. split.
  - intros m s len Hin Hne. subst piped. unfold ChunkFramework.pipeChunk.
    apply in_flat_map. exists (m, s, len). split; [assumption|].
    destruct (ChunkMarkers.eqb m target) eqn:E.
    + apply ChunkMarkers_eqb_eq in E. contradiction.
    + left. reflexivity.
  - intros m s len Hin. subst piped. unfold ChunkFramework.pipeChunk in Hin.
    apply in_flat_map in Hin. destruct Hin as ([[m0 s0] len0] & Hin0 & Hin).
    destruct (ChunkMarkers.eqb m0 target) eqn:E.
    + apply ChunkMarkers_eqb_eq in E. subst m0. right.
      assert (Hlen0 : 0 < len0).
      { clear - HT Hin0. induction HT as [|a len m b l Hlen HT IH]; [destruct Hin0|].
        destruct Hin0 as [E|Hin0]; [inversion E; subst; assumption|auto]. }
      assert (Hle : s0 <= s0 + len0) by lia.
      destruct (LRuns_labels _ _ _ _ (chunkUsing_LRuns test s0 (s0 + len0) yes target Hle)
                  m s len Hin) as (H1 & H2 & H3 & H4).
      split.
      * rewrite <- (H4 s) by lia. destruct (test s); auto.
      * exists s0, len0. auto.
    + destruct Hin as [E'|[]]. inversion E'; subst. left. assumption.
Qed.

Lemma pipeChunk_tiles_witness :
  Aux.Tiling 0 3
    (ChunkFramework.pipeChunk
       (ChunkFramework.chunkBoText (Examples.served Examples.mixed) 0 3
          ChunkMarkers.BO ChunkMarkers.OTHER)
       (ChunkFramework.chunkPunctuation (Examples.served Examples.mixed))
       ChunkMarkers.BO ChunkMarkers.PUNCT).
Proof.
  assert (HT : Aux.Tiling 0 3
                 (ChunkFramework.chunkBoText (Examples.served Examples.mixed) 0 3
                    ChunkMarkers.BO ChunkMarkers.OTHER)).
  { eapply LRuns_Tiling. apply chunkUsing_LRuns. lia. }
  pose proof (pipeChunk_tiles
                (ChunkFramework.isPunctuation (Examples.served Examples.mixed))
                0 3 _ ChunkMarkers.BO ChunkMarkers.PUNCT HT) as H.
  cbv zeta in H. destruct H as (H & _). exact H.
Defined.

Lemma substring_inside (s : jstring) (a b : Z) :
  0 <= a <= b -> b <= Js.len s ->
  Js.substring s a b = firstn (Z.to_nat (b - a)) (skipn (Z.to_nat a) s).
Proof.
  intros Ha Hb. unfold Js.substring, Js.clamp.
  replace (Z.min (Z.max a 0) (Js.len s)) with a by lia.
  replace (Z.min (Z.max b 0) (Js.len s)) with b by lia.
  replace (Z.min a b) with a by lia. replace (Z.max a b) with b by lia.
  reflexivity.
Qed.

Lemma firstn_add {A : Type} (n m : nat) (l : list A) :
  firstn n l ++ firstn m (skipn n l) = firstn (n + m) l.
Proof.
  revert l. induction n as [|n IH]; intros l; simpl; [reflexivity|].
  destruct l as [|x l]; simpl.
  - rewrite firstn_nil. reflexivity.
  - rewrite IH. reflexivity.
Qed.

Lemma substring_app (s : jstring) (a m b : Z) :
  0 <= a <= m -> m <= b -> b <= Js.len s ->
  Js.substring s a m ++ Js.substring s m b = Js.substring s a b.
Proof.
  intros Ha Hm Hb. rewrite !substring_inside by lia.
  replace (Z.to_nat m) with (Z.to_nat (m - a) + Z.to_nat a)%nat by lia.
  rewrite <- skipn_skipn. rewrite firstn_add. f_equal. lia.
Qed.

Lemma substring_length (s : jstring) (a b : Z) :
  0 <= a <= b -> b <= Js.len s ->
  Js.len (Js.substring s a b) = b - a.
Proof.
  intros Ha Hb. rewrite substring_inside by lia. unfold Js.len in *.
  rewrite length_firstn, length_skipn. lia.
Qed.

Lemma getChunked_concat (c : ChunkFramework.t) (a b : Z)
    (chunks : list ChunkFramework.triple) :
  Aux.Tiling a b chunks ->
  0 <= a -> b <= Js.len (BoString.text (ChunkFramework.bs c)) ->
  List.concat (map ChunkFramework.tc_content (ChunkFramework.getChunked c chunks)) =
    BoString.substring (ChunkFramework.bs c) a b.
Proof.
  unfold BoString.substring.
  induction 1 as [a|a len m b l Hlen HT IH]; intros Ha Hb; simpl.
  - rewrite substring_inside by lia. replace (a - a) with 0 by lia. reflexivity.
  - pose proof (Tiling_le _ _ _ HT) as Hle.
    rewrite IH by lia. unfold BoString.substring. apply substring_app; lia.
Qed.

(** X9.  The contents of the chunks give back the text.  For chunks that tile a
    range inside the text, the [content] strings of [getChunked], joined in
    order, are the substring of the range, and each has the length of its
    chunk; for the chunks of [chunkBoText] over the whole text they join to
    the text itself. *)
Theorem getChunked_contents :
  (forall c a b chunks,
     Aux.Tiling a b chunks ->
     0 <= a -> b <= Js.len (BoString.text (ChunkFramework.bs c)) ->
     List.concat (map ChunkFramework.tc_content (ChunkFramework.getChunked c chunks))
       = BoString.substring (ChunkFramework.bs c) a b /\
     Forall (fun tc => Js.len (ChunkFramework.tc_content tc) =
                       ChunkFramework.tc_length tc)
            (ChunkFramework.getChunked c chunks)) /\
  (forall text ignoreChars spacesAsPunct,
     let c := ChunkFramework.make text ignoreChars spacesAsPunct in
     List.concat
       (map ChunkFramework.tc_content
          (ChunkFramework.getChunked c
             (ChunkFramework.chunkBoText c 0 (BoString.length (ChunkFramework.bs c))
                ChunkMarkers.BO ChunkMarkers.OTHER))) = text).
Proof.
  split.
  - intros c a b chunks HT Ha Hb. split; [apply getChunked_concat; assumption|].
    revert Ha. induction HT as [a|a len m b l Hlen HT IH]; intros Ha; simpl;
      constructor.
    + simpl. unfold BoString.substring.
      pose proof (Tiling_le _ _ _ HT) as Hle.
      rewrite substring_length by lia. lia.
    + apply IH; [assumption|lia].
  - intros text ignoreChars spacesAsPunct c.
    assert (Hlen : 0 <= BoString.length (ChunkFramework.bs c)).
    { simpl. unfold Js.len. lia. }
    rewrite (getChunked_concat c 0 (BoString.length (ChunkFramework.bs c))).
    + unfold BoString.substring. simpl. rewrite substring_inside.
      * replace (Z.to_nat (Js.len text - 0)) with (List.length text)
          by (unfold Js.len; lia).
        simpl. apply firstn_all.
      * unfold Js.len. lia.
      * lia.
    + eapply LRuns_Tiling. apply chunkUsing_LRuns. exact Hlen.
    + lia.
    + simpl. lia.
Qed.

Lemma getChunked_contents_witness :
  List.concat
    (map ChunkFramework.tc_content
       (ChunkFramework.getChunked (Examples.served Examples.mixed)
          [(ChunkMarkers.BO, 0, 2); (ChunkMarkers.OTHER, 2, 1)])) =
  BoString.substring (ChunkFramework.bs (Examples.served Examples.mixed)) 0 3.
Proof.
  destruct getChunked_contents as (H & _).
  apply (H (Examples.served Examples.mixed) 0 3).
  - apply (Aux.Tiling_cons 0 2 ChunkMarkers.BO 3); [lia|].
    apply (Aux.Tiling_cons 2 1 ChunkMarkers.OTHER 3 []); [lia|].
    apply (Aux.Tiling_nil 3).
  - lia.
  - vm_compute. discriminate.
Defined.

(** ** ChunkFramework.serveSylsToTrie: the entries it builds *)

Lemma syllabify_members (c : ChunkFramework.t) (start end_ : Z)
    (yes : ChunkMarkers.t) :
  start <= end_ ->
  forall m s l,
    In (m, s, l) (ChunkFramework.syllabify c start end_ yes) ->
    m = yes /\
    Aux.SyllableSpan (ChunkFramework.isTsekOrLongSkrtVowel c) start end_ s l.
Proof.
  intros Hle.
  pose proof (chunk_Runs (ChunkFramework.isTsekOrLongSkrtVowel c) start end_ Hle)
    as HR.
  rewrite syllabify_absorb.
  destruct (ChunkFramework.chunk start end_ (ChunkFramework.isTsekOrLongSkrtVowel c))
    as [|[[b a] len] rest].
  - intros m s l [].
  - assert (a = start) by (inversion HR; reflexivity). subst a.
    apply (absorb_spans _ yes start rest b start len end_ HR); [lia|left; reflexivity].
Qed.

(** The two kinds of entry of a served chunk frame. *)
Lemma served_entries (text : jstring) (ignoreChars : list jstring)
    (spacesAsPunct : bool) :
  let c := ChunkFramework.make text ignoreChars spacesAsPunct in
  forall e,
    In e (ChunkFramework.chunks (ChunkFramework.serveSylsToTrie c)) ->
    (exists s l,
       e = (None, (ChunkMarkers.OTHER, s, l)) /\
       0 <= s /\ 0 < l /\ s + l <= Js.len text /\
       forall p, s <= p < s + l -> ChunkFramework.isBoUnicode c p = false) \/
    (exists s l rs rl,
       e = (Some [100; s; l], (ChunkMarkers.TEXT, rs, rl)) /\
       0 <= rs /\ rs <= s /\ 0 < l /\ s + l <= rs + rl /\ rs + rl <= Js.len text /\
       ChunkFramework.isTsekOrLongSkrtVowel c s = false /\
       forall p, rs <= p < rs + rl -> ChunkFramework.isBoUnicode c p = true).
Proof.
  intros c e Hin. unfold ChunkFramework.serveSylsToTrie in Hin. simpl in Hin.
  apply in_flat_map in Hin. destruct Hin as ([[m rs] rl] & Hbo & Hin).
  assert (Hlen : 0 <= Js.len text) by (unfold Js.len; lia).
  destruct (LRuns_labels _ _ _ _
              (chunkUsing_LRuns (ChunkFramework.isBoUnicode c) 0 (Js.len text)
                 ChunkMarkers.BO ChunkMarkers.OTHER Hlen) m rs rl Hbo)
    as (H1 & H2 & H3 & H4).
  unfold ChunkFramework.serve_one in Hin.
  destruct (ChunkMarkers.eqb m ChunkMarkers.BO) eqn:E.
  - apply ChunkMarkers_eqb_eq in E. subst m. right.
    apply in_map_iff in Hin. destruct Hin as ([[m' s] l] & <- & Hsyl).
    assert (Hle : rs <= rs + rl) by lia.
    destruct (syllabify_members c rs (rs + rl) ChunkMarkers.TEXT Hle _ _ _ Hsyl)
      as (-> & Hs1 & Hs2 & Hs3 & _ & _ & k & Hk & Hnon & _).
    exists s, l, rs, rl. split; [reflexivity|].
    repeat split; try lia.
    + apply Hnon. lia.
    + intros p Hp. specialize (H4 p Hp). simpl in H4.
      destruct (ChunkFramework.isBoUnicode c p); [reflexivity|discriminate].
  - left. destruct Hin as [<-|[]].
    assert (Hm : m = ChunkMarkers.OTHER).
    { specialize (H4 rs). simpl in H4.
      destruct (ChunkFramework.isBoUnicode c rs).
      - rewrite <- H4 in E by lia. discriminate.
      - symmetry. apply H4. lia. }
    subst m. exists rs, rl. split; [reflexivity|]. repeat split; try lia.
    intros p Hp. specialize (H4 p Hp). simpl in H4.
    destruct (ChunkFramework.isBoUnicode c p); [discriminate|reflexivity].
Qed.

(** X10.  The entries of a served chunk frame.  An entry is either a run outside
    Tibetan, with no syllable array and the label OTHER on a non-empty span
    of the text on which no codepoint counts as Tibetan, or a syllable of a
    Tibetan run: its array holds the three numbers 100, start and length of
    the syllable, the syllable is not empty, starts on a codepoint that is no
    separator and lies inside the run, and its meta triple is the triple of
    the run with the label TEXT.  No entry carries the label BO, and the
    empty text has no entry. *)
Theorem serveSylsToTrie_entries (text : jstring) (ignoreChars : list jstring)
    (spacesAsPunct : bool) :
  let c := ChunkFramework.make text ignoreChars spacesAsPunct in
  let entries := ChunkFramework.chunks (ChunkFramework.serveSylsToTrie c) in
  (forall e, In e entries ->
     (exists s l,
        e = (None, (ChunkMarkers.OTHER, s, l)) /\
        0 <= s /\ 0 < l /\ s + l <= Js.len text /\
        forall p, s <= p < s + l -> ChunkFramework.isBoUnicode c p = false) \/
     (exists s l rs rl,
        e = (Some [100; s; l], (ChunkMarkers.TEXT, rs, rl)) /\
        0 <= rs /\ rs <= s /\ 0 < l /\ s + l <= rs + rl /\ rs + rl <= Js.len text /\
        ChunkFramework.isTsekOrLongSkrtVowel c s = false /\
        forall p, rs <= p < rs + rl -> ChunkFramework.isBoUnicode c p = true)) /\
  (forall e, In e entries -> fst (fst (snd e)) <> ChunkMarkers.BO) /\
  (text = [] -> entries = []).
Proof.
  intros c entries. split; [apply served_entries|]. split.
  - intros e Hin.
    destruct (served_entries text ignoreChars spacesAsPunct e Hin)
      as [(s & l & -> & _)|(s & l & rs & rl & -> & _)]; discriminate.
  - intros ->. reflexivity.
Qed.

Lemma serveSylsToTrie_entries_witness :
  ChunkFramework.chunks
    (ChunkFramework.serveSylsToTrie (ChunkFramework.make [] [] false)) = [].
Proof.
  pose proof (serveSylsToTrie_entries [] [] false) as H. cbv zeta in H.
  destruct H as (_ & _ & H). apply H. reflexivity.
Defined.

(** ** Tokenize.tokenize: the loops on every trie *)

Lemma zrange_S (a : Z) (n : nat) :
  Aux.zrange a (S n) = Aux.zrange a n ++ [a + Z.of_nat n].
Proof. unfold Aux.zrange. rewrite seq_S, map_app. reflexivity. Qed.

Lemma zrange_In (a : Z) (n : nat) (i : Z) :
  In i (Aux.zrange a n) -> a <= i < a + Z.of_nat n.
Proof.
  unfold Aux.zrange. intros H. apply in_map_iff in H.
  destruct H as (j & <- & Hj). apply in_seq in Hj. lia.
Qed.

Lemma zrange_length (a : Z) (n : nat) : Js.len (Aux.zrange a n) = Z.of_nat n.
Proof. unfold Js.len, Aux.zrange. rewrite length_map, length_seq. reflexivity. Qed.

Lemma zrange_nonempty (a : Z) (n : nat) : (1 <= n)%nat -> Aux.zrange a n <> [].
Proof. destruct n; [lia|]. intros _. discriminate. Qed.

Lemma last_In (l : list Z) (d : Z) : l <> [] -> In (last l d) l.
Proof.
  induction l as [|x [|y l] IH]; intros H; [congruence|left; reflexivity|].
  right. apply IH. discriminate.
Qed.

Lemma match_get_set_same (m : Tokenize.matchMap) (k : Z) (v : TrieNodeData) :
  Tokenize.match_get (Tokenize.match_set m k v) k = Some v.
Proof.
  induction m as [|[k' v'] m IH]; simpl.
  - rewrite Z.eqb_refl. reflexivity.
  - destruct (k' =? k) eqn:E; simpl; rewrite E; [reflexivity|exact IH].
Qed.

Section AnyTrie.

Variable pp : ChunkFramework.t.
Hypothesis Hwf : Aux.wellFormed pp.

Lemma chunkAt_inside (i : Z) :
  0 <= i < Js.len (ChunkFramework.chunks pp) ->
  exists e, Tokenize.chunkAt pp i = Js.Ret e /\ In e (ChunkFramework.chunks pp).
Proof.
  intros H. unfold Tokenize.chunkAt, Js.idx, Js.len in *.
  destruct (Z.ltb_spec i 0); [lia|].
  destruct (nth_error (ChunkFramework.chunks pp) (Z.to_nat i)) as [e|] eqn:E.
  - exists e. split; [reflexivity|]. eapply nth_error_In. exact E.
  - apply nth_error_None in E. lia.
Qed.

Lemma tokenSyls_of_inside (syls : list Z) :
  (forall i, In i syls -> 0 <= i < Js.len (ChunkFramework.chunks pp)) ->
  exists r, Tokenize.tokenSyls_of pp syls = Js.Ret r.
Proof.
  induction syls as [|a syls IH]; intros H; simpl.
  - eexists. reflexivity.
  - destruct (chunkAt_inside a) as (e & -> & _); [apply H; left; reflexivity|].
    destruct IH as (r & ->); [intros i Hi; apply H; right; exact Hi|].
    eexists. reflexivity.
Qed.

Lemma spans_loop_inside (syls : list Z) :
  (forall i, In i syls -> 0 <= i < Js.len (ChunkFramework.chunks pp)) ->
  forall tokenLength sylStartEnd,
    exists r, Tokenize.spans_loop pp syls tokenLength sylStartEnd = Js.Ret r.
Proof.
  induction syls as [|a syls IH]; intros H tokenLength sylStartEnd; simpl.
  - eexists. reflexivity.
  - destruct (chunkAt_inside a) as (e & -> & He); [apply H; left; reflexivity|].
    cbn [Js.bind].
    assert (IH' := IH (fun i Hi => H i (or_intror Hi))).
    pose proof (proj1 (Forall_forall _ _) Hwf e He) as Hshape.
    cbv beta in Hshape.
    destruct (fst e) as [c0|]; [|apply IH'].
    destruct Hshape as (a0 & s & len & ->). cbn. apply IH'.
Qed.

Lemma chunksToToken_inside (syls : list Z) (data : TrieNodeData)
    (ttype : option jstring) :
  syls <> [] ->
  (forall i, In i syls -> 0 <= i < Js.len (ChunkFramework.chunks pp)) ->
  exists tk, Tokenize.chunksToToken pp syls data ttype = Js.Ret tk.
Proof.
  intros Hne Hin. destruct syls as [|s0 [|s1 rest]]; [congruence| |].
  - unfold Tokenize.chunksToToken.
    destruct (chunkAt_inside s0) as (e & -> & _); [apply Hin; left; reflexivity|].
    eexists. reflexivity.
  - unfold Tokenize.chunksToToken.
    destruct (tokenSyls_of_inside (s0 :: s1 :: rest) Hin) as (r & ->).
    cbn [Js.bind].
    destruct (chunkAt_inside (last (s0 :: s1 :: rest) 0)) as (e & -> & _);
      [apply Hin, last_In; discriminate|].
    cbn [Js.bind].
    destruct (chunkAt_inside s0) as (e0 & -> & _); [apply Hin; left; reflexivity|].
    cbn [Js.bind].
    destruct (spans_loop_inside (s0 :: s1 :: rest) Hin 0 []) as (sp & ->).
    eexists. reflexivity.
Qed.

Lemma commitMaxMatch_inside (cIdx : Z) (matchData : Tokenize.matchMap)
    (maxMatch : list (list Z)) (longest : list Z) (rest : list (list Z))
    (n : nat) :
  rev maxMatch = longest :: rest ->
  (1 <= n)%nat -> 0 <= cIdx ->
  cIdx + Z.of_nat n <= Js.len (ChunkFramework.chunks pp) ->
  longest = Aux.zrange cIdx n ->
  Tokenize.match_get matchData (cIdx + Z.of_nat n - 1) <> None ->
  exists tk,
    Tokenize.commitMaxMatch pp cIdx matchData maxMatch =
      Js.Ret ([tk], cIdx + Z.of_nat n).
Proof.
  intros Hrev Hn Hc Hlen -> Hget. unfold Tokenize.commitMaxMatch.
  rewrite Hrev, zrange_length. unfold Tokenize.addFoundWordOrNonWord.
  destruct (Tokenize.match_get matchData (cIdx + Z.of_nat n - 1)) as [data|];
    [|congruence].
  destruct (chunksToToken_inside (Aux.zrange cIdx n) data (Tokenize.ttype_of data))
    as (tk & ->).
  - apply zrange_nonempty. exact Hn.
  - intros i Hi. apply zrange_In in Hi. lia.
  - exists tk. reflexivity.
Qed.

Lemma addFound_unmatched (walker cIdx : Z) (m : nat) :
  (1 <= m)%nat -> 0 <= cIdx ->
  cIdx + Z.of_nat m <= Js.len (ChunkFramework.chunks pp) ->
  cIdx + Z.of_nat m - 1 <= walker ->
  exists tk c,
    Tokenize.addFoundWordOrNonWord pp walker [] (Aux.zrange cIdx m) false =
      Js.Ret ([tk], c).
Proof.
  intros Hm Hc Hlen Hw. unfold Tokenize.addFoundWordOrNonWord.
  cbn [Tokenize.match_get].
  pose proof (zrange_length cIdx m) as HL.
  destruct (Aux.zrange cIdx m) as [|s0 rest] eqn:E.
  - unfold Js.len in HL. simpl in HL. lia.
  - assert (Hs0 : cIdx <= s0 < cIdx + Z.of_nat m).
    { apply zrange_In. rewrite E. left. reflexivity. }
    destruct (chunksToToken_inside [s0] Tokenize.noData (Some Tokenize.NO_POS))
      as (tk & ->); [discriminate|intros i [<-|[]]; lia|].
    cbn [Js.bind].
    assert (HR : Js.len rest = Z.of_nat m - 1).
    { unfold Js.len in *. simpl in HL. lia. }
    rewrite HR, HL.
    set (c := if 1 <? Z.of_nat m then walker - (Z.of_nat m - 1 - 1) else walker).
    assert (Hc0 : 0 <= c).
    { unfold c. destruct (Z.ltb_spec 1 (Z.of_nat m)); lia. }
    destruct (Z.ltb_spec c (Js.len (ChunkFramework.chunks pp))) as [Hlt|Hge].
    + destruct (chunkAt_inside c) as (e & -> & _); [lia|]. cbn [Js.bind].
      destruct (fst e); [destruct (1 <? Z.of_nat m)|];
        eexists; eexists; reflexivity.
    + destruct (1 <? Z.of_nat m); eexists; eexists; reflexivity.
Qed.

Variable self : Tokenize.t.

Lemma commit_post (budget : nat) (cIdx walker : Z) (matchData : Tokenize.matchMap)
    (maxMatch : list (list Z)) (longest : list Z) (rest : list (list Z)) :
  rev maxMatch = longest :: rest ->
  0 <= cIdx ->
  (exists n, (1 <= n)%nat /\
             cIdx + Z.of_nat n <= Js.len (ChunkFramework.chunks pp) /\
             longest = Aux.zrange cIdx n /\
             Tokenize.match_get matchData (cIdx + Z.of_nat n - 1) <> None) ->
  Aux.walkPost (Tokenize.trie self) pp budget cIdx walker
    (Tokenize.commitMaxMatch pp cIdx matchData maxMatch).
Proof.
  intros Hrev Hc (n & Hn & Hlen & Hl & Hget).
  destruct (commitMaxMatch_inside cIdx matchData maxMatch longest rest n
              Hrev Hn Hc Hlen Hl Hget) as (tk & ->).
  simpl. split; [exists tk; reflexivity|]. split; [lia|]. intros _. lia.
Qed.

Lemma stopWalking_post (budget : nat) (cIdx walker : Z) (syls : list Z)
    (maxMatch : list (list Z)) (matchData : Tokenize.matchMap)
    (currentNode : option BasicTrie.TrieNode) :
  Aux.walkInv (Tokenize.trie self) pp cIdx walker syls maxMatch matchData
    currentNode ->
  Aux.walkPost (Tokenize.trie self) pp budget cIdx walker
    (Tokenize.stopWalking pp cIdx walker matchData syls maxMatch).
Proof.
  intros (Hc & Hcw & Hwl & Hsyls & Hmax). unfold Tokenize.stopWalking.
  destruct maxMatch as [|mm0 mmr].
  - simpl in Hmax. destruct Hmax as (-> & Htwo).
    remember (Z.to_nat (walker - cIdx)) as m eqn:Em.
    destruct m as [|m].
    + subst syls. cbn [Aux.zrange seq map].
      destruct (chunksToToken_inside [cIdx] Tokenize.noData None) as (tk & ->);
        [discriminate|intros i [<-|[]]; lia|].
      simpl. split; [exists tk; reflexivity|]. split; [lia|]. intros _. lia.
    + pose proof (zrange_length cIdx (S m)) as HL. rewrite <- Hsyls in HL.
      destruct (addFound_unmatched walker cIdx (S m)) as (tk & c & Hadd);
        [lia|lia|lia|lia|].
      rewrite <- Hsyls in Hadd.
      destruct syls as [|s0 srest]; [unfold Js.len in HL; simpl in HL; lia|].
      rewrite Hadd. cbn [Js.bind fst]. cbn [Aux.walkPost].
      split; [exists tk; reflexivity|]. split.
      * destruct (Js.len (s0 :: srest) =? 1); lia.
      * intros H2. destruct (Htwo H2) as [(E & _)|(E & _)]; [discriminate|].
        rewrite E. simpl. lia.
  - destruct (rev (mm0 :: mmr)) as [|longest rest] eqn:Hrev.
    + simpl in Hrev. destruct (rev mmr); discriminate.
    + apply (commit_post budget cIdx walker matchData (mm0 :: mmr) longest rest
               Hrev Hc).
      destruct Hmax as (n & Hn & Hle & Hl & Hget). exists n.
      split; [exact Hn|]. split; [lia|]. split; assumption.
Qed.

Lemma walk_loop_step (budget : nat) (cIdx walker : Z) (syls : list Z)
    (maxMatch : list (list Z)) (matchData : Tokenize.matchMap)
    (currentNode : option BasicTrie.TrieNode) :
  Tokenize.walk_loop self pp (S budget) cIdx walker syls maxMatch matchData
    currentNode =
  match Js.idx (ChunkFramework.chunks pp) walker with
  | Some (Some curSyl, _) =>
      match BasicTrie.walk (Tokenize.trie self) (Tokenize.sylOf pp curSyl)
              currentNode with
      | Some node =>
          if BasicTrie.isMatch node then
            if walker + 1 =? Js.len (ChunkFramework.chunks pp)
            then Tokenize.commitMaxMatch pp cIdx
                   (Tokenize.match_set matchData walker (BasicTrie.data node))
                   (maxMatch ++ [syls ++ [walker]])
            else Tokenize.walk_loop self pp budget cIdx (walker + 1)
                   (syls ++ [walker]) (maxMatch ++ [syls ++ [walker]])
                   (Tokenize.match_set matchData walker (BasicTrie.data node))
                   (Some node)
          else if walker + 1 =? Js.len (ChunkFramework.chunks pp) then
            match maxMatch with
            | _ :: _ => Tokenize.commitMaxMatch pp cIdx matchData maxMatch
            | [] =>
                r <- Tokenize.addFoundWordOrNonWord pp walker matchData
                       (syls ++ [walker]) false ;;
                Js.Ret (fst r, cIdx + Js.len (syls ++ [walker]))
            end
          else Tokenize.walk_loop self pp budget cIdx (walker + 1)
                 (syls ++ [walker]) maxMatch matchData (Some node)
      | None => Tokenize.stopWalking pp cIdx walker matchData syls maxMatch
      end
  | _ => Tokenize.stopWalking pp cIdx walker matchData syls maxMatch
  end.
Proof. reflexivity. Qed.

Lemma walkPost_later (budget : nat) (cIdx walker : Z)
    (o : Js.outcome (list Token.t * Z)) :
  walker < Js.len (ChunkFramework.chunks pp) ->
  Aux.walkPost (Tokenize.trie self) pp budget cIdx (walker + 1) o ->
  Aux.walkPost (Tokenize.trie self) pp (S budget) cIdx walker o.
Proof.
  intros Hw. destruct o as [[toks c']| |]; simpl; [tauto|tauto|]. lia.
Qed.

Lemma walk_loop_post (budget : nat) :
  forall cIdx walker syls maxMatch matchData currentNode,
    Aux.walkInv (Tokenize.trie self) pp cIdx walker syls maxMatch matchData
      currentNode ->
    Aux.walkPost (Tokenize.trie self) pp budget cIdx walker
      (Tokenize.walk_loop self pp budget cIdx walker syls maxMatch matchData
         currentNode).
Proof.
  induction budget as [|budget IH];
    intros cIdx walker syls maxMatch matchData currentNode Hinv.
  - destruct Hinv as (_ & _ & Hwl & _). simpl. lia.
  - rewrite walk_loop_step.
    destruct (Js.idx (ChunkFramework.chunks pp) walker) as [[[curSyl|] meta]|];
      try (apply (stopWalking_post _ _ _ _ _ _ currentNode Hinv)).
    destruct (BasicTrie.walk (Tokenize.trie self) (Tokenize.sylOf pp curSyl)
                currentNode) as [node|] eqn:W;
      [|apply (stopWalking_post _ _ _ _ _ _ currentNode Hinv)].
    destruct Hinv as (Hc & Hcw & Hwl & Hsyls & Hmax).
    remember (Z.to_nat (walker - cIdx)) as m eqn:Em.
    assert (Hsyls' : syls ++ [walker] = Aux.zrange cIdx (S m)).
    { rewrite zrange_S, Hsyls. do 2 f_equal. lia. }
    assert (Em' : Z.to_nat (walker + 1 - cIdx) = S m) by lia.
    destruct (BasicTrie.isMatch node) eqn:M.
    + destruct (Z.eqb_spec (walker + 1) (Js.len (ChunkFramework.chunks pp)))
        as [Hend|Hmore].
      * eapply commit_post; [apply rev_unit|exact Hc|].
        exists (S m). split; [lia|]. split; [lia|]. split; [exact Hsyls'|].
        replace (cIdx + Z.of_nat (S m) - 1) with walker by lia.
        rewrite match_get_set_same. discriminate.
      * apply walkPost_later; [exact Hwl|]. apply IH.
        split; [exact Hc|]. split; [lia|]. split; [lia|].
        split; [rewrite Em'; exact Hsyls'|].
        rewrite rev_unit. exists (S m). split; [lia|]. split; [lia|].
        split; [exact Hsyls'|].
        replace (cIdx + Z.of_nat (S m) - 1) with walker by lia.
        rewrite match_get_set_same. discriminate.
    + destruct (Z.eqb_spec (walker + 1) (Js.len (ChunkFramework.chunks pp)))
        as [Hend|Hmore].
      * destruct maxMatch as [|mm0 mmr].
        -- simpl in Hmax. destruct Hmax as (-> & _). rewrite Hsyls'.
           destruct (addFound_unmatched walker cIdx (S m)) as (tk & c & ->);
             [lia|lia|lia|lia|].
           cbn [Js.bind fst]. rewrite zrange_length. cbn [Aux.walkPost].
           split; [exists tk; reflexivity|]. split; [lia|]. intros _. lia.
        -- destruct (rev (mm0 :: mmr)) as [|longest rest] eqn:Hrev.
           ++ simpl in Hrev. destruct (rev mmr); discriminate.
           ++ apply (commit_post (S budget) cIdx walker matchData (mm0 :: mmr)
                       longest rest Hrev Hc).
              destruct Hmax as (n & Hn & Hle & Hl & Hget). exists n.
              split; [exact Hn|]. split; [lia|]. split; assumption.
      * apply walkPost_later; [exact Hwl|]. apply IH.
        split; [exact Hc|]. split; [lia|]. split; [lia|].
        split; [rewrite Em'; exact Hsyls'|].
        destruct (rev maxMatch) as [|longest rest].
        -- destruct Hmax as (Hmd & Htwo). split; [exact Hmd|].
           intros H2. right.
           destruct (Htwo H2) as [(E & ->)|(E & k1 & n1 & -> & Hk1 & Hleaf)].
           ++ assert (m = 0%nat).
              { rewrite E in Hsyls. destruct m; [reflexivity|discriminate]. }
              assert (walker = cIdx) by lia. subst walker.
              rewrite E. split; [reflexivity|].
              exists (Tokenize.sylOf pp curSyl), node.
              split; [reflexivity|]. split; [exact W|exact M].
           ++ exfalso. unfold BasicTrie.walk in W.
              pose proof (H2 _ _ _ _ Hk1 Hleaf W) as Hl2.
              unfold BasicTrie.isMatch in M. congruence.
        -- destruct Hmax as (n & Hn & Hle & Hl & Hget). exists n.
           split; [exact Hn|]. split; [lia|]. split; assumption.
Qed.

End AnyTrie.

Lemma walkInv_start (tr : BasicTrie.t) (pp : ChunkFramework.t) (cIdx : Z) :
  0 <= cIdx < Js.len (ChunkFramework.chunks pp) ->
  Aux.walkInv tr pp cIdx cIdx [] [] [] None.
Proof.
  intros H. unfold Aux.walkInv.
  split; [lia|]. split; [lia|]. split; [lia|]. split.
  - rewrite Z.sub_diag. reflexivity.
  - simpl. split; [reflexivity|]. intros _. left. split; reflexivity.
Qed.

Lemma served_wellFormed (text : jstring) (ignoreChars : list jstring)
    (spacesAsPunct : bool) :
  Aux.wellFormed
    (ChunkFramework.serveSylsToTrie
       (ChunkFramework.make text ignoreChars spacesAsPunct)).
Proof.
  apply Forall_forall. intros e He.
  destruct (served_entries text ignoreChars spacesAsPunct e He)
    as [(s & l & -> & _)|(s & l & rs & rl & -> & _)]; simpl; [exact I|].
  exists 100, s, l. reflexivity.
Qed.

Lemma tokenize_loop_no_throw (self : Tokenize.t) (pp : ChunkFramework.t)
    (budget : nat) :
  Aux.wellFormed pp ->
  forall fuel cIdx tokens message,
    0 <= cIdx ->
    Tokenize.tokenize_loop self pp budget fuel cIdx tokens <> Js.Throw message.
Proof.
  intros Hwf. induction fuel as [|fuel IH]; intros cIdx tokens message Hc.
  - discriminate.
  - rewrite tokenize_loop_step.
    destruct (Z.ltb_spec cIdx (Js.len (ChunkFramework.chunks pp))) as [Hlt|Hge];
      [|discriminate].
    pose proof (walk_loop_post pp Hwf self budget _ _ _ _ _ _
                  (walkInv_start (Tokenize.trie self) pp cIdx (conj Hc Hlt))) as P.
    destruct (Tokenize.walk_loop self pp budget cIdx cIdx [] [] [] None)
      as [[toks c']| |]; simpl in P; cbn [Js.bind fst snd].
    + apply IH. lia.
    + contradiction.
    + discriminate.
Qed.

Lemma tokenize_loop_two_step (self : Tokenize.t) (pp : ChunkFramework.t)
    (budget : nat) :
  Aux.wellFormed pp ->
  Aux.twoStepMatch (Tokenize.trie self) ->
  (List.length (ChunkFramework.chunks pp) <= budget)%nat ->
  forall (k fuel : nat) cIdx tokens,
    0 <= cIdx ->
    (Z.to_nat (Js.len (ChunkFramework.chunks pp) - cIdx) <= k)%nat ->
    (k < fuel)%nat ->
    exists out,
      Tokenize.tokenize_loop self pp budget fuel cIdx tokens =
        Js.Ret (tokens ++ out) /\
      (List.length out <= k)%nat /\
      (cIdx < Js.len (ChunkFramework.chunks pp) -> out <> []).
Proof.
  intros Hwf H2 Hb.
  induction k as [|k IH]; intros fuel cIdx tokens Hc Hk Hfuel;
    (destruct fuel as [|fuel]; [lia|]); rewrite tokenize_loop_step;
    destruct (Z.ltb_spec cIdx (Js.len (ChunkFramework.chunks pp))) as [Hlt|Hge];
    try lia;
    try (exists []; rewrite app_nil_r;
         split; [reflexivity|split; [simpl; lia|lia]]).
  pose proof (walk_loop_post pp Hwf self budget _ _ _ _ _ _
                (walkInv_start (Tokenize.trie self) pp cIdx (conj Hc Hlt))) as P.
  destruct (Tokenize.walk_loop self pp budget cIdx cIdx [] [] [] None)
    as [[toks c']| |]; simpl in P; cbn [Js.bind fst snd].
  - destruct P as ((tk & ->) & Hc' & Hprog). specialize (Hprog H2).
    destruct (IH fuel c' (tokens ++ [tk])) as (out & -> & Hout & _);
      [lia|lia|lia|].
    exists (tk :: out). rewrite <- app_assoc.
    split; [reflexivity|]. split; [simpl; lia|discriminate].
  - contradiction.
  - unfold Js.len in *. lia.
Qed.

Lemma twoStep_make : Aux.twoStepMatch BasicTrie.make.
Proof. intros k1 k2 n1 n2 H. discriminate. Qed.

Lemma twoStep_add (tr : BasicTrie.t) (w : BasicTrie.word)
    (e : option BasicTrie.AddData) :
  Aux.twoStepMatch tr ->
  (List.length (BasicTrie.wordArray w) <= 2)%nat ->
  Aux.twoStepMatch (BasicTrie.add tr w e).
Proof.
  intros H2 Hlen. unfold Aux.twoStepMatch, BasicTrie.add. cbn [BasicTrie.head].
  destruct (BasicTrie.wordArray w) as [|a [|b [|c r]]];
    [ | | |simpl in Hlen; lia]; cbn [BasicTrie.addPath];
    intros k1 k2 n1 n2 Hk1 Hleaf Hk2.
  - unfold BasicTrie.getChild in Hk1.
    rewrite (proj2 (proj2 (finishAdd_leaf e (BasicTrie.head tr)))) in Hk1.
    exact (H2 k1 k2 n1 n2 Hk1 Hleaf Hk2).
  - destruct (list_eq_dec Z.eq_dec a k1) as [->|Hne].
    + rewrite getChild_setChild_eq in Hk1. inversion Hk1; subst n1.
      rewrite (proj1 (finishAdd_leaf e _)) in Hleaf. discriminate.
    + rewrite getChild_setChild_other in Hk1 by exact Hne.
      exact (H2 k1 k2 n1 n2 Hk1 Hleaf Hk2).
  - destruct (list_eq_dec Z.eq_dec a k1) as [->|Hne].
    + rewrite getChild_setChild_eq in Hk1. inversion Hk1; subst n1. clear Hk1.
      destruct (list_eq_dec Z.eq_dec b k2) as [->|Hne2].
      * rewrite getChild_setChild_eq in Hk2. inversion Hk2.
        apply (proj1 (finishAdd_leaf e _)).
      * rewrite getChild_setChild_other in Hk2 by exact Hne2.
        cbn [BasicTrie.setChild BasicTrie.leaf] in Hleaf.
        destruct (BasicTrie.getChild (BasicTrie.head tr) k1) as [child|] eqn:G.
        -- exact (H2 k1 k2 child n2 G Hleaf Hk2).
        -- discriminate.
    + rewrite getChild_setChild_other in Hk1 by exact Hne.
      exact (H2 k1 k2 n1 n2 Hk1 Hleaf Hk2).
Qed.






(** X14.  Dictionaries of short words.  The trie that [add] builds from the empty
    trie for any list of words of at most two syllables each has the
    two-step property: every child of a first-level node that is no leaf is
    a leaf. *)
Theorem short_words_two_step
    (words : list (BasicTrie.word * option BasicTrie.AddData)) :
  Forall (fun we => (List.length (BasicTrie.wordArray (fst we)) <= 2)%nat) words ->
  Aux.twoStepMatch (Aux.addAll words).
Proof.
  unfold Aux.addAll. generalize twoStep_make. generalize BasicTrie.make.
  induction words as [|[w e] words IH]; intros tr Htr Hall; simpl.
  - exact Htr.
  - inversion Hall; subst. apply IH; [|assumption].
    apply twoStep_add; assumption.
Qed.

Lemma short_words_two_step_witness :
  Aux.twoStepMatch
    (Aux.addAll [(BasicTrie.Arr [Js.lit "a"; Js.lit "b"], None);
                 (BasicTrie.Str (Js.lit "a"), None)]).
Proof.
  apply short_words_two_step.
  repeat constructor.
Defined.

(** ** WordTokenizer.tokenize: the tokens it returns *)

Lemma skipn_nth (A : Type) (l : list A) (i : nat) (e : A) :
  nth_error l i = Some e -> skipn i l = e :: skipn (S i) l.
Proof.
  revert i. induction l as [|x l IH]; intros [|i] E; simpl in *;
    try discriminate.
  - inversion E; subst. reflexivity.
  - apply IH. exact E.
Qed.

Lemma tokenize_loop_empty_any (pp : ChunkFramework.t) (budget fuel : nat) :
  forall (i : nat) tokens out,
    Tokenize.tokenize_loop Aux.emptyEngine pp budget fuel (Z.of_nat i) tokens =
      Js.Ret out ->
    out = tokens ++ map (Aux.standalone pp) (skipn i (ChunkFramework.chunks pp)).
Proof.
  induction fuel as [|fuel IH]; intros i tokens out H; [discriminate|].
  rewrite tokenize_loop_step in H.
  destruct (Z.ltb_spec (Z.of_nat i) (Js.len (ChunkFramework.chunks pp)))
    as [Hlt|Hge].
  - destruct budget as [|budget]; [discriminate|].
    rewrite walk_empty_trie in H.
    destruct (nth_error (ChunkFramework.chunks pp) i) as [e|] eqn:E;
      [|apply nth_error_None in E; unfold Js.len in Hlt; lia].
    unfold Tokenize.chunksToToken in H. rewrite (chunkAt_nat _ _ _ E) in H.
    cbn [Js.bind fst snd Tokenize.stamp] in H.
    replace (Z.of_nat i + 1) with (Z.of_nat (S i)) in H by lia.
    apply IH in H. rewrite H, (skipn_nth _ _ _ _ E), <- app_assoc. reflexivity.
  - inversion H; subst. rewrite skipn_all2 by (unfold Js.len in Hge; lia).
    rewrite app_nil_r. reflexivity.
Qed.

Lemma wordTokenizer_result (config : option Config.t)
    (ignoreChars : option (list jstring)) (text : jstring)
    (splitAffixes spacesAsPunct : bool) (budget : nat) (tokens : list Token.t) :
  let self := WordTokenizer.make config ignoreChars in
  let pp := ChunkFramework.serveSylsToTrie
              (ChunkFramework.make text (WordTokenizer.ignoreChars self)
                 spacesAsPunct) in
  WordTokenizer.tokenize self text splitAffixes spacesAsPunct budget =
    Js.Ret tokens ->
  tokens = map (Aux.standalone pp) (ChunkFramework.chunks pp).
Proof.
  intros self pp. unfold WordTokenizer.tokenize. fold pp.
  change (WordTokenizer.tokenizer self) with Aux.emptyEngine.
  unfold Tokenize.tokenize.
  destruct (Tokenize.tokenize_loop _ _ _ _ _ _) as [out| |] eqn:E;
    cbn [Js.bind]; try discriminate.
  intros H. inversion H; subst. clear H.
  change 0 with (Z.of_nat 0) in E. apply tokenize_loop_empty_any in E.
  cbn [app skipn] in E. subst out.
  apply finalizer_bare. apply Forall_forall. intros tk Hin.
  apply in_map_iff in Hin. destruct Hin as (e & <- & _). split; reflexivity.
Qed.

Lemma getCharType_not_CONS (c : ChunkFramework.t) (position : Z) :
  ChunkFramework.getCharType c position <> CONS.
Proof.
  unfold ChunkFramework.getCharType.
  destruct (BoString.getCharType (ChunkFramework.bs c) position) as [[]|];
    simpl; discriminate.
Qed.

Lemma standalone_shape (text : jstring) (ignoreChars : list jstring)
    (spacesAsPunct : bool) (e : ChunkFramework.entry) :
  let pp := ChunkFramework.serveSylsToTrie
              (ChunkFramework.make text ignoreChars spacesAsPunct) in
  In e (ChunkFramework.chunks pp) ->
  Aux.tokenShape text (Aux.standalone pp e).
Proof.
  intros pp He.
  assert (Hlen : 0 <= Js.len text) by (unfold Js.len; lia).
  assert (Hct : forall s l,
            0 <= l ->
            exists ct,
              Some (map (fun i => ChunkFramework.getCharType pp (s + Z.of_nat i))
                        (seq 0 (Z.to_nat l))) = Some ct /\
              Js.len ct = l /\ ~ In CONS ct).
  { intros s l Hl. eexists. split; [reflexivity|]. split.
    - unfold Js.len. rewrite length_map, length_seq. lia.
    - intros Hin. apply in_map_iff in Hin. destruct Hin as (i & Hi & _).
      exact (getCharType_not_CONS _ _ Hi). }
  destruct (served_entries text ignoreChars spacesAsPunct e He)
    as [(s & l & -> & _)|(s & l & rs & rl & -> & H1 & H2 & H3 & H4 & H5 & _)].
  - unfold Aux.tokenShape, Aux.standalone, Tokenize.createToken.
    cbn [fst snd Tokenize.field_or_zero Token.chunkType Token.start Token.length
         Token.text Token.charTypes Token.pos Token.lemma Token.senses
         d_senses Tokenize.noData].
    split; [reflexivity|]. split; [lia|]. split; [lia|]. split; [lia|].
    split; [reflexivity|].
    split; [change (ChunkFramework.text pp) with text;
            rewrite substring_length; lia|].
    split; [apply (Hct 0 0); lia|]. repeat split.
  - unfold Aux.tokenShape, Aux.standalone, Tokenize.createToken.
    change (Tokenize.field_or_zero (fst (Some [100; s; l], (ChunkMarkers.TEXT, rs, rl))) 1)
      with s.
    change (Tokenize.field_or_zero (fst (Some [100; s; l], (ChunkMarkers.TEXT, rs, rl))) 2)
      with l.
    cbn [fst snd Token.chunkType Token.start Token.length
         Token.text Token.charTypes Token.pos Token.lemma Token.senses
         d_senses Tokenize.noData].
    split; [reflexivity|]. split; [lia|]. split; [lia|]. split; [lia|].
    split; [reflexivity|].
    split; [change (ChunkFramework.text pp) with text;
            rewrite substring_length; lia|].
    split; [apply (Hct s l); lia|]. repeat split.
Qed.

(** X15.  The tokens of [WordTokenizer.tokenize].  Every token the call returns is
    of chunk type TEXT (runs of Latin, CJK or other text included), its span
    lies inside the text, its text is the substring of that span and has the
    span's length, it carries one character type per code unit and none of
    them is CONS (which [getCharType] replaces by OTHER), and it has neither
    part of speech, lemma nor senses. *)
Theorem wordTokenizer_token_invariants (config : option Config.t)
    (ignoreChars : option (list jstring)) (text : jstring)
    (splitAffixes spacesAsPunct : bool) (budget : nat) (tokens : list Token.t) :
  WordTokenizer.tokenize (WordTokenizer.make config ignoreChars) text
    splitAffixes spacesAsPunct budget = Js.Ret tokens ->
  Forall (Aux.tokenShape text) tokens.
Proof.
  intros H. apply wordTokenizer_result in H. subst tokens.
  apply Forall_forall. intros tk Hin. apply in_map_iff in Hin.
  destruct Hin as (e & <- & He). apply standalone_shape. exact He.
Qed.

Lemma wordTokenizer_token_invariants_witness :
  exists tokens,
    WordTokenizer.tokenize (WordTokenizer.make None None) Examples.mixed
      false false 3 = Js.Ret tokens /\
    Forall (Aux.tokenShape Examples.mixed) tokens.
Proof.
  eexists. split; [vm_compute; reflexivity|].
  apply (wordTokenizer_token_invariants None None Examples.mixed false false 3%nat).
  vm_compute. reflexivity.
Defined.

(** X16.  A text of separators only gives no tokens.  If every code unit of the
    text counts as Tibetan and is a syllable separator (a tsek, U+0F7F or
    U+0F71), which includes the empty text, then the served chunk frame has
    no entry and [WordTokenizer.tokenize] returns the empty list under any
    loop budget of at least one. *)
Theorem separators_only_no_tokens (config : option Config.t)
    (ignoreChars : option (list jstring)) (text : jstring)
    (splitAffixes spacesAsPunct : bool) (budget : nat) :
  let self := WordTokenizer.make config ignoreChars in
  let c := ChunkFramework.make text (WordTokenizer.ignoreChars self)
             spacesAsPunct in
  (forall p, 0 <= p < Js.len text ->
             ChunkFramework.isBoUnicode c p = true /\
             ChunkFramework.isTsekOrLongSkrtVowel c p = true) ->
  (1 <= budget)%nat ->
  ChunkFramework.chunks (ChunkFramework.serveSylsToTrie c) = [] /\
  WordTokenizer.tokenize self text splitAffixes spacesAsPunct budget = Js.Ret [].
Proof.
  intros self c Hsep Hb.
  assert (E : ChunkFramework.chunks (ChunkFramework.serveSylsToTrie c) = []).
  { destruct (ChunkFramework.chunks (ChunkFramework.serveSylsToTrie c))
      as [|e l] eqn:E; [reflexivity|].
    exfalso.
    destruct (served_entries text (WordTokenizer.ignoreChars self) spacesAsPunct e)
      as [(s & l' & _ & H1 & H2 & H3 & Hno)
         |(s & l' & rs & rl & _ & H1 & H2 & H3 & H4 & H5 & Hns & _)].
    - fold c. rewrite E. left. reflexivity.
    - specialize (Hno s ltac:(lia)). fold c in Hno.
      destruct (Hsep s ltac:(lia)) as [Hbo _]. congruence.
    - fold c in Hns. destruct (Hsep s ltac:(lia)) as [_ Hs]. congruence. }
  split; [exact E|].
  unfold WordTokenizer.tokenize. fold self. fold c.
  unfold Tokenize.tokenize. destruct budget as [|b]; [lia|].
  rewrite tokenize_loop_step, E. cbn [Js.len List.length Z.of_nat Z.ltb Z.compare Js.bind].
  destruct splitAffixes; reflexivity.
Qed.

Lemma separators_only_no_tokens_witness :
  WordTokenizer.tokenize (WordTokenizer.make None None) [0x0F0B; 0x0F0B]
    false false 1 = Js.Ret [].
Proof.
  apply (separators_only_no_tokens None None [0x0F0B; 0x0F0B] false false 1%nat).
  - intros p Hp. change (Js.len [0x0F0B; 0x0F0B]) with 2 in Hp.
    assert (Hcases : p = 0 \/ p = 1) by lia.
    destruct Hcases as [-> | ->]; split; reflexivity.
  - lia.
Defined.

(** ** WordTokenizer.getDefaultLemma and chooseDefaultEntry *)

Lemma defaultLemma_unfold (self : WordTokenizer.t) (tk : Token.t) (c : Z)
    (u : jstring) :
  Token.textUnaffixed tk = Some (c :: u) ->
  WordTokenizer.defaultLemma self tk =
    Token.set_senses
      (Aux.fillSenses (Aux.lemmaFor self tk (c :: u)) (Token.senses tk)) tk.
Proof. intros H. unfold WordTokenizer.defaultLemma. rewrite H. reflexivity. Qed.

Lemma endsWith_snoc (l : jstring) (x : Z) : Js.endsWith (l ++ [x]) [x] = true.
Proof.
  unfold Js.endsWith. rewrite rev_unit. simpl. rewrite Z.eqb_refl.
  destruct (rev l); reflexivity.
Qed.

Lemma endsWith_truthy (l p : jstring) :
  p <> [] -> Js.endsWith l p = true -> Js.truthy_str (Some l) = true.
Proof.
  intros Hp H. destruct l as [|x l]; [|reflexivity].
  unfold Js.endsWith in H. simpl in H.
  destruct (rev p) as [|y r] eqn:E; [|discriminate].
  apply (f_equal (@rev Z)) in E. rewrite rev_involutive in E. contradiction.
Qed.

Lemma lemmaFor_tsek (self : WordTokenizer.t) (tk : Token.t) (x : jstring) :
  Js.endsWith (Aux.lemmaFor self tk x) TSEK_STR = true.
Proof.
  unfold Aux.lemmaFor, TSEK_STR. cbv zeta.
  destruct (Js.truthy_bool (Token.affix tk) &&
            negb (Js.truthy_bool (Token.affixHost tk))).
  - destruct (WordTokenizer.lookup _ _) as [[|c' l]|]; apply endsWith_snoc.
  - destruct (negb (Js.truthy_bool (Token.affix tk)) &&
              Js.truthy_bool (Token.affixHost tk)); [apply endsWith_snoc|].
    destruct (Js.endsWith x [0x0F0B]) eqn:E; [exact E|apply endsWith_snoc].
Qed.

Lemma fillSense_spec (lemma : jstring) (m : SenseInfo) :
  Js.endsWith lemma TSEK_STR = true ->
  Aux.lemmaComplete (Aux.fillSense lemma m) /\
  Aux.sameButLemma m (Aux.fillSense lemma m) /\
  Aux.fillSense lemma (Aux.fillSense lemma m) = Aux.fillSense lemma m.
Proof.
  intros Hl.
  assert (Ht : Js.truthy_str (Some lemma) = true).
  { apply (endsWith_truthy lemma TSEK_STR); [discriminate|exact Hl]. }
  unfold Aux.fillSense, Aux.lemmaComplete, Aux.sameButLemma.
  destruct (Js.truthy_str (s_lemma m)) eqn:E1; cbn [negb andb].
  - rewrite E1. cbn [negb andb]. repeat split; auto; try congruence.
  - destruct (Js.truthy_str (s_pos m)) eqn:E2; cbn [andb].
    + destruct (Js.opt_str_is (s_pos m) (Js.lit "NON_WORD")) eqn:E3; cbn [negb].
      * rewrite E1, E2, E3. cbn [negb andb]. repeat split; auto; try congruence.
      * change (s_lemma (WordTokenizer.set_lemma_of_sense lemma m)) with (Some lemma).
        change (s_pos (WordTokenizer.set_lemma_of_sense lemma m)) with (s_pos m).
        rewrite Ht. cbn [negb andb]. repeat split; auto.
        right. split; [reflexivity|]. exists lemma. split; [reflexivity|exact Hl].
    + rewrite E1, E2. cbn [negb andb]. repeat split; auto; try congruence.
Qed.

Lemma fillSenses_spec (lemma : jstring) (senses : option (list SenseInfo)) :
  Js.endsWith lemma TSEK_STR = true ->
  exists l,
    Aux.fillSenses lemma senses = Some l /\ l <> [] /\
    Forall Aux.lemmaComplete l /\
    match senses with
    | Some (m :: old) => Forall2 Aux.sameButLemma (m :: old) l
    | _ => l = [mkSense None None (Some lemma) None None]
    end /\
    Aux.fillSenses lemma (Some l) = Some l.
Proof.
  intros Hl. unfold Aux.fillSenses.
  assert (Hdefault :
            Aux.fillSense lemma (mkSense None None (Some lemma) None None) =
            mkSense None None (Some lemma) None None).
  { unfold Aux.fillSense. simpl. rewrite andb_false_r. reflexivity. }
  assert (Hdc : Aux.lemmaComplete (mkSense None None (Some lemma) None None)).
  { intros H. discriminate. }
  destruct senses as [[|m old]|].
  - eexists. split; [reflexivity|]. split; [discriminate|].
    split; [repeat constructor; exact Hdc|]. split; [reflexivity|].
    cbn [map]. rewrite Hdefault. reflexivity.
  - cbn [map]. eexists. split; [reflexivity|]. split; [discriminate|].
    split; [|split].
    + apply Forall_forall. intros x Hx.
      change (In x (map (Aux.fillSense lemma) (m :: old))) in Hx.
      apply in_map_iff in Hx. destruct Hx as (y & <- & _).
      apply (fillSense_spec lemma y Hl).
    + change (Forall2 Aux.sameButLemma (m :: old)
                (map (Aux.fillSense lemma) (m :: old))).
      induction (m :: old) as [|y l IH]; constructor;
        [apply (fillSense_spec lemma y Hl)|exact IH].
    + cbn [map]. rewrite (proj2 (proj2 (fillSense_spec lemma m Hl))).
      do 2 f_equal. rewrite map_map. apply map_ext. intros y.
      apply (fillSense_spec lemma y Hl).
  - eexists. split; [reflexivity|]. split; [discriminate|].
    split; [repeat constructor; exact Hdc|]. split; [reflexivity|].
    cbn [map]. rewrite Hdefault. reflexivity.
Qed.

Lemma defaultLemma_idempotent (self : WordTokenizer.t) (tk : Token.t) :
  WordTokenizer.defaultLemma self (WordTokenizer.defaultLemma self tk) =
  WordTokenizer.defaultLemma self tk.
Proof.
  destruct (Token.textUnaffixed tk) as [[|c u]|] eqn:Hu.
  - unfold WordTokenizer.defaultLemma. rewrite Hu. rewrite Hu. reflexivity.
  - rewrite (defaultLemma_unfold self tk c u Hu).
    rewrite (defaultLemma_unfold self _ c u) by exact Hu.
    change (Aux.lemmaFor self (Token.set_senses _ tk) (c :: u))
      with (Aux.lemmaFor self tk (c :: u)).
    cbn [Token.senses Token.set_senses].
    destruct (fillSenses_spec (Aux.lemmaFor self tk (c :: u)) (Token.senses tk)
                (lemmaFor_tsek self tk (c :: u))) as (l & -> & _ & _ & _ & ->).
    reflexivity.
  - unfold WordTokenizer.defaultLemma. rewrite Hu. rewrite Hu. reflexivity.
Qed.

(** X17.  What [getDefaultLemma] leaves.  A token without a truthy unaffixed text
    is left as it is.  Any other token changes in its senses only: they are
    not empty afterwards, every sense with a part of speech other than
    NON_WORD has a lemma, a lemma that was there is kept, a lemma that was
    written ends in a tsek, and a token that had no sense gets the single
    sense that holds the lemma.  Running the pass again changes nothing. *)
Theorem getDefaultLemma_completes (self : WordTokenizer.t)
    (tokens : list Token.t) :
  Forall2
    (fun tk tk' =>
       (Js.truthy_str (Token.textUnaffixed tk) = false -> tk' = tk) /\
       (Js.truthy_str (Token.textUnaffixed tk) = true ->
        exists l,
          tk' = Token.set_senses (Some l) tk /\ l <> [] /\
          Forall Aux.lemmaComplete l /\
          match Token.senses tk with
          | Some (m :: old) => Forall2 Aux.sameButLemma (m :: old) l
          | _ => exists lemma,
                   l = [mkSense None None (Some lemma) None None] /\
                   Js.endsWith lemma TSEK_STR = true
          end))
    tokens (WordTokenizer.getDefaultLemma self tokens) /\
  WordTokenizer.getDefaultLemma self (WordTokenizer.getDefaultLemma self tokens) =
    WordTokenizer.getDefaultLemma self tokens.
Proof.
  unfold WordTokenizer.getDefaultLemma. split.
  - induction tokens as [|tk tokens IH]; cbn [map]; constructor; [|exact IH].
    split.
    + intros Hf. unfold WordTokenizer.defaultLemma.
      destruct (Token.textUnaffixed tk) as [[|c u]|]; try reflexivity.
      discriminate.
    + intros Ht.
      destruct (Token.textUnaffixed tk) as [[|c u]|] eqn:Hu; try discriminate.
      rewrite (defaultLemma_unfold self tk c u Hu).
      destruct (fillSenses_spec (Aux.lemmaFor self tk (c :: u)) (Token.senses tk)
                  (lemmaFor_tsek self tk (c :: u)))
        as (l & -> & Hne & Hall & Hold & _).
      exists l. split; [reflexivity|]. split; [exact Hne|]. split; [exact Hall|].
      destruct (Token.senses tk) as [[|m old]|]; try exact Hold;
        (eexists; split; [exact Hold|apply lemmaFor_tsek]).
  - rewrite map_map. apply map_ext. intros tk. apply defaultLemma_idempotent.
Qed.

Lemma assign_twice {A : Type} (p : Js.property A) (old : option A) :
  Js.assign p (Js.assign p old) = Js.assign p old.
Proof. destruct p; reflexivity. Qed.

Lemma applyChosenSense_twice (tk : Token.t) (m : SenseInfo) :
  WordTokenizer.applyChosenSense (WordTokenizer.applyChosenSense tk m) m =
  WordTokenizer.applyChosenSense tk m.
Proof.
  unfold WordTokenizer.applyChosenSense. simpl.
  rewrite !assign_twice. reflexivity.
Qed.

Lemma defaultEntry_senses (tk : Token.t) :
  Token.senses (WordTokenizer.defaultEntry tk) = Token.senses tk.
Proof.
  unfold WordTokenizer.defaultEntry.
  destruct (Token.senses tk) as [[|m l]|] eqn:E; try exact E.
  match goal with
  | |- Token.senses (match ?c with Some _ => _ | None => _ end) = _ =>
      destruct c
  end; exact E.
Qed.

Lemma defaultEntry_idempotent (tk : Token.t) :
  WordTokenizer.defaultEntry (WordTokenizer.defaultEntry tk) =
  WordTokenizer.defaultEntry tk.
Proof.
  unfold WordTokenizer.defaultEntry at 1. rewrite defaultEntry_senses.
  unfold WordTokenizer.defaultEntry.
  destruct (Token.senses tk) as [[|m l]|]; try reflexivity.
  match goal with
  | |- match ?c with Some _ => _ | None => _ end = _ => destruct c
  end; [apply applyChosenSense_twice|reflexivity].
Qed.

(** X18.  [chooseDefaultEntry] writes at most the four attributes [pos], [lemma],
    [freq] and [sense] of a token: the text, the span, the chunk type, the
    character types, the senses and the affix fields of every token stay as
    they were, and the list keeps its length and order.  Running the pass
    again on its result changes nothing. *)
Theorem chooseDefaultEntry_idempotent (tokens : list Token.t) :
  Forall2
    (fun tk tk' =>
       Token.text tk' = Token.text tk /\
       Token.start tk' = Token.start tk /\
       Token.length tk' = Token.length tk /\
       Token.chunkType tk' = Token.chunkType tk /\
       Token.charTypes tk' = Token.charTypes tk /\
       Token.senses tk' = Token.senses tk /\
       Token.textUnaffixed tk' = Token.textUnaffixed tk /\
       Token.affix tk' = Token.affix tk /\
       Token.affixHost tk' = Token.affixHost tk /\
       Token.affixation tk' = Token.affixation tk)
    tokens (WordTokenizer.chooseDefaultEntry tokens) /\
  WordTokenizer.chooseDefaultEntry (WordTokenizer.chooseDefaultEntry tokens) =
    WordTokenizer.chooseDefaultEntry tokens.
Proof.
  unfold WordTokenizer.chooseDefaultEntry. split.
  - induction tokens as [|tk tokens IH]; cbn [map]; constructor; [|exact IH].
    unfold WordTokenizer.defaultEntry.
    destruct (Token.senses tk) as [[|m l]|] eqn:E.
    + repeat split; try exact E.
    + match goal with
      | |- context [Token.text (match ?c with Some _ => _ | None => _ end)] =>
          destruct c
      end; repeat split; try exact E.
    + repeat split; try exact E.
  - rewrite map_map. apply map_ext. intros tk. apply defaultEntry_idempotent.
Qed.

(** ** Token.getAllPos and matchesPos *)

Lemma existsb_eqb_In (p : jstring) (poses : list jstring) :
  existsb (Js.eqb p) poses = true <-> In p poses.
Proof.
  rewrite existsb_exists. split.
  - intros (x & Hx & E). apply Js_eqb_eq in E. subst. exact Hx.
  - intros H. exists p. split; [exact H|apply Js_eqb_refl].
Qed.

Lemma allPos_loop_spec (l : list SenseInfo) :
  forall poses,
    NoDup poses ->
    NoDup (Token.allPos_loop l poses) /\
    (forall p, In p (Token.allPos_loop l poses) <->
               In p poses \/
               (p <> [] /\ exists m, In m l /\ s_pos m = Some p)) /\
    exists added, Token.allPos_loop l poses = poses ++ added.
Proof.
  induction l as [|m l IH]; intros poses Hnd; cbn [Token.allPos_loop].
  - split; [exact Hnd|]. split.
    + intros p. split; [auto|]. intros [H|(_ & x & [] & _)]. exact H.
    + exists []. rewrite app_nil_r. reflexivity.
  - assert (Hskip :
              (s_pos m = None \/ s_pos m = Some [] \/
               exists c q, s_pos m = Some (c :: q) /\ In (c :: q) poses) ->
              NoDup (Token.allPos_loop l poses) /\
              (forall p, In p (Token.allPos_loop l poses) <->
                         In p poses \/
                         (p <> [] /\ exists x, In x (m :: l) /\ s_pos x = Some p)) /\
              exists added, Token.allPos_loop l poses = poses ++ added).
    { intros Hm. destruct (IH poses Hnd) as (H1 & H2 & H3).
      split; [exact H1|]. split; [|exact H3].
      intros p. rewrite H2. split.
      - intros [H|(Hp & x & Hx & Ex)]; [left; exact H|].
        right. split; [exact Hp|]. exists x. split; [right; exact Hx|exact Ex].
      - intros [H|(Hp & x & [<-|Hx] & Ex)]; [left; exact H| |].
        + destruct Hm as [Hm|[Hm|(c & q & Hm & Hin)]]; try congruence.
          rewrite Hm in Ex. inversion Ex; subst. left. exact Hin.
        + right. split; [exact Hp|]. exists x. split; assumption. }
    destruct (s_pos m) as [[|c q]|] eqn:Em.
    + apply Hskip. right. left. reflexivity.
    + destruct (existsb (Js.eqb (c :: q)) poses) eqn:Ex.
      * apply Hskip. right. right. exists c, q. split; [reflexivity|].
        apply existsb_eqb_In. exact Ex.
      * assert (Hnot : ~ In (c :: q) poses).
        { intros Hin. apply existsb_eqb_In in Hin. congruence. }
        assert (Hnd' : NoDup (poses ++ [c :: q])).
        { apply NoDup_app; [exact Hnd|repeat constructor; intros []|].
          intros x Hx [<-|[]]. contradiction. }
        destruct (IH (poses ++ [c :: q]) Hnd') as (H1 & H2 & added & H3).
        split; [exact H1|]. split.
        -- intros p. rewrite H2, in_app_iff. split.
           ++ intros [[H|[<-|[]]]|(Hp & x & Hx & Epx)].
              ** left. exact H.
              ** right. split; [discriminate|]. exists m.
                 split; [left; reflexivity|exact Em].
              ** right. split; [exact Hp|]. exists x.
                 split; [right; exact Hx|exact Epx].
           ++ intros [H|(Hp & x & [<-|Hx] & Epx)].
              ** left. left. exact H.
              ** rewrite Em in Epx. inversion Epx; subst.
                 left. right. left. reflexivity.
              ** right. split; [exact Hp|]. exists x. split; assumption.
        -- exists ((c :: q) :: added). rewrite H3, <- app_assoc. reflexivity.
    + apply Hskip. left. reflexivity.
Qed.

(** X19.  [getAllPos] returns every tag once.  The list has no duplicates and
    holds exactly the non-empty strings that are the [pos] of the token or
    of one of its senses; a truthy [pos] of the token comes first; and
    [matchesPos] answers whether its argument is in that list, so it is
    false for the empty string. *)
Theorem getAllPos_spec (tk : Token.t) :
  NoDup (Token.getAllPos tk) /\
  (forall p,
     In p (Token.getAllPos tk) <->
     p <> [] /\
     (Token.pos tk = Some p \/
      exists l m, Token.senses tk = Some l /\ In m l /\ s_pos m = Some p)) /\
  (Js.truthy_str (Token.pos tk) = true ->
   hd_error (Token.getAllPos tk) = Token.pos tk) /\
  (forall p, Token.matchesPos tk p = true <-> In p (Token.getAllPos tk)) /\
  Token.matchesPos tk [] = false.
Proof.
  set (poses := match Token.pos tk with Some (c :: p) => [c :: p] | _ => [] end).
  assert (Hnd : NoDup poses).
  { unfold poses. destruct (Token.pos tk) as [[|c q]|]; repeat constructor.
    intros []. }
  assert (Hposes : forall p, In p poses <-> p <> [] /\ Token.pos tk = Some p).
  { intros p. unfold poses. destruct (Token.pos tk) as [[|c q]|]; simpl.
    - split; [tauto|]. intros [Hp E]. inversion E. congruence.
    - split.
      + intros [<-|[]]. split; [discriminate|reflexivity].
      + intros [_ E]. inversion E. left. reflexivity.
    - split; [tauto|]. intros [_ E]. discriminate. }
  assert (Hmem : forall p,
            In p (Token.getAllPos tk) <->
            p <> [] /\
            (Token.pos tk = Some p \/
             exists l m, Token.senses tk = Some l /\ In m l /\ s_pos m = Some p)).
  { intros p. unfold Token.getAllPos. fold poses.
    destruct (Token.senses tk) as [l|].
    - destruct (allPos_loop_spec l poses Hnd) as (_ & H2 & _).
      rewrite H2, Hposes. split.
      + intros [[Hp E]|(Hp & m & Hm & E)]; split; auto.
        right. exists l, m. auto.
      + intros [Hp [E|(l' & m & El & Hm & E)]]; [left; auto|].
        inversion El; subst. right. split; [exact Hp|]. exists m. auto.
    - rewrite Hposes. split.
      + intros [Hp E]. auto.
      + intros [Hp [E|(l' & m & El & _)]]; [auto|discriminate]. }
  split; [|split; [exact Hmem|split; [|split]]].
  - unfold Token.getAllPos. fold poses.
    destruct (Token.senses tk) as [l|]; [|exact Hnd].
    apply (allPos_loop_spec l poses Hnd).
  - intros Ht. unfold Token.getAllPos. fold poses.
    assert (Hp : exists c q, Token.pos tk = Some (c :: q) /\ poses = [c :: q]).
    { unfold poses. destruct (Token.pos tk) as [[|c q]|]; try discriminate.
      exists c, q. split; reflexivity. }
    destruct Hp as (c & q & -> & ->).
    destruct (Token.senses tk) as [l|]; [|reflexivity].
    destruct (allPos_loop_spec l [c :: q]) as (_ & _ & added & ->);
      [repeat constructor; intros []|reflexivity].
  - intros p. unfold Token.matchesPos. apply existsb_eqb_In.
  - destruct (Token.matchesPos tk []) eqn:E; [|reflexivity].
    unfold Token.matchesPos in E. apply existsb_eqb_In in E.
    apply Hmem in E. destruct E as [E _]. congruence.
Qed.

(** ** BoString: the categories and the three predicates *)

Ltac head_if :=
  match goal with
  | |- Aux.categoryFacts _ (if ?c then _ else _) =>
      let E := fresh "E" in destruct c eqn:E
  end.

Ltac to_arith :=
  repeat match goal with
         | H : _ && _ = true |- _ => apply andb_true_iff in H; destruct H
         | H : _ && _ = false |- _ => apply andb_false_iff in H
         | H : _ || _ = true |- _ => apply orb_true_iff in H
         | H : _ || _ = false |- _ => apply orb_false_iff in H; destruct H
         | H : (_ <=? _) = true |- _ => apply Z.leb_le in H
         | H : (_ <=? _) = false |- _ => apply Z.leb_gt in H
         | H : (_ =? _) = true |- _ => apply Z.eqb_eq in H
         | H : (_ =? _) = false |- _ => apply Z.eqb_neq in H
         end.

Lemma classifyCharacter_facts (u : Z) :
  Aux.categoryFacts u (BoString.classifyCharacter u).
Proof.
  unfold BoString.classifyCharacter, BoString.classifyTibetanCharacter,
    BoString.classifySanskritCharacter, BoString.in_range,
    TIBETAN_RANGE, SANSKRIT_RANGES.
  cbn [existsb fst snd].
  repeat head_if; to_arith; unfold Aux.categoryFacts;
    repeat split; intros; try discriminate; try lia.
Qed.

Lemma idx_map {A B : Type} (f : A -> B) (l : list A) (p : Z) :
  Js.idx (map f l) p = option_map f (Js.idx l p).
Proof.
  unfold Js.idx. destruct (p <? 0); [reflexivity|apply nth_error_map].
Qed.

Lemma idx_none {A : Type} (l : list A) (p : Z) :
  Js.idx l p = None <-> p < 0 \/ Js.len l <= p.
Proof.
  unfold Js.idx, Js.len. destruct (Z.ltb_spec p 0) as [Hneg|Hpos].
  - split; [intros _; left; exact Hneg|reflexivity].
  - rewrite nth_error_None. lia.
Qed.

(** X20.  The categories that the constructor of [BoString] assigns.  There is
    one category per code unit; an ignored character is TRANSPARENT; any
    other code unit gets the category of the table [categoryFacts], in which
    the ranges of the categories do not overlap: U+0F7F is a VOW and never an
    IN_SYL_MARK, the tsek and the shad marks are never SPECIAL_PUNCT, and no
    code unit is NON_BO_NON_SKRT or NFC.  Outside the text there is no
    category. *)
Theorem classifyCharacters_categories (text : jstring) (ignore : list jstring) :
  let b := BoString.make text ignore in
  Js.len (BoString.baseStructure b) = Js.len text /\
  (forall p, BoString.getCharType b p = None <-> p < 0 \/ Js.len text <= p) /\
  (forall p ct,
     BoString.getCharType b p = Some ct ->
     exists u,
       Js.idx text p = Some u /\
       (existsb (Js.eqb [u]) ignore = true /\ ct = TRANSPARENT \/
        existsb (Js.eqb [u]) ignore = false /\ Aux.categoryFacts u ct)) /\
  (forall p, BoString.getCharType b p <> Some NON_BO_NON_SKRT /\
             BoString.getCharType b p <> Some NFC).
Proof.
  intros b.
  assert (Hcat : forall p ct,
            BoString.getCharType b p = Some ct ->
            exists u,
              Js.idx text p = Some u /\
              (existsb (Js.eqb [u]) ignore = true /\ ct = TRANSPARENT \/
               existsb (Js.eqb [u]) ignore = false /\ Aux.categoryFacts u ct)).
  { intros p ct H. unfold BoString.getCharType, b in H. cbn [BoString.baseStructure BoString.make] in H.
    rewrite idx_map in H. destruct (Js.idx text p) as [u|]; [|discriminate].
    cbn [option_map] in H. inversion H; subst ct. exists u.
    split; [reflexivity|]. unfold BoString.classifyAt.
    destruct (existsb (Js.eqb [u]) ignore).
    - left. split; reflexivity.
    - right. split; [reflexivity|apply classifyCharacter_facts]. }
  split; [|split; [|split; [exact Hcat|]]].
  - unfold Js.len. cbn [b BoString.baseStructure BoString.make].
    rewrite length_map. reflexivity.
  - intros p. unfold BoString.getCharType, b. cbn [BoString.baseStructure BoString.make].
    rewrite idx_none. unfold Js.len. rewrite length_map. reflexivity.
  - intros p. split; intros H; apply Hcat in H;
      destruct H as (u & _ & [[_ H]|[_ H]]); try discriminate;
      unfold Aux.categoryFacts in H; tauto.
Qed.

(** X21.  The predicates [isTibetan], [isPunctuation] and [isSanskrit] of
    [BoString] and [isBoUnicode] of [ChunkFramework].  Outside the text all
    four are false.  Punctuation and Sanskrit code units count as Tibetan for
    [isTibetan], and no code unit is both punctuation and Sanskrit.
    [isBoUnicode] is true exactly where [isTibetan] is true or the category
    is TRANSPARENT: spaces and ignored characters belong to a Tibetan run for
    the chunker but are not Tibetan for [BoString]. *)
Theorem tibetan_predicates (text : jstring) (ignoreChars : list jstring)
    (spacesAsPunct : bool) (p : Z) :
  let c := ChunkFramework.make text ignoreChars spacesAsPunct in
  let b := ChunkFramework.bs c in
  (BoString.getCharType b p = None ->
   BoString.isTibetan b p = false /\ BoString.isPunctuation b p = false /\
   BoString.isSanskrit b p = false /\ ChunkFramework.isBoUnicode c p = false) /\
  (BoString.isPunctuation b p = true -> BoString.isTibetan b p = true) /\
  (BoString.isSanskrit b p = true -> BoString.isTibetan b p = true) /\
  (BoString.isPunctuation b p = true -> BoString.isSanskrit b p = false) /\
  ChunkFramework.isBoUnicode c p =
    BoString.isTibetan b p ||
    BoString.type_is (BoString.getCharType b p) TRANSPARENT.
Proof.
  intros c b.
  unfold BoString.isTibetan, BoString.isPunctuation, BoString.isSanskrit,
    ChunkFramework.isBoUnicode, BoString.getCharType.
  fold b.
  destruct (Js.idx (BoString.baseStructure b) p) as [[]|];
    repeat split; intros; try discriminate; reflexivity.
Qed.
